(** * aalam ECS core: a shallow embedding of the storage engine

    The development follows the four source modules
    (EntityHandle, EntityStore, SparseSet, ComponentStore) and the Registry
    that composes them.  JavaScript values that the code stores in its
    arrays are kept dynamically typed ([jsval]); numbers are modelled by
    their integer value, with the 32-bit coercions of the bit operators and
    the rounding of [Number(bigint)] written out.  What the language leaves
    to its environment is a parameter: the largest typed array that the
    engine allocates ([Engine]) and the structured clone of a payload
    object ([Cloneable]). *)

From Stdlib Require Import ZArith Lia Bool List Permutation Sorted.
From stdpp Require Import base option list sorting gmap.

Local Open Scope Z_scope.

(** ** JavaScript numbers and values *)

Module JS.

(** Values that occur in the arrays of the engine: array holes and
    out-of-range reads ([undefined]), the [Infinity] default of untyped
    dense arrays, integer-valued numbers and bigints. *)
Inductive jsval : Type :=
| JUndefined
| JInfinity
| JNumber (n : Z)
| JBigInt (n : Z).

#[global] Instance jsval_eq_dec : EqDecision jsval.
Proof. solve_decision. Defined.

(** Strict equality [===] on these values is structural. *)
Definition strict_eq (a b : jsval) : bool := bool_decide (a = b).

(** Exceptions raised by the engine. *)
Inductive error : Type :=
| TypeError
| RangeError
| DataCloneError          (* [structuredClone] of a value that cannot be cloned *)
| HandlerMissing          (* "Entity Handler missing" *)
| HandleTooBig            (* "Cant have Entities bigger than 64 bits" *)
| HandleBitsNotPositive   (* "indexBits and versionBits must be positive" *)
| OutOfHandles            (* "Out Of Handles" *)
| CapacityExceeded        (* "Limit reached Cant Resize " *)
| InvalidHandle           (* "Invalid Handle to remove" *)
| PageSizeNotPowerOfTwo   (* "pageSize must be a power of 2" *)
| PageSizeTooSmall        (* "pageSize must be at least 128" *)
| IncorrectConfig         (* "Incorrect Config Passed" *)
| TypeRequired            (* "A Type for the component is required" *)
| EmptyComponent          (* "This Does not upport empty Comps" and the like *)
| OnlyForEmpty            (* "Method only for ComponentEmpty Type" *)
| ComponentDoesNotExist   (* "Component Does Not Exist For this Id" *)
| EntityDoesNotExist      (* "Entity does not exist" *)
| NoSuchComponent         (* "no such component registerd" *)
| NoSuchEntityForComp     (* "No such entity is registerd for comp" *)
| StoreDoesNotExist       (* "CompStore dos not exixt" *)
| InvalidComponentEntry.  (* "Invalid component entry in 'comps'" *)

#[global] Instance error_eq_dec : EqDecision error.
Proof. solve_decision. Defined.

Inductive result (A : Type) : Type :=
| Ok (a : A)
| Throw (e : error).
Arguments Ok {A} a.
Arguments Throw {A} e.

#[global] Instance result_eq_dec {A} `{EqDecision A} : EqDecision (result A).
Proof. solve_decision. Defined.

Definition bind {A B} (r : result A) (k : A -> result B) : result B :=
  match r with
  | Ok a => k a
  | Throw e => Throw e
  end.

(** [ToInt32] and [ToUint32] of an integer-valued number. *)
Definition ToInt32 (z : Z) : Z := (z + 2 ^ 31) mod 2 ^ 32 - 2 ^ 31.
Definition ToUint32 (z : Z) : Z := z mod 2 ^ 32.

(** The operators [&], [|], [<<] and [>>>] on numbers. *)
Definition and32 (a b : Z) : Z := Z.land (ToInt32 a) (ToInt32 b).
Definition or32 (a b : Z) : Z := Z.lor (ToInt32 a) (ToInt32 b).
Definition shl32 (a n : Z) : Z :=
  ToInt32 (Z.shiftl (ToInt32 a) (ToUint32 n mod 32)).
Definition ushr32 (a n : Z) : Z :=
  Z.shiftr (ToUint32 a) (ToUint32 n mod 32).

(** Rounding of an integer to the nearest double (ties to even): the
    value of [Number(b)] for a bigint [b], and of an addition of two
    integer-valued numbers. *)
Definition round_double (z : Z) : Z :=
  let a := Z.abs z in
  if a <? 2 ^ 53 then z
  else
    let e := Z.log2 a - 52 in
    let q := Z.shiftr a e in
    let r := Z.land a (Z.ones e) in
    let half := 2 ^ (e - 1) in
    let q' := if (half <? r) || ((r =? half) && Z.odd q) then q + 1 else q in
    Z.sgn z * (q' * 2 ^ e).

Definition num_add (a b : Z) : Z := round_double (a + b).


(** Array cells of a JavaScript [Array]: reading past the end gives
    [undefined]; writing past the end extends the array with holes. *)
Definition arr_get {A} (dflt : A) (l : list A) (i : Z) : A :=
  if i <? 0 then dflt else default dflt (l !! Z.to_nat i).

Definition arr_set {A} (hole : A) (l : list A) (i : Z) (v : A) : list A :=
  if i <? 0 then l
  else if i <? Z.of_nat (length l) then <[Z.to_nat i := v]> l
  else l ++ replicate (Z.to_nat i - length l) hole ++ [v].

(** [arr.length = n; arr.fill(v, start)] with [start] the old length:
    truncation when [n] is smaller, [v]-filled growth otherwise. *)
Definition arr_resize {A} (fillv : A) (l : list A) (n : Z) : list A :=
  take (Z.to_nat n) l ++ replicate (Z.to_nat n - length l) fillv.

(** The largest length of an [Array]: [new Array(n)] and
    [arr.length = n] raise a RangeError for a negative [n] and for [n]
    beyond it. *)
Definition MAX_ARRAY_LENGTH : Z := 2 ^ 32 - 1.

Definition valid_length (n : Z) : bool := (0 <=? n) && (n <=? MAX_ARRAY_LENGTH).

(** The largest length of a typed array is left to the engine that runs
    the code: [new Uint32Array(n)] and [new BigUint64Array(n)] raise a
    RangeError for a negative [n] and for [n] beyond the largest length
    that the engine allocates. *)
Class Engine : Type := { max_typed_length : Z }.

(** The largest length of an array, typed or not, and whether an array
    of length [n] can be created. *)
Definition max_length `{Engine} (typed : bool) : Z :=
  if typed then max_typed_length else MAX_ARRAY_LENGTH.

Definition alloc_ok `{Engine} (typed : bool) (n : Z) : bool :=
  (0 <=? n) && (n <=? max_length typed).

(** [arr.length = n; arr.fill(v, start)] with its RangeError. *)
Definition set_length {A} (fillv : A) (l : list A) (n : Z) : result (list A) :=
  if valid_length n then Ok (arr_resize fillv l n) else Throw RangeError.

(** Typed arrays: a write out of range is ignored. *)
Definition typed_set {A} (l : list A) (i : Z) (v : A) : list A :=
  if (0 <=? i) && (i <? Z.of_nat (length l)) then <[Z.to_nat i := v]> l else l.

(** Conversion of a value written into a [Uint32Array] cell. *)
Definition to_uint32_cell (v : jsval) : result jsval :=
  match v with
  | JNumber n => Ok (JNumber (ToUint32 n))
  | JUndefined | JInfinity => Ok (JNumber 0)
  | JBigInt _ => Throw TypeError
  end.

(** Conversion of a value written into a [BigUint64Array] cell. *)
Definition to_biguint64_cell (v : jsval) : result jsval :=
  match v with
  | JBigInt n => Ok (JBigInt (n mod 2 ^ 64))
  | _ => Throw TypeError
  end.

End JS.
Export JS.

(** ** EntityHandle: the (index, version) codec *)

Module EntityHandle.

Inductive EntityType : Type := Number | BigInt.

(** The [bits] metadata of a handler; the closures [make], [index] and
    [version] of the source are functions of these two widths. *)
Record EntityHandle : Type := mkHandle {
  indexBits : Z;
  versionBits : Z;
}.

#[global] Instance EntityHandle_eq_dec : EqDecision EntityHandle.
Proof. solve_decision. Defined.

Definition totalBits (h : EntityHandle) : Z := indexBits h + versionBits h.

Definition type (h : EntityHandle) : EntityType :=
  if 32 <? totalBits h then BigInt else Number.

Definition EntityHandleFactory (indexBits versionBits : Z) : result EntityHandle :=
  let totalBits := indexBits + versionBits in
  if 64 <? totalBits then Throw HandleTooBig
  else if (indexBits <=? 0) || (versionBits <=? 0) then Throw HandleBitsNotPositive
  else Ok (mkHandle indexBits versionBits).

(** Number layout (at most 32 bits). *)
Definition indexMask32 (h : EntityHandle) : Z := shl32 1 (indexBits h) - 1.
Definition versionMask32 (h : EntityHandle) : Z := shl32 1 (versionBits h) - 1.

Definition make32 (h : EntityHandle) (index version : Z) : Z :=
  or32 (shl32 (and32 index (indexMask32 h)) (versionBits h))
       (and32 version (versionMask32 h)).
Definition index32 (h : EntityHandle) (n : Z) : Z :=
  and32 (ushr32 n (versionBits h)) (indexMask32 h).
Definition version32 (h : EntityHandle) (n : Z) : Z :=
  and32 n (versionMask32 h).

(** BigInt layout (33 to 64 bits). *)
Definition indexMask64 (h : EntityHandle) : Z := Z.shiftl 1 (indexBits h) - 1.
Definition versionMask64 (h : EntityHandle) : Z := Z.shiftl 1 (versionBits h) - 1.

Definition make64 (h : EntityHandle) (index version : Z) : Z :=
  Z.lor (Z.shiftl (Z.land index (indexMask64 h)) (versionBits h))
        (Z.land version (versionMask64 h)).
Definition index64 (h : EntityHandle) (n : Z) : Z :=
  round_double (Z.land (Z.shiftr n (versionBits h)) (indexMask64 h)).
Definition version64 (h : EntityHandle) (n : Z) : Z :=
  round_double (Z.land n (versionMask64 h)).

(** [make] receives two integer-valued numbers. *)
Definition make (h : EntityHandle) (index version : Z) : jsval :=
  match type h with
  | Number => JNumber (make32 h index version)
  | BigInt => JBigInt (make64 h index version)
  end.




(** [index] and [version] of an arbitrary stored value.  With the Number
    layout [undefined] and [Infinity] coerce to 0 and a bigint operand of
    [>>>] or of a mixed [&] raises; with the BigInt layout every operand
    that is not a bigint raises. *)
Definition index (h : EntityHandle) (id : jsval) : result Z :=
  match type h, id with
  | Number, JNumber n => Ok (index32 h n)
  | Number, (JUndefined | JInfinity) => Ok (index32 h 0)
  | Number, JBigInt _ => Throw TypeError
  | BigInt, JBigInt n => Ok (index64 h n)
  | BigInt, _ => Throw TypeError
  end.

Definition version (h : EntityHandle) (id : jsval) : result Z :=
  match type h, id with
  | Number, JNumber n => Ok (version32 h n)
  | Number, (JUndefined | JInfinity) => Ok (version32 h 0)
  | Number, JBigInt _ => Throw TypeError
  | BigInt, JBigInt n => Ok (version64 h n)
  | BigInt, _ => Throw TypeError
  end.

Definition equals (a b : jsval) : bool := strict_eq a b.

(** An entity ID has the type the codec produces. *)
Definition well_typed (h : EntityHandle) (id : jsval) : Prop :=
  match type h, id with
  | Number, JNumber _ => True
  | BigInt, JBigInt _ => True
  | _, _ => False
  end.

Definition EntityHandleSmall : EntityHandle := mkHandle 12 4.
Definition EntityHandleMedium : EntityHandle := mkHandle 20 12.
Definition EntityHandleLarge : EntityHandle := mkHandle 32 32.

End EntityHandle.


(** ** SparseSet: paged sparse table over a packed dense array *)

Module SparseSet.
Import EntityHandle.

Definition TOMBSTONE : Z := -1.
Definition FAILED_OPERATION : Z := -1.
Definition SUCCESS_OPERATION : Z := 0.
Definition DEFAULT_DENSE_VAL : jsval := JInfinity.

(** Configuration object; an absent field is [None]. *)
Record SparseSetOptions : Type := mkOptions {
  opt_typedArray : option bool;
  opt_poolSize : option Z;
  opt_pageSize : option Z;
  opt_entityHandler : option EntityHandle;
}.

Definition DefaultSparseSetOptions : SparseSetOptions :=
  mkOptions (Some true) (Some 1024) (Some 4096) (Some EntityHandleMedium).

(** The private fields of the class.  [sparse] maps a page index to a
    page, and a page maps an offset to a dense index or [TOMBSTONE];
    an absent key is an [undefined] cell. *)
Record SparseSet : Type := mkSet {
  pageSize : Z;
  sparse : gmap Z (gmap Z Z);
  dense : list jsval;
  length : Z;
  typedArray : bool;
  entityHandler : EntityHandle;
}.

Definition with_sparse (s : SparseSet) (sp : gmap Z (gmap Z Z)) : SparseSet :=
  mkSet (pageSize s) sp (dense s) (length s) (typedArray s) (entityHandler s).
Definition with_dense (s : SparseSet) (d : list jsval) : SparseSet :=
  mkSet (pageSize s) (sparse s) d (length s) (typedArray s) (entityHandler s).
Definition with_length (s : SparseSet) (n : Z) : SparseSet :=
  mkSet (pageSize s) (sparse s) (dense s) n (typedArray s) (entityHandler s).

Definition new `{Engine} (config : SparseSetOptions) : result SparseSet :=
  match opt_pageSize config with
  | None => Throw PageSizeNotPowerOfTwo
  | Some ps =>
    if (ps =? 0) || negb (and32 ps (ps - 1) =? 0) then Throw PageSizeNotPowerOfTwo
    else if ps <? 128 then Throw PageSizeTooSmall
    else
      match opt_typedArray config, opt_entityHandler config, opt_poolSize config with
      | Some typed, Some h, Some pool =>
        if negb (alloc_ok typed pool) then Throw RangeError
        else
          Ok (mkSet ps ∅
                (replicate (Z.to_nat pool)
                   (if typed then JNumber 0 else DEFAULT_DENSE_VAL))
                0 typed h)
      | _, _, _ => Throw IncorrectConfig
      end
  end.

Definition pageIndex (s : SparseSet) (entityID : jsval) : result Z :=
  bind (index (entityHandler s) entityID) (fun i => Ok (i / pageSize s)).

Definition pageOffset (s : SparseSet) (entityID : jsval) : result Z :=
  bind (index (entityHandler s) entityID) (fun i => Ok (and32 i (pageSize s - 1))).

(** [this.#sparse[pageIndex][pageOffset] = v] on an existing page; the
    assignment raises when the page is [undefined]. *)
Definition write_cell (sp : gmap Z (gmap Z Z)) (pi po v : Z)
  : result (gmap Z (gmap Z Z)) :=
  match sp !! pi with
  | Some page => Ok (<[pi := <[po := v]> page]> sp)
  | None => Throw TypeError
  end.

(** [getOrCreatePage(pageIndex)[pageOffset] = v]. *)
Definition write_cell_create (sp : gmap Z (gmap Z Z)) (pi po v : Z)
  : gmap Z (gmap Z Z) :=
  <[pi := <[po := v]> (default ∅ (sp !! pi))]> sp.

Definition capacity (s : SparseSet) : Z := Z.of_nat (Datatypes.length (dense s)).

Definition reset (s : SparseSet) : SparseSet := with_length s 0.

Definition clear (s : SparseSet) : SparseSet := with_sparse (with_length s 0) ∅.

(** [new Uint32Array(capacity)] and [denseArr.length = capacity] raise a
    RangeError for a capacity that is not a valid length. *)
Definition resize `{Engine} (s : SparseSet) (capacity' : Z) : SparseSet * result Z :=
  if capacity' <=? capacity s then (s, Ok FAILED_OPERATION)
  else if negb (alloc_ok (typedArray s) capacity') then (s, Throw RangeError)
  else
    (with_dense s
       (dense s ++ replicate (Z.to_nat capacity' - Datatypes.length (dense s))
                     (if typedArray s then JNumber 0 else DEFAULT_DENSE_VAL)),
     Ok SUCCESS_OPERATION).

Definition len (s : SparseSet) : Z := length s.

Definition data (s : SparseSet) : list jsval := dense s.

(** The values yielded by the generator [entities()]. *)
Definition entities (s : SparseSet) : list jsval :=
  map (arr_get JUndefined (dense s)) (map Z.of_nat (seq 0 (Z.to_nat (length s)))).

(** [denseIdx !== undefined && denseIdx !== TOMBSTONE && denseIdx < length] *)
Definition live_cell (s : SparseSet) (c : option Z) : bool :=
  match c with
  | None => false
  | Some denseIdx => negb (denseIdx =? TOMBSTONE) && (denseIdx <? length s)
  end.

Definition contains (s : SparseSet) (entityID : jsval) : result bool :=
  bind (pageIndex s entityID) (fun pi =>
    match sparse s !! pi with
    | None => Ok false
    | Some page =>
      bind (pageOffset s entityID) (fun po => Ok (live_cell s (page !! po)))
    end).

Definition index (s : SparseSet) (entityID : jsval) : result Z :=
  bind (pageIndex s entityID) (fun pi =>
    match sparse s !! pi with
    | None => Ok FAILED_OPERATION
    | Some page =>
      bind (pageOffset s entityID) (fun po =>
        match page !! po with
        | Some denseIdx =>
          if live_cell s (Some denseIdx) then Ok denseIdx else Ok FAILED_OPERATION
        | None => Ok FAILED_OPERATION
        end)
    end).

(** [this.#dense[i] = v]: a [Uint32Array] coerces the value and ignores a
    write out of range, an [Array] stores it as it is. *)
Definition dense_write (s : SparseSet) (i : Z) (v : jsval) : result (list jsval) :=
  if typedArray s
  then bind (to_uint32_cell v) (fun c => Ok (typed_set (dense s) i c))
  else Ok (arr_set JUndefined (dense s) i v).

Definition dense_read (s : SparseSet) (i : Z) : jsval :=
  arr_get JUndefined (dense s) i.

Definition add `{Engine} (s : SparseSet) (entityID : jsval) (resize_ : bool)
  : SparseSet * result Z :=
  match contains s entityID with
  | Throw e => (s, Throw e)
  | Ok true => (s, index s entityID)
  | Ok false =>
    let denseIndex := length s in
    let grown : result (option SparseSet) :=
      if capacity s <=? denseIndex then
        if negb resize_ then Ok None
        else
          match resize s (denseIndex * 2) with
          | (_, Throw e) => Throw e
          | (s', Ok status) =>
            if status =? FAILED_OPERATION then Ok None else Ok (Some s')
          end
      else Ok (Some s) in
    match grown with
    | Throw e => (s, Throw e)
    | Ok None => (s, Ok FAILED_OPERATION)
    | Ok (Some s1) =>
      match pageIndex s1 entityID, pageOffset s1 entityID with
      | Ok pi, Ok po =>
        let s2 := with_sparse s1 (write_cell_create (sparse s1) pi po denseIndex) in
        match dense_write s2 denseIndex entityID with
        | Throw e => (s2, Throw e)
        | Ok d => (with_length (with_dense s2 d) (length s2 + 1), Ok denseIndex)
        end
      | Throw e, _ | _, Throw e => (s1, Throw e)
      end
    end
  end.

Definition remove (s : SparseSet) (entityID : jsval) : SparseSet * result Z :=
  if length s =? 0 then (s, Ok FAILED_OPERATION)
  else
    match pageIndex s entityID with
    | Throw e => (s, Throw e)
    | Ok pi =>
      match sparse s !! pi with
      | None => (s, Ok FAILED_OPERATION)
      | Some page =>
        match pageOffset s entityID with
        | Throw e => (s, Throw e)
        | Ok po =>
          match page !! po with
          | None => (s, Ok FAILED_OPERATION)
          | Some denseIdx =>
            if denseIdx =? TOMBSTONE then (s, Ok FAILED_OPERATION)
            else
              let lastDenseIdx := length s - 1 in
              let lastDenseEntity := dense_read s lastDenseIdx in
              let moved : SparseSet * result unit :=
                if denseIdx =? lastDenseIdx then (s, Ok tt)
                else
                  match dense_write s denseIdx lastDenseEntity with
                  | Throw e => (s, Throw e)
                  | Ok d =>
                    let s1 := with_dense s d in
                    match pageIndex s1 lastDenseEntity,
                          pageOffset s1 lastDenseEntity with
                    | Ok lpi, Ok lpo =>
                      match write_cell (sparse s1) lpi lpo denseIdx with
                      | Ok sp => (with_sparse s1 sp, Ok tt)
                      | Throw e => (s1, Throw e)
                      end
                    | Throw e, _ | _, Throw e => (s1, Throw e)
                    end
                  end in
              match moved with
              | (s2, Throw e) => (s2, Throw e)
              | (s2, Ok _) =>
                let s3 := with_sparse s2 (write_cell_create (sparse s2) pi po TOMBSTONE) in
                (with_length s3 (length s3 - 1), Ok SUCCESS_OPERATION)
              end
          end
        end
      end
    end.

Definition swap (s : SparseSet) (ent1 ent2 : jsval) : SparseSet * result Z :=
  if (length s =? 0) || strict_eq ent1 ent2 then (s, Ok FAILED_OPERATION)
  else
    match pageIndex s ent1 with
    | Throw e => (s, Throw e)
    | Ok pi1 =>
      match sparse s !! pi1 with
      | None => (s, Ok FAILED_OPERATION)
      | Some page1 =>
        match pageIndex s ent2 with
        | Throw e => (s, Throw e)
        | Ok pi2 =>
          match sparse s !! pi2 with
          | None => (s, Ok FAILED_OPERATION)
          | Some page2 =>
            match pageOffset s ent1 with
            | Throw e => (s, Throw e)
            | Ok po1 =>
              match page1 !! po1 with
              | None => (s, Ok FAILED_OPERATION)
              | Some denseIdx1 =>
                if denseIdx1 =? TOMBSTONE then (s, Ok FAILED_OPERATION)
                else
                  match pageOffset s ent2 with
                  | Throw e => (s, Throw e)
                  | Ok po2 =>
                    match page2 !! po2 with
                    | None => (s, Ok FAILED_OPERATION)
                    | Some denseIdx2 =>
                      if denseIdx2 =? TOMBSTONE then (s, Ok FAILED_OPERATION)
                      else if (denseIdx1 <? 0) || (length s <=? denseIdx1) ||
                              (denseIdx2 <? 0) || (length s <=? denseIdx2)
                      then (s, Ok FAILED_OPERATION)
                      else
                        let temp := dense_read s denseIdx1 in
                        match dense_write s denseIdx1 (dense_read s denseIdx2) with
                        | Throw e => (s, Throw e)
                        | Ok d1 =>
                          let s1 := with_dense s d1 in
                          match dense_write s1 denseIdx2 temp with
                          | Throw e => (s1, Throw e)
                          | Ok d2 =>
                            let s2 := with_dense s1 d2 in
                            let sp1 := write_cell_create (sparse s2) pi1 po1 denseIdx2 in
                            let sp2 := write_cell_create sp1 pi2 po2 denseIdx1 in
                            (with_sparse s2 sp2, Ok SUCCESS_OPERATION)
                          end
                        end
                    end
                  end
              end
            end
          end
        end
      end
    end.

(** [Array.prototype.sort] and [%TypedArray%.prototype.sort] with a
    comparator: a stable sort, where [cmp a b > 0] places [a] after [b].
    For a consistent comparator every conforming engine returns this
    list.  A comparator's result matters by its sign only. *)
Fixpoint insert_by {A} (cmp : A -> A -> Z) (x : A) (l : list A) : list A :=
  match l with
  | [] => [x]
  | y :: l' => if 0 <? cmp x y then y :: insert_by cmp x l' else x :: y :: l'
  end.

Definition stable_sort {A} (cmp : A -> A -> Z) (l : list A) : list A :=
  foldr (insert_by cmp) [] l.

(** On an [Array], [undefined] elements go last without being compared. *)
Definition array_sort (typed : bool) (cmp : jsval -> jsval -> Z) (l : list jsval)
  : list jsval :=
  if typed then stable_sort cmp l
  else stable_sort cmp (filter (fun v => v <> JUndefined) l)
       ++ filter (fun v => v = JUndefined) l.

(** The loop of [sort] that writes every position back, from [i] on. *)
Fixpoint rebuild (s : SparseSet) (i : Z) (n : nat) : SparseSet * result unit :=
  match n with
  | O => (s, Ok tt)
  | S n' =>
    let entity := dense_read s i in
    match pageIndex s entity, pageOffset s entity with
    | Ok pi, Ok po =>
      match write_cell (sparse s) pi po i with
      | Ok sp => rebuild (with_sparse s sp) (i + 1) n'
      | Throw e => (s, Throw e)
      end
    | Throw e, _ | _, Throw e => (s, Throw e)
    end
  end.

Definition sort (s : SparseSet) (comparatorFunc : jsval -> jsval -> Z)
  : SparseSet * result Z :=
  let s1 := with_dense s (array_sort (typedArray s) comparatorFunc (dense s)) in
  match rebuild s1 0 (Z.to_nat (length s1)) with
  | (s2, Ok _) => (s2, Ok SUCCESS_OPERATION)
  | (s2, Throw e) => (s2, Throw e)
  end.

End SparseSet.

(** ** EntityStore: generational slot allocator *)

Module EntityStore.
Import EntityHandle.

Definition DEFAULT_ENTITY_VALUE : jsval := JNumber 0.
Definition IDX_SENTINEL : Z := -1.

Record EntityStoreOptions : Type := mkOptions {
  opt_handler : option EntityHandle;
  opt_capacity : option Z;
  opt_resizable : option bool;
  opt_isTyped : option bool;
}.

Definition DefaultEntityStoreOptions : EntityStoreOptions :=
  mkOptions (Some EntityHandleMedium) (Some 1000) (Some true) (Some true).

Record EntityStore : Type := mkStore {
  entities : list jsval;
  entityHandler : EntityHandle;
  append_index : Z;
  free_slot : Z;
  INVALID_IDX : jsval;
  cap : Z;
  isTypedArray : bool;
  resizable : bool;
}.

Definition with_entities (st : EntityStore) (l : list jsval) : EntityStore :=
  mkStore l (entityHandler st) (append_index st) (free_slot st) (INVALID_IDX st)
          (cap st) (isTypedArray st) (resizable st).
Definition with_append_index (st : EntityStore) (a : Z) : EntityStore :=
  mkStore (entities st) (entityHandler st) a (free_slot st) (INVALID_IDX st)
          (cap st) (isTypedArray st) (resizable st).
Definition with_free_slot (st : EntityStore) (f : Z) : EntityStore :=
  mkStore (entities st) (entityHandler st) (append_index st) f (INVALID_IDX st)
          (cap st) (isTypedArray st) (resizable st).
Definition with_cap (st : EntityStore) (c : Z) : EntityStore :=
  mkStore (entities st) (entityHandler st) (append_index st) (free_slot st)
          (INVALID_IDX st) c (isTypedArray st) (resizable st).

(** The zero of a freshly allocated typed array. *)
Definition typed_zero (h : EntityHandle) : jsval :=
  match type h with
  | Number => JNumber 0
  | BigInt => JBigInt 0
  end.

Definition invalid_idx (h : EntityHandle) : jsval :=
  match type h with
  | Number => JNumber (shl32 1 (indexBits h) - 1)
  | BigInt => JBigInt (2 ^ indexBits h - 1)
  end.

Definition new `{Engine} (config : EntityStoreOptions) : result EntityStore :=
  match opt_handler config with
  | None => Throw HandlerMissing
  | Some h =>
    let capacity :=
      match opt_capacity config with
      | Some c => if c <=? 0 then 1000 else c
      | None => 1000
      end in
    let resizable := default true (opt_resizable config) in
    let isTyped := default true (opt_isTyped config) in
    if negb (alloc_ok isTyped capacity) then Throw RangeError
    else
      Ok (mkStore
            (replicate (Z.to_nat capacity)
               (if isTyped then typed_zero h else DEFAULT_ENTITY_VALUE))
            h 0 (-1) (invalid_idx h) capacity isTyped resizable)
  end.

Definition read (st : EntityStore) (i : Z) : jsval :=
  arr_get JUndefined (entities st) i.

(** [this.#entities[i] = v] for the three kinds of backing array. *)
Definition write (st : EntityStore) (i : Z) (v : jsval) : result (list jsval) :=
  if isTypedArray st then
    match type (entityHandler st) with
    | Number => bind (to_uint32_cell v) (fun c => Ok (typed_set (entities st) i c))
    | BigInt => bind (to_biguint64_cell v) (fun c => Ok (typed_set (entities st) i c))
    end
  else Ok (arr_set JUndefined (entities st) i v).

(** Doubling of the backing array when [append_index] reaches [cap - 1]. *)
Definition grow `{Engine} (st : EntityStore) : result EntityStore :=
  let n := cap st * 2 in
  if negb (alloc_ok (isTypedArray st) n) then Throw RangeError
  else if isTypedArray st then
    if n <? Z.of_nat (Datatypes.length (entities st)) then Throw RangeError
    else
      Ok (with_cap
            (with_entities st
               (entities st ++
                replicate (Z.to_nat n - Datatypes.length (entities st))
                          (typed_zero (entityHandler st))))
            n)
  else
    Ok (with_cap (with_entities st (arr_resize (INVALID_IDX st) (entities st) n)) n).

(** [append_index += 1] is exact: [append_index] stays below the length
    of the backing array. *)
Definition create `{Engine} (st : EntityStore) : EntityStore * result jsval :=
  if negb (free_slot st =? IDX_SENTINEL) then
    let ent := read st (free_slot st) in
    match version (entityHandler st) ent, index (entityHandler st) ent with
    | Ok version, Ok next_free_idx =>
      let newEnt := make (entityHandler st) (free_slot st) version in
      match write st (free_slot st) newEnt with
      | Throw e => (st, Throw e)
      | Ok l => (with_free_slot (with_entities st l) next_free_idx, Ok newEnt)
      end
    | Throw e, _ | _, Throw e => (st, Throw e)
    end
  else if strict_eq (JNumber (append_index st)) (INVALID_IDX st)
  then (st, Throw OutOfHandles)
  else
    let grown : result EntityStore :=
      if append_index st =? cap st - 1 then
        if negb (resizable st) then Throw CapacityExceeded else grow st
      else Ok st in
    match grown with
    | Throw e => (st, Throw e)
    | Ok st1 =>
      let entity := make (entityHandler st1) (append_index st1) 0 in
      match write st1 (append_index st1) entity with
      | Throw e => (st1, Throw e)
      | Ok l =>
        (with_append_index (with_entities st1 l) (append_index st1 + 1), Ok entity)
      end
    end.

Definition isAlive (st : EntityStore) (entity : jsval) : result bool :=
  bind (index (entityHandler st) entity) (fun index =>
    Ok ((index <? append_index st) && strict_eq (read st index) entity)).

Definition remove (st : EntityStore) (entity : jsval) : EntityStore * result unit :=
  match isAlive st entity with
  | Throw e => (st, Throw e)
  | Ok false => (st, Throw InvalidHandle)
  | Ok true =>
    match index (entityHandler st) entity, version (entityHandler st) entity with
    | Ok index, Ok version =>
      match write st index (make (entityHandler st) (free_slot st) (num_add version 1)) with
      | Throw e => (st, Throw e)
      | Ok l => (with_free_slot (with_entities st l) index, Ok tt)
      end
    | Throw e, _ | _, Throw e => (st, Throw e)
    end
  end.

(** The object returned by [Iterator()]: its [index] field; [self] is the
    store, read at every call. *)
Module Iterator.

(** The loop of [next()], entered at slot [i] with [n] slots left below
    [append_index]; [this.index] is advanced before the slot is read. *)
Fixpoint next_loop (st : EntityStore) (i : Z) (n : nat) : Z * result (option jsval) :=
  match n with
  | O => (i, Ok None)
  | S n' =>
    let ent := read st i in
    match isAlive st ent with
    | Throw e => (i + 1, Throw e)
    | Ok true => (i + 1, Ok (Some ent))
    | Ok false => next_loop st (i + 1) n'
    end
  end.

(** [next()]: the new [index] and the entity returned, [None] for
    [null]. *)
Definition next (st : EntityStore) (index : Z) : Z * result (option jsval) :=
  if append_index st <=? index then (index, Ok None)
  else next_loop st index (Z.to_nat (append_index st - index)).

Definition reset (index : Z) : Z := 0.

End Iterator.

End EntityStore.

(** ** ComponentStore: a sparse set with a parallel payload array *)

Module ComponentStore.
Import EntityHandle.

Definition FAILED_OPERATION : Z := -1.
Definition SUCCESS_OPERATION : Z := 0.
Definition ComponentStandard : Z := 1.
Definition ComponentEmpty : Z := 2.

(** What [Object.assign(Object.create(Object.getPrototypeOf(comp)),
    structuredClone(comp))] evaluates to on a payload object of a given
    type: [structuredClone] raises a DataCloneError on a payload that holds
    a function or another value that cannot be cloned; otherwise the result
    is the copy, which carries the own data that the algorithm copies. *)
Class Cloneable (Component : Type) : Type :=
  structuredClone : Component -> result Component.

Section Store.
(** [Component] is the type of payload objects and [Arg] the type of
    constructor arguments. *)
Context {Component Arg : Type} `{!Cloneable Component} `{!Engine}.

(** A cell of the payload array: a hole of [new Array(n)] or an
    out-of-range read, [null] ([DEFAULT_COMP_VAL]), or a payload. *)
Inductive cell : Type :=
| CUndefined
| CNull
| CObj (c : Component).

Definition DEFAULT_COMP_VAL : cell := CNull.

Record ComponentStore : Type := mkStore {
  set : SparseSet.SparseSet;
  components : list cell;
  compConstructor : list Arg -> Component;
  isEmptyComp : bool;
}.

Definition with_set (cs : ComponentStore) (s : SparseSet.SparseSet) : ComponentStore :=
  mkStore s (components cs) (compConstructor cs) (isEmptyComp cs).
Definition with_components (cs : ComponentStore) (l : list cell) : ComponentStore :=
  mkStore (set cs) l (compConstructor cs) (isEmptyComp cs).

(** [new ComponentStore(type, Ctype, config)]; [type] is [None] when the
    constructor function is missing. *)
Definition new (type : option (list Arg -> Component)) (Ctype : Z)
           (config : SparseSet.SparseSetOptions) : result ComponentStore :=
  match type with
  | None => Throw TypeRequired
  | Some ctor =>
    let isEmpty := Ctype =? ComponentEmpty in
    let comps : result (list cell) :=
      if isEmpty then Ok []
      else
        match SparseSet.opt_poolSize config with
        | None => Ok [CUndefined]
        | Some pool =>
          if negb (valid_length pool) then Throw RangeError
          else Ok (replicate (Z.to_nat pool) CUndefined)
        end in
    bind comps (fun l =>
      bind (SparseSet.new config) (fun s => Ok (mkStore s l ctor isEmpty)))
  end.

Definition comp_length (cs : ComponentStore) : Z :=
  Z.of_nat (Datatypes.length (components cs)).

Definition reserve (cs : ComponentStore) (capacity : Z)
  : ComponentStore * result Z :=
  if capacity <=? SparseSet.capacity (set cs) then (cs, Ok FAILED_OPERATION)
  else
    match SparseSet.resize (set cs) capacity with
    | (s1, Throw e) => (with_set cs s1, Throw e)
    | (s1, Ok _) =>
      let cs1 := with_set cs s1 in
      if negb (isEmptyComp cs1) then
        match set_length DEFAULT_COMP_VAL (components cs1) capacity with
        | Throw e => (cs1, Throw e)
        | Ok l => (with_components cs1 l, Ok SUCCESS_OPERATION)
        end
      else (cs1, Ok SUCCESS_OPERATION)
    end.

Definition add (cs : ComponentStore) (entityID : jsval) (args : list Arg)
           (replace resize : bool) : ComponentStore * result Z :=
  match SparseSet.contains (set cs) entityID with
  | Throw e => (cs, Throw e)
  | Ok existed =>
    match SparseSet.add (set cs) entityID resize with
    | (s1, Throw e) => (with_set cs s1, Throw e)
    | (s1, Ok idx) =>
      let cs1 := with_set cs s1 in
      if idx =? FAILED_OPERATION then (cs1, Ok FAILED_OPERATION)
      else if isEmptyComp cs1 then (cs1, Ok SUCCESS_OPERATION)
      else
        let grown : ComponentStore * option (result Z) :=
          if comp_length cs1 <=? idx then
            if negb resize then
              match SparseSet.remove (set cs1) entityID with
              | (s2, Throw e) => (with_set cs1 s2, Some (Throw e))
              | (s2, Ok _) => (with_set cs1 s2, Some (Ok FAILED_OPERATION))
              end
            else
              let oldLen := comp_length cs1 in
              let newCap := Z.max (oldLen * 2) (idx + 1) in
              match set_length DEFAULT_COMP_VAL (components cs1) newCap with
              | Throw e => (cs1, Some (Throw e))
              | Ok l => (with_components cs1 l, None)
              end
          else (cs1, None) in
        match grown with
        | (cs2, Some r) => (cs2, r)
        | (cs2, None) =>
          if existed && negb replace then (cs2, Ok SUCCESS_OPERATION)
          else
            (with_components cs2
               (arr_set CUndefined (components cs2) idx
                  (CObj (compConstructor cs2 args))),
             Ok SUCCESS_OPERATION)
        end
    end
  end.

Definition remove (cs : ComponentStore) (entityID : jsval)
  : ComponentStore * result Z :=
  match SparseSet.index (set cs) entityID with
  | Throw e => (cs, Throw e)
  | Ok idx =>
    if idx =? FAILED_OPERATION then (cs, Ok FAILED_OPERATION)
    else
      let cs1 :=
        if negb (isEmptyComp cs) then
          let lastIdx := SparseSet.len (set cs) - 1 in
          let comps1 :=
            if negb (lastIdx =? idx)
            then arr_set CUndefined (components cs) idx
                   (arr_get CUndefined (components cs) lastIdx)
            else components cs in
          with_components cs (arr_set CUndefined comps1 lastIdx CNull)
        else cs in
      let '(s1, r) := SparseSet.remove (set cs1) entityID in
      (with_set cs1 s1, r)
  end.

Definition contains (cs : ComponentStore) (entityID : jsval) : result bool :=
  SparseSet.contains (set cs) entityID.

Definition len (cs : ComponentStore) : Z := SparseSet.len (set cs).

Definition raw (cs : ComponentStore) : result (list cell * Z) :=
  if isEmptyComp cs then Throw EmptyComponent
  else Ok (components cs, SparseSet.len (set cs)).

Definition get (cs : ComponentStore) (entityID : jsval) : result cell :=
  if isEmptyComp cs then Throw EmptyComponent
  else
    bind (SparseSet.index (set cs) entityID) (fun idx =>
      if idx =? FAILED_OPERATION then Throw ComponentDoesNotExist
      else Ok (arr_get CUndefined (components cs) idx)).

(** The copy made by [getConst] and [tryGetConst]:
    [Object.getPrototypeOf] raises on [null] and [undefined], before
    [structuredClone] is called on a payload. *)
Definition clone (c : cell) : result cell :=
  match c with
  | CObj p => bind (structuredClone p) (fun q => Ok (CObj q))
  | CUndefined | CNull => Throw TypeError
  end.

Definition getConst (cs : ComponentStore) (entityID : jsval) : result cell :=
  if isEmptyComp cs then Throw EmptyComponent
  else
    bind (SparseSet.index (set cs) entityID) (fun idx =>
      if idx =? FAILED_OPERATION then Throw ComponentDoesNotExist
      else clone (arr_get CUndefined (components cs) idx)).

Definition tryGet (cs : ComponentStore) (entityID : jsval) : result cell :=
  if isEmptyComp cs then Throw EmptyComponent
  else
    bind (SparseSet.index (set cs) entityID) (fun idx =>
      if idx =? FAILED_OPERATION then Ok CNull
      else Ok (arr_get CUndefined (components cs) idx)).

Definition tryGetConst (cs : ComponentStore) (entityID : jsval) : result cell :=
  if isEmptyComp cs then Throw EmptyComponent
  else
    bind (SparseSet.index (set cs) entityID) (fun idx =>
      if idx =? FAILED_OPERATION then Ok CNull
      else clone (arr_get CUndefined (components cs) idx)).

Definition data (cs : ComponentStore) : list jsval := SparseSet.data (set cs).

Definition swap (cs : ComponentStore) (ent1 ent2 : jsval) (insatancesOnly : bool)
  : ComponentStore * result Z :=
  if strict_eq ent1 ent2 then (cs, Ok FAILED_OPERATION)
  else
    match SparseSet.index (set cs) ent1, SparseSet.index (set cs) ent2 with
    | Ok idx1, Ok idx2 =>
      if (idx1 =? FAILED_OPERATION) || (idx2 =? FAILED_OPERATION)
      then (cs, Ok FAILED_OPERATION)
      else
        let cs1 :=
          if negb (isEmptyComp cs) then
            let temp := arr_get CUndefined (components cs) idx1 in
            let comps1 := arr_set CUndefined (components cs) idx1
                            (arr_get CUndefined (components cs) idx2) in
            with_components cs (arr_set CUndefined comps1 idx2 temp)
          else cs in
        if negb insatancesOnly then
          match SparseSet.swap (set cs1) ent1 ent2 with
          | (s1, Throw e) => (with_set cs1 s1, Throw e)
          | (s1, Ok status) =>
            if status =? FAILED_OPERATION
            then (with_set cs1 s1, Ok FAILED_OPERATION)
            else (with_set cs1 s1, Ok SUCCESS_OPERATION)
          end
        else (cs1, Ok SUCCESS_OPERATION)
    | Throw e, _ | _, Throw e => (cs, Throw e)
    end.

Definition sortEmpty (cs : ComponentStore) (comparatorFunc : jsval -> jsval -> Z)
  : ComponentStore * result Z :=
  if negb (isEmptyComp cs) then (cs, Throw OnlyForEmpty)
  else
    let '(s1, r) := SparseSet.sort (set cs) comparatorFunc in
    (with_set cs s1, r).

(** One iteration of the inner loop body of [sortBasedComponent]:
    exchange the payloads at [j] and [j - 1], then
    [this.#set.swap(denseArr[j], denseArr[j - 1])]. *)
Definition sort_swap (cs : ComponentStore) (j : Z) : ComponentStore * result unit :=
  let temp := arr_get CUndefined (components cs) j in
  let comps1 := arr_set CUndefined (components cs) j
                  (arr_get CUndefined (components cs) (j - 1)) in
  let cs1 := with_components cs (arr_set CUndefined comps1 (j - 1) temp) in
  match SparseSet.swap (set cs1)
          (SparseSet.dense_read (set cs1) j)
          (SparseSet.dense_read (set cs1) (j - 1)) with
  | (s1, Throw e) => (with_set cs1 s1, Throw e)
  | (s1, Ok _) => (with_set cs1 s1, Ok tt)
  end.

(** The inner loop, [for (j = ...; j > 0 && cmp(c[j], c[j-1]) < 0; j--)],
    entered at [j]. *)
Fixpoint sort_inner (comparatorFunc : cell -> cell -> Z) (cs : ComponentStore)
         (j : nat) : ComponentStore * result unit :=
  match j with
  | O => (cs, Ok tt)
  | S j' =>
    if comparatorFunc (arr_get CUndefined (components cs) (Z.of_nat j))
                      (arr_get CUndefined (components cs) (Z.of_nat j - 1)) <? 0
    then
      match sort_swap cs (Z.of_nat j) with
      | (cs1, Throw e) => (cs1, Throw e)
      | (cs1, Ok _) => sort_inner comparatorFunc cs1 j'
      end
    else (cs, Ok tt)
  end.

(** The outer loop, [for (i = ...; i < this.len(); i++)], entered at [i]
    with at most [fuel] iterations left. *)
Fixpoint sort_outer (comparatorFunc : cell -> cell -> Z) (cs : ComponentStore)
         (i : nat) (fuel : nat) : ComponentStore * result unit :=
  match fuel with
  | O => (cs, Ok tt)
  | S fuel' =>
    if Z.of_nat i <? len cs then
      match sort_inner comparatorFunc cs i with
      | (cs1, Throw e) => (cs1, Throw e)
      | (cs1, Ok _) => sort_outer comparatorFunc cs1 (S i) fuel'
      end
    else (cs, Ok tt)
  end.

Definition sortBasedComponent (cs : ComponentStore)
           (comparatorFunc : cell -> cell -> Z) : ComponentStore * result Z :=
  if isEmptyComp cs then (cs, Throw OnlyForEmpty)
  else if len cs <=? 1 then (cs, Ok FAILED_OPERATION)
  else
    match sort_outer comparatorFunc cs 1 (Z.to_nat (len cs)) with
    | (cs1, Throw e) => (cs1, Throw e)
    | (cs1, Ok _) => (cs1, Ok SUCCESS_OPERATION)
    end.

End Store.

Arguments cell : clear implicits.
Arguments ComponentStore : clear implicits.

End ComponentStore.

(** ** Registry: one entity store and a store per component type *)

Module Registry.
Import EntityHandle.

Definition SENTINEL : Z := -1.

Record ComponentOptions : Type := mkComponentOptions {
  opt_typedArray : option bool;
  opt_poolSize : option Z;
  opt_pageSize : option Z;
  opt_replace : option bool;
  opt_resize : option bool;
}.

Record RegistryOptions : Type := mkRegistryOptions {
  entityOptions : option EntityStore.EntityStoreOptions;
  componentOptions : option ComponentOptions;
}.

Definition DefaultComponentOptions : ComponentOptions :=
  mkComponentOptions
    (SparseSet.opt_typedArray SparseSet.DefaultSparseSetOptions)
    (SparseSet.opt_poolSize SparseSet.DefaultSparseSetOptions)
    (SparseSet.opt_pageSize SparseSet.DefaultSparseSetOptions)
    (Some true) (Some true).

Definition DefaultRegistryOptions : RegistryOptions :=
  mkRegistryOptions (Some EntityStore.DefaultEntityStoreOptions)
                    (Some DefaultComponentOptions).

(** [getCompConfig]: the sparse-set options of a component store. *)
Definition getCompConfig (entityOptions : EntityStore.EntityStoreOptions)
           (componentOptions : ComponentOptions) : SparseSet.SparseSetOptions :=
  SparseSet.mkOptions (opt_typedArray componentOptions)
                      (opt_poolSize componentOptions)
                      (opt_pageSize componentOptions)
                      (EntityStore.opt_handler entityOptions).

Section Registry.
Context {Component Arg : Type} `{!ComponentStore.Cloneable Component} `{!Engine}.

#[local] Abbreviation Store := (ComponentStore.ComponentStore Component Arg).
#[local] Abbreviation cell := (ComponentStore.cell Component).

(** A component type: the constructor function, keyed in the [Map] by
    its identity [ctor_id]. *)
Record ComponentConstructor : Type := mkConstructor {
  ctor_id : nat;
  ctor_new : list Arg -> Component;
}.

(** [components] is the [Map] in insertion order. *)
Record Registry : Type := mkRegistry {
  entities : EntityStore.EntityStore;
  components : list (nat * Store);
  config_entityOptions : EntityStore.EntityStoreOptions;
  config_componentOptions : ComponentOptions;
}.

Definition with_entities (r : Registry) (e : EntityStore.EntityStore) : Registry :=
  mkRegistry e (components r) (config_entityOptions r) (config_componentOptions r).
Definition with_components (r : Registry) (l : list (nat * Store)) : Registry :=
  mkRegistry (entities r) l (config_entityOptions r) (config_componentOptions r).

Definition new (config : RegistryOptions) : result Registry :=
  match entityOptions config, componentOptions config with
  | Some eo, Some co =>
    bind (EntityStore.new eo) (fun es => Ok (mkRegistry es [] eo co))
  | _, _ => Throw IncorrectConfig
  end.

(** [Map.prototype.get] and [Map.prototype.set]. *)
Fixpoint map_get (l : list (nat * Store)) (k : nat) : option Store :=
  match l with
  | [] => None
  | (k', v) :: l' => if Nat.eqb k' k then Some v else map_get l' k
  end.

Fixpoint map_set (l : list (nat * Store)) (k : nat) (v : Store)
  : list (nat * Store) :=
  match l with
  | [] => [(k, v)]
  | (k', v') :: l' =>
    if Nat.eqb k' k then (k', v) :: l' else (k', v') :: map_set l' k v
  end.

Definition prepare (r : Registry) (comp : ComponentConstructor) (CType : Z)
           (config : ComponentOptions) : Registry * result Store :=
  match map_get (components r) (ctor_id comp) with
  | Some compStore => (r, Ok compStore)
  | None =>
    match ComponentStore.new (Some (ctor_new comp)) CType
            (getCompConfig (config_entityOptions r) config) with
    | Throw e => (r, Throw e)
    | Ok compStore =>
      (with_components r (map_set (components r) (ctor_id comp) compStore),
       Ok compStore)
    end
  end.

Definition len (r : Registry) (comp : ComponentConstructor) : Z :=
  match map_get (components r) (ctor_id comp) with
  | Some compStore => ComponentStore.len compStore
  | None => SENTINEL
  end.

Definition reserve (r : Registry) (comp : ComponentConstructor) (cap : Z)
  : Registry * result Z :=
  match map_get (components r) (ctor_id comp) with
  | Some compStore =>
    let '(cs, status) := ComponentStore.reserve compStore cap in
    (with_components r (map_set (components r) (ctor_id comp) cs), status)
  | None => (r, Ok SENTINEL)
  end.

Definition raw (r : Registry) (comp : ComponentConstructor)
  : result (list cell * Z) :=
  match map_get (components r) (ctor_id comp) with
  | Some compStore => ComponentStore.raw compStore
  | None => Throw StoreDoesNotExist
  end.

Definition data (r : Registry) (comp : ComponentConstructor) : result (list jsval) :=
  match map_get (components r) (ctor_id comp) with
  | Some compStore => Ok (ComponentStore.data compStore)
  | None => Throw StoreDoesNotExist
  end.

Definition valid (r : Registry) (entity : jsval) : result bool :=
  EntityStore.isAlive (entities r) entity.

Definition create (r : Registry) : Registry * result jsval :=
  let '(es, res) := EntityStore.create (entities r) in
  (with_entities r es, res).

(** The loop of [removeAll] over the stores that are left to visit;
    the stores already visited are returned updated. *)
Fixpoint removeAll_loop (l : list (nat * Store)) (entity : jsval)
  : list (nat * Store) * result unit :=
  match l with
  | [] => ([], Ok tt)
  | (k, compStore) :: l' =>
    match ComponentStore.contains compStore entity with
    | Throw e => (l, Throw e)
    | Ok false =>
      let '(l1, res) := removeAll_loop l' entity in
      ((k, compStore) :: l1, res)
    | Ok true =>
      match ComponentStore.remove compStore entity with
      | (cs, Throw e) => ((k, cs) :: l', Throw e)
      | (cs, Ok _) =>
        let '(l1, res) := removeAll_loop l' entity in
        ((k, cs) :: l1, res)
      end
    end
  end.

Definition removeAll (r : Registry) (entity : jsval) : Registry * result unit :=
  match EntityStore.isAlive (entities r) entity with
  | Throw e => (r, Throw e)
  | Ok false => (r, Throw EntityDoesNotExist)
  | Ok true =>
    let '(l, res) := removeAll_loop (components r) entity in
    (with_components r l, res)
  end.

Definition destroy (r : Registry) (entity : jsval) : Registry * result unit :=
  match valid r entity with
  | Throw e => (r, Throw e)
  | Ok false => (r, Ok tt)
  | Ok true =>
    match removeAll r entity with
    | (r1, Throw e) => (r1, Throw e)
    | (r1, Ok _) =>
      let '(es, res) := EntityStore.remove (entities r1) entity in
      (with_entities r1 es, res)
    end
  end.

Definition add (r : Registry) (entity : jsval) (comp : ComponentConstructor)
           (CType : Z) (args : list Arg) (config : ComponentOptions)
  : Registry * result Z :=
  match EntityStore.isAlive (entities r) entity with
  | Throw e => (r, Throw e)
  | Ok false => (r, Throw EntityDoesNotExist)
  | Ok true =>
    match prepare r comp CType config with
    | (r1, Throw e) => (r1, Throw e)
    | (r1, Ok compStore) =>
      let '(cs, res) :=
        ComponentStore.add compStore entity args
          (default true (opt_replace config))
          (default true (opt_resize config)) in
      (with_components r1 (map_set (components r1) (ctor_id comp) cs), res)
    end
  end.

(** An entry of the list given to [addComps]: [None] stands for an
    item that is not an array; the components of a tuple that are
    left out take their defaults. *)
Definition comp_entry : Type :=
  option (ComponentConstructor * option Z * option (list Arg) * option ComponentOptions).

Fixpoint addComps_loop (r : Registry) (entity : jsval) (comps : list comp_entry)
  : Registry * result unit :=
  match comps with
  | [] => (r, Ok tt)
  | None :: _ => (r, Throw InvalidComponentEntry)
  | Some (comp, CType, args, config) :: comps' =>
    match add r entity comp
            (default ComponentStore.ComponentStandard CType)
            (default [] args)
            (default DefaultComponentOptions config) with
    | (r1, Throw e) => (r1, Throw e)
    | (r1, Ok _) => addComps_loop r1 entity comps'
    end
  end.

Definition addComps (r : Registry) (entity : jsval) (comps : list comp_entry)
  : Registry * result unit :=
  match EntityStore.isAlive (entities r) entity with
  | Throw e => (r, Throw e)
  | Ok false => (r, Throw EntityDoesNotExist)
  | Ok true => addComps_loop r entity comps
  end.

(** The checks shared by the routers: a live entity and a registered
    store. *)
Definition checked {A} (r : Registry) (entity : jsval) (comp : ComponentConstructor)
           (k : Store -> Registry * result A) : Registry * result A :=
  match EntityStore.isAlive (entities r) entity with
  | Throw e => (r, Throw e)
  | Ok false => (r, Throw EntityDoesNotExist)
  | Ok true =>
    match map_get (components r) (ctor_id comp) with
    | None => (r, Throw NoSuchComponent)
    | Some compStore => k compStore
    end
  end.

Definition update (r : Registry) (comp : ComponentConstructor) {A}
           (p : Store * result A) : Registry * result A :=
  (with_components r (map_set (components r) (ctor_id comp) (fst p)), snd p).

Definition replace (r : Registry) (entity : jsval) (comp : ComponentConstructor)
           (args : list Arg) : Registry * result Z :=
  checked r entity comp (fun compStore =>
    match ComponentStore.contains compStore entity with
    | Throw e => (r, Throw e)
    | Ok false => (r, Throw NoSuchEntityForComp)
    | Ok true => update r comp (ComponentStore.add compStore entity args true true)
    end).

Definition fetchReplace (r : Registry) (entity : jsval) (comp : ComponentConstructor)
           (args : list Arg) : Registry * result cell :=
  checked r entity comp (fun compStore =>
    match ComponentStore.contains compStore entity with
    | Throw e => (r, Throw e)
    | Ok false => (r, Throw NoSuchEntityForComp)
    | Ok true =>
      match ComponentStore.get compStore entity with
      | Throw e => (r, Throw e)
      | Ok oldComp =>
        let '(cs, _) := ComponentStore.add compStore entity args true true in
        (with_components r (map_set (components r) (ctor_id comp) cs), Ok oldComp)
      end
    end).

Definition remove (r : Registry) (entity : jsval) (comp : ComponentConstructor)
  : Registry * result Z :=
  checked r entity comp (fun compStore =>
    update r comp (ComponentStore.remove compStore entity)).

Definition removeIfExist (r : Registry) (entity : jsval) (comp : ComponentConstructor)
  : Registry * result Z :=
  match EntityStore.isAlive (entities r) entity with
  | Throw e => (r, Throw e)
  | Ok false => (r, Throw EntityDoesNotExist)
  | Ok true =>
    match map_get (components r) (ctor_id comp) with
    | None => (r, Ok SENTINEL)
    | Some compStore =>
      match ComponentStore.contains compStore entity with
      | Throw e => (r, Throw e)
      | Ok false => (r, Ok SENTINEL)
      | Ok true => update r comp (ComponentStore.remove compStore entity)
      end
    end
  end.

Definition has (r : Registry) (entity : jsval) (comp : ComponentConstructor)
  : result bool :=
  snd (checked r entity comp (fun compStore =>
         (r, ComponentStore.contains compStore entity))).

Definition get (r : Registry) (entity : jsval) (comp : ComponentConstructor)
  : result cell :=
  snd (checked r entity comp (fun compStore =>
         (r, ComponentStore.get compStore entity))).

Definition getConst (r : Registry) (entity : jsval) (comp : ComponentConstructor)
  : result cell :=
  snd (checked r entity comp (fun compStore =>
         (r, ComponentStore.getConst compStore entity))).

Definition tryGet (r : Registry) (entity : jsval) (comp : ComponentConstructor)
  : result cell :=
  match map_get (components r) (ctor_id comp) with
  | None => Throw NoSuchComponent
  | Some compStore => ComponentStore.tryGet compStore entity
  end.

Definition tryGetConst (r : Registry) (entity : jsval) (comp : ComponentConstructor)
  : result cell :=
  match map_get (components r) (ctor_id comp) with
  | None => Throw NoSuchComponent
  | Some compStore => ComponentStore.tryGetConst compStore entity
  end.

Definition sort (r : Registry) (comp : ComponentConstructor)
           (comparatorFunc : cell -> cell -> Z) : Registry * result Z :=
  match map_get (components r) (ctor_id comp) with
  | None => (r, Throw NoSuchComponent)
  | Some compStore =>
    update r comp (ComponentStore.sortBasedComponent compStore comparatorFunc)
  end.

End Registry.

Arguments Registry : clear implicits.
Arguments ComponentConstructor : clear implicits.

End Registry.

(** ** Invariants of the data model *)

(** A codec that [EntityHandleFactory] accepts. *)
Definition valid_handle (h : EntityHandle.EntityHandle) : Prop :=
  0 < EntityHandle.indexBits h /\ 0 < EntityHandle.versionBits h /\
  EntityHandle.totalBits h <= 64.

(** A codec whose two fields are decoded without rounding. *)
Definition exact_fields (h : EntityHandle.EntityHandle) : Prop :=
  EntityHandle.indexBits h <= 53 /\ EntityHandle.versionBits h <= 53.

(** What a write of the handle [v] leaves in the entity array. *)
Definition stored_handle (st : EntityStore.EntityStore) (v : jsval) : jsval :=
  if EntityStore.isTypedArray st then
    match v with
    | JNumber n => JNumber (ToUint32 n)
    | JBigInt n => JBigInt (n mod 2 ^ 64)
    | _ => v
    end
  else v.

(** The cell of an entity, looked up the way [contains], [index] and
    [remove] do. *)
Definition cell_of (s : SparseSet.SparseSet) (idx : Z) : option Z :=
  match SparseSet.sparse s !! (idx / SparseSet.pageSize s) with
  | Some page => page !! and32 idx (SparseSet.pageSize s - 1)
  | None => None
  end.

(** Reading a cell after a write. *)
Definition lookup2 (sp : gmap Z (gmap Z Z)) (pi po : Z) : option Z :=
  match sp !! pi with
  | Some page => page !! po
  | None => None
  end.

(** The data-model invariants of a sparse set: a power-of-two page size,
    a live prefix inside the dense buffer, every live dense entry pointed
    to by its own sparse cell, and every sparse cell that holds a live
    dense index pointing to an entry that maps back to it. *)
Definition page_ok (s : SparseSet.SparseSet) : Prop :=
  SparseSet.pageSize s = 2 ^ Z.log2 (SparseSet.pageSize s) /\
  7 <= Z.log2 (SparseSet.pageSize s) <= 30.

(** A value that a write into the dense array stores unchanged. *)
Definition stored (s : SparseSet.SparseSet) (v : jsval) : Prop :=
  SparseSet.typedArray s = true -> to_uint32_cell v = Ok v.

Definition dense_ok (s : SparseSet.SparseSet) (i : Z) : Prop :=
  match EntityHandle.index (SparseSet.entityHandler s) (SparseSet.dense_read s i) with
  | Ok idx => cell_of s idx = Some i
  | Throw _ => False
  end /\ stored s (SparseSet.dense_read s i).

Definition cell_ok (s : SparseSet.SparseSet) (pi po d : Z) : Prop :=
  -1 <= d /\
  (0 <= d < SparseSet.length s ->
   match EntityHandle.index (SparseSet.entityHandler s) (SparseSet.dense_read s d) with
   | Ok idx => idx / SparseSet.pageSize s = pi /\ and32 idx (SparseSet.pageSize s - 1) = po
   | Throw _ => False
   end).

Definition positions (n : Z) : list Z := Z.of_nat <$> seq 0 (Z.to_nat n).

Definition wf (s : SparseSet.SparseSet) : Prop :=
  page_ok s /\
  0 <= SparseSet.length s <= SparseSet.capacity s /\
  Forall (dense_ok s) (positions (SparseSet.length s)) /\
  map_Forall (fun pi page => map_Forall (fun po d => cell_ok s pi po d) page)
             (SparseSet.sparse s).

#[global] Instance dense_ok_dec s i : Decision (dense_ok s i).
Proof.
  unfold dense_ok, stored.
  destruct (EntityHandle.index _ _); apply _.
Defined.

#[global] Instance cell_ok_dec s pi po d : Decision (cell_ok s pi po d).
Proof.
  unfold cell_ok.
  destruct (EntityHandle.index _ _); apply _.
Defined.

#[global] Instance wf_dec s : Decision (wf s).
Proof. unfold wf, page_ok. apply _. Defined.

(** No sparse cell holds a dense index at or beyond [length]: the state
    of a set in which no cell was left behind by [reset()]. *)
Definition tight (s : SparseSet.SparseSet) : Prop :=
  map_Forall (fun pi page => map_Forall (fun po d => d < SparseSet.length s) page)
             (SparseSet.sparse s).

#[global] Instance tight_dec s : Decision (tight s).
Proof. unfold tight. apply _. Defined.


(** A component store whose sparse set satisfies the invariants and, for
    the standard kind, whose payload array covers the live prefix. *)
Definition store_wf {C A : Type} (cs : ComponentStore.ComponentStore C A) : Prop :=
  wf (ComponentStore.set cs) /\
  (ComponentStore.isEmptyComp cs = false ->
   SparseSet.length (ComponentStore.set cs) <= ComponentStore.comp_length cs).

#[global] Instance store_wf_dec {C A} (cs : ComponentStore.ComponentStore C A) :
  Decision (store_wf cs).
Proof. unfold store_wf. apply _. Defined.

(** The live prefix of a store as (entity, payload) pairs, and its
    payloads alone. *)
Definition pairs {C A : Type} (cs : ComponentStore.ComponentStore C A)
  : list (jsval * ComponentStore.cell C) :=
  (fun i => (SparseSet.dense_read (ComponentStore.set cs) i,
             arr_get ComponentStore.CUndefined (ComponentStore.components cs) i))
    <$> positions (ComponentStore.len cs).

Definition payloads {C A : Type} (cs : ComponentStore.ComponentStore C A)
  : list (ComponentStore.cell C) :=
  snd <$> pairs cs.

(** [b] does not sort before [a] under the comparator. *)
Definition not_before {X : Type} (cmp : X -> X -> Z) (a b : X) : Prop :=
  0 <= cmp b a.

(** A comparator that is consistent on the elements of [l]: whenever [a]
    sorts before [b], [b] does not sort before [a], and [not_before] is
    transitive. *)
Definition consistent_on {X : Type} (cmp : X -> X -> Z) (l : list X) : Prop :=
  Forall (fun a =>
    Forall (fun b =>
      (cmp a b < 0 -> 0 <= cmp b a) /\
      Forall (fun c => 0 <= cmp b a -> 0 <= cmp c b -> 0 <= cmp c a) l) l) l.

#[global] Instance consistent_on_dec {X} (cmp : X -> X -> Z) l :
  Decision (consistent_on cmp l).
Proof. unfold consistent_on. apply _. Defined.

(** One run of the inner loop of the insertion sort, on the reversed
    sorted prefix [rl]: [x] moves left past every element it sorts
    before. *)
Fixpoint insert_back {X : Type} (cmp : X -> X -> Z) (x : X) (rl : list X) : list X :=
  match rl with
  | [] => [x]
  | y :: rl' => if cmp x y <? 0 then y :: insert_back cmp x rl' else x :: y :: rl'
  end.

(** The outer loop: the elements of [rest] are inserted one after the
    other. *)
Fixpoint insert_all {X : Type} (cmp : X -> X -> Z) (rl rest : list X) : list X :=
  match rest with
  | [] => reverse rl
  | x :: rest' => insert_all cmp (insert_back cmp x rl) rest'
  end.

(** A registry whose codec is valid with exactly decoded fields and whose
    component stores satisfy the invariants and share the codec of the
    entity store. *)
Definition registry_wf {C A : Type} (r : Registry.Registry C A) : Prop :=
  valid_handle (EntityStore.entityHandler (Registry.entities r)) /\
  exact_fields (EntityStore.entityHandler (Registry.entities r)) /\
  Forall (fun kcs =>
            store_wf (snd kcs) /\
            SparseSet.entityHandler (ComponentStore.set (snd kcs))
            = EntityStore.entityHandler (Registry.entities r))
         (Registry.components r).

#[global] Instance registry_wf_dec {C A} (r : Registry.Registry C A) :
  Decision (registry_wf r).
Proof. unfold registry_wf, valid_handle, exact_fields. apply _. Defined.

(** What [destroy(e)] does to one component store: the key stays, the
    entity is absent afterwards, and the length drops by one exactly when
    the store contained the entity. *)
Definition purged {C A : Type} (e : jsval)
           (before after : nat * ComponentStore.ComponentStore C A) : Prop :=
  fst after = fst before /\
  ComponentStore.contains (snd after) e = Ok false /\
  ComponentStore.len (snd after) =
    (if bool_decide (ComponentStore.contains (snd before) e = Ok true)
     then ComponentStore.len (snd before) - 1
     else ComponentStore.len (snd before)).

(** The slots below [append_index] lie inside the backing array, and
    [append_index] has not passed the slot where the array grows. *)
Definition store_inv (st : EntityStore.EntityStore) : Prop :=
  0 <= EntityStore.append_index st <= EntityStore.cap st - 1 /\
  EntityStore.cap st <= Z.of_nat (Datatypes.length (EntityStore.entities st)) /\
  (EntityStore.free_slot st = -1 \/
   0 <= EntityStore.free_slot st
     < 2 ^ EntityHandle.indexBits (EntityStore.entityHandler st)).






(** [remove] of each entity of a list, in order. *)
Fixpoint remove_all (st : EntityStore.EntityStore) (es : list jsval)
  : EntityStore.EntityStore * result unit :=
  match es with
  | [] => (st, Ok tt)
  | e :: es' =>
    match EntityStore.remove st e with
    | (st1, Ok _) => remove_all st1 es'
    | (st1, Throw err) => (st1, Throw err)
    end
  end.

(** [n] calls of [create()], with the handles they return. *)
Fixpoint create_n `{Engine} (n : nat) (st : EntityStore.EntityStore)
  : EntityStore.EntityStore * result (list jsval) :=
  match n with
  | O => (st, Ok [])
  | S n' =>
    match EntityStore.create st with
    | (st1, Ok e) =>
      match create_n n' st1 with
      | (st2, Ok es) => (st2, Ok (e :: es))
      | (st2, Throw err) => (st2, Throw err)
      end
    | (st1, Throw err) => (st1, Throw err)
    end
  end.

(** The handle that reuses the slot of [e]: same index, next version. *)
Definition next_handle (h : EntityHandle.EntityHandle) (e : jsval) : jsval :=
  match EntityHandle.index h e, EntityHandle.version h e with
  | Ok i, Ok v => EntityHandle.make h i (v + 1)
  | _, _ => JUndefined
  end.

(** The entities returned by calling [next()] on an iterator at [index]
    until it returns [null], at most [fuel] times, on a store that is not
    changed in between. *)
Fixpoint drain (st : EntityStore.EntityStore) (index : Z) (fuel : nat)
  : result (list jsval) :=
  match fuel with
  | O => Ok []
  | S fuel' =>
    match EntityStore.Iterator.next st index with
    | (_, Throw e) => Throw e
    | (_, Ok None) => Ok []
    | (index', Ok (Some ent)) =>
      bind (drain st index' fuel') (fun l => Ok (ent :: l))
    end
  end.

(** The comparator applied to the payloads of two pairs. *)
Definition cmp_pairs {C : Type}
           (cmp : ComponentStore.cell C -> ComponentStore.cell C -> Z)
           (p q : jsval * ComponentStore.cell C) : Z :=
  cmp (snd p) (snd q).

(** The free-list link that a removal stores for the old head [f]. *)
Definition link (h : EntityHandle.EntityHandle) (f : Z) : Z :=
  round_double (f mod 2 ^ EntityHandle.indexBits h).

(** ** Concrete stores used in the examples below *)

Module Scenario.
Import EntityHandle.

(** The engine of the examples: its typed arrays hold up to [2 ^ 32 - 1]
    elements. *)
#[local] Instance engine : Engine := {| max_typed_length := 2 ^ 32 - 1 |}.

(** Handles of the Medium codec (20 index bits, 12 version bits). *)
Definition A : jsval := make EntityHandleMedium 0 0.
Definition B : jsval := make EntityHandleMedium 1 0.
Definition D : jsval := make EntityHandleMedium 2 0.

Definition or_else {S} (dflt : S) (r : result S) : S :=
  match r with
  | Ok s => s
  | Throw _ => dflt
  end.

Definition empty_set : SparseSet.SparseSet :=
  SparseSet.mkSet 0 ∅ [] 0 true EntityHandleMedium.

(** [new SparseSet({typedArray: true, poolSize: 4, pageSize: 128,
    entityHandler: EntityHandleMedium})] *)
Definition small_typed_set : SparseSet.SparseSet :=
  or_else empty_set
    (SparseSet.new (SparseSet.mkOptions (Some true) (Some 4) (Some 128)
                                        (Some EntityHandleMedium))).

(** [add(A); add(B); reset(); add(D)]: the cell of [B] still holds the
    dense index 1 while [length] is 1. *)
Definition stale_set : SparseSet.SparseSet :=
  let s1 := fst (SparseSet.add small_typed_set A false) in
  let s2 := fst (SparseSet.add s1 B false) in
  fst (SparseSet.add (SparseSet.reset s2) D false).

(** [add(D); add(B)] on a dense buffer of capacity 4. *)
Definition slack_set : SparseSet.SparseSet :=
  let s1 := fst (SparseSet.add small_typed_set D false) in
  fst (SparseSet.add s1 B false).


(** Entities whose indices lie on pages 1 and 2: page 0 is never
    allocated. *)
Definition far_set : SparseSet.SparseSet :=
  let s1 := fst (SparseSet.add small_typed_set (make EntityHandleMedium 300 0) false) in
  fst (SparseSet.add s1 (make EntityHandleMedium 200 0) false).

(** The comparator [(a, b) => a - b]. *)
Definition ascending (a b : jsval) : Z :=
  match a, b with
  | JNumber x, JNumber y => x - y
  | JBigInt x, JBigInt y => x - y
  | _, _ => 0
  end.

Definition empty_store : EntityStore.EntityStore :=
  EntityStore.mkStore [] EntityHandleMedium 0 (-1) (JNumber 0) 0 true true.

(** [new EntityStore({handler: EntityHandleMedium, capacity: 3,
    resizable: false, isTyped: true})] *)
Definition fixed_store : EntityStore.EntityStore :=
  or_else empty_store
    (EntityStore.new (EntityStore.mkOptions (Some EntityHandleMedium) (Some 3)
                                            (Some false) (Some true))).

(** [new EntityStore({handler: EntityHandleSmall, capacity: 4})] *)
Definition small_store : EntityStore.EntityStore :=
  or_else empty_store
    (EntityStore.new (EntityStore.mkOptions (Some EntityHandleSmall) (Some 4)
                                            None None)).



(** Payloads [{x: n}], built by [new C(n)]; such a payload holds a
    number only, and its copy is an object with the same field. *)
Definition payload_x (args : list Z) : Z := hd 0 args.

#[global] Instance payload_x_clone : ComponentStore.Cloneable Z :=
  fun p => Ok p.

Definition empty_comp_store : ComponentStore.ComponentStore Z Z :=
  ComponentStore.mkStore empty_set [] payload_x false.

(** A standard store of the default configuration. *)
Definition standard_store : ComponentStore.ComponentStore Z Z :=
  or_else empty_comp_store
    (ComponentStore.new (Some payload_x) ComponentStore.ComponentStandard
                        SparseSet.DefaultSparseSetOptions).

(** Payloads [{x: n, onHit: () => {}}], built by a class that stores a
    callback in a field: [structuredClone] raises a DataCloneError on
    them. *)
Inductive listener : Type := Listener (x : Z).

Definition new_listener (args : list Z) : listener := Listener (hd 0 args).

#[global] Instance listener_clone : ComponentStore.Cloneable listener :=
  fun _ => Throw DataCloneError.

(** A standard store of the default configuration for such payloads. *)
Definition listener_store : ComponentStore.ComponentStore listener Z :=
  or_else (ComponentStore.mkStore empty_set [] new_listener false)
    (ComponentStore.new (Some new_listener) ComponentStore.ComponentStandard
                        SparseSet.DefaultSparseSetOptions).

(** S2: [add(A, {x:1}); add(B, {x:2}); add(D, {x:3})]. *)
Definition abd_store : ComponentStore.ComponentStore Z Z :=
  let c1 := fst (ComponentStore.add standard_store A [1] true true) in
  let c2 := fst (ComponentStore.add c1 B [2] true true) in
  fst (ComponentStore.add c2 D [3] true true).

(** S5: [add(A, {k:3}); add(B, {k:1}); add(D, {k:2})]. *)
Definition s5_store : ComponentStore.ComponentStore Z Z :=
  let c1 := fst (ComponentStore.add standard_store A [3] true true) in
  let c2 := fst (ComponentStore.add c1 B [1] true true) in
  fst (ComponentStore.add c2 D [2] true true).

(** The comparator [(a, b) => a.k - b.k] on payload cells. *)
Definition by_key (a b : ComponentStore.cell Z) : Z :=
  match a, b with
  | ComponentStore.CObj x, ComponentStore.CObj y => x - y
  | _, _ => 0
  end.

Definition C : Registry.ComponentConstructor Z Z := Registry.mkConstructor 0 payload_x.
Definition C2 : Registry.ComponentConstructor Z Z := Registry.mkConstructor 1 payload_x.

Definition empty_registry : Registry.Registry Z Z :=
  Registry.mkRegistry empty_store [] EntityStore.DefaultEntityStoreOptions
                      Registry.DefaultComponentOptions.

(** [new Registry()] *)
Definition fresh_registry : Registry.Registry Z Z :=
  or_else empty_registry (Registry.new Registry.DefaultRegistryOptions).

(** [e1 = create(); add(e1, C, [7]); add(e1, C2, [8])] *)
Definition registry_one : Registry.Registry Z Z * jsval :=
  let '(r1, e) := Registry.create fresh_registry in
  let e1 := or_else JUndefined e in
  let r2 := fst (Registry.add r1 e1 C ComponentStore.ComponentStandard [7]
                   Registry.DefaultComponentOptions) in
  (fst (Registry.add r2 e1 C2 ComponentStore.ComponentStandard [8]
          Registry.DefaultComponentOptions), e1).

(** [destroy(e1); e2 = create(); add(e2, C, [9])]: the slot of [e1] is
    reused by [e2]. *)
Definition registry_recycled : Registry.Registry Z Z * jsval * jsval :=
  let '(r, e1) := registry_one in
  let r1 := fst (Registry.destroy r e1) in
  let '(r2, e) := Registry.create r1 in
  let e2 := or_else JUndefined e in
  (fst (Registry.add r2 e2 C ComponentStore.ComponentStandard [9]
          Registry.DefaultComponentOptions), e1, e2).

(** [registry_one] after a second [create()]: [e2] has no component. *)
Definition registry_two : Registry.Registry Z Z * jsval * jsval :=
  let '(r, e1) := registry_one in
  let '(r2, e) := Registry.create r in
  (r2, e1, or_else JUndefined e).

(** The store registered for a type, [standard_store] when there is
    none. *)
Definition store_of (r : Registry.Registry Z Z) (T : Registry.ComponentConstructor Z Z)
  : ComponentStore.ComponentStore Z Z :=
  default standard_store (Registry.map_get (Registry.components r) (Registry.ctor_id T)).

End Scenario.
(** * Properties *)

(** The properties hold for every engine. *)
Section WithEngine.
Context {engine : Engine}.

Lemma alloc_ok_nonneg typed n : alloc_ok typed n = true -> 0 <= n.
Proof. unfold alloc_ok. lia. Qed.

Lemma alloc_ok_true typed n : 0 <= n <= max_length typed -> alloc_ok typed n = true.
Proof. unfold alloc_ok. lia. Qed.

Lemma alloc_ok_false typed n : max_length typed < n -> alloc_ok typed n = false.
Proof. unfold alloc_ok. lia. Qed.


(** ** Bit-level facts about the number operators *)

Section BitFacts.

Lemma ToInt32_mod (z : Z) : ToInt32 z mod 2 ^ 32 = z mod 2 ^ 32.
Proof.
  unfold ToInt32.
  rewrite Zminus_mod, Zmod_mod, <- Zminus_mod.
  f_equal. lia.
Qed.

Lemma ToInt32_small (z : Z) : - 2 ^ 31 <= z < 2 ^ 31 -> ToInt32 z = z.
Proof. intros H. unfold ToInt32. rewrite Z.mod_small; lia. Qed.

Lemma ToInt32_testbit_low (z k : Z) :
  0 <= k < 32 -> Z.testbit (ToInt32 z) k = Z.testbit z k.
Proof.
  intros Hk.
  rewrite <- (Z.mod_pow2_bits_low (ToInt32 z) 32 k) by lia.
  rewrite ToInt32_mod. apply Z.mod_pow2_bits_low. lia.
Qed.

Lemma ToInt32_mod_pow2 (z n : Z) :
  0 <= n <= 32 -> ToInt32 z mod 2 ^ n = z mod 2 ^ n.
Proof.
  intros Hn.
  assert (Hd : (2 ^ n | 2 ^ 32)).
  { exists (2 ^ (32 - n)). rewrite <- Z.pow_add_r by lia. f_equal. lia. }
  rewrite <- (Z.mod_mod_divide (ToInt32 z) (2 ^ 32)) by exact Hd.
  rewrite ToInt32_mod. by apply Z.mod_mod_divide.
Qed.

(** The mask [(1 << n) - 1] acts as [Z.ones n] once coerced, also for
    [n = 31] where [1 << 31] is negative. *)
Lemma mask32_ones (n : Z) :
  1 <= n <= 31 -> ToInt32 (shl32 1 n - 1) = Z.ones n.
Proof.
  intros Hn. unfold shl32, ToUint32.
  rewrite (Z.mod_small n (2 ^ 32)) by lia.
  rewrite (Z.mod_small n 32) by lia.
  rewrite (ToInt32_small 1) by lia.
  rewrite Z.shiftl_1_l, Z.ones_equiv.
  destruct (Z.eq_dec n 31) as [-> | Hne].
  - reflexivity.
  - assert (2 ^ n <= 2 ^ 30) by (apply Z.pow_le_mono_r; lia).
    assert (0 < 2 ^ n) by (apply Z.pow_pos_nonneg; lia).
    rewrite (ToInt32_small (2 ^ n)) by lia.
    rewrite ToInt32_small by lia. lia.
Qed.

Lemma and32_mask (x n : Z) :
  1 <= n <= 31 -> and32 x (shl32 1 n - 1) = x mod 2 ^ n.
Proof.
  intros Hn. unfold and32.
  rewrite mask32_ones by lia.
  rewrite Z.land_ones by lia.
  apply ToInt32_mod_pow2. lia.
Qed.

Lemma round_double_small (z : Z) : Z.abs z < 2 ^ 53 -> round_double z = z.
Proof.
  intros H. unfold round_double.
  destruct (Z.ltb_spec (Z.abs z) (2 ^ 53)); [reflexivity | lia].
Qed.

Lemma mask64_ones (n : Z) : Z.shiftl 1 n - 1 = Z.ones n.
Proof. unfold Z.ones. lia. Qed.

End BitFacts.

(** ** The codec, arithmetically *)

Section Codec.
Import EntityHandle.

Lemma valid_factory h :
  valid_handle h -> EntityHandleFactory (indexBits h) (versionBits h) = Ok h.
Proof.
  unfold EntityHandleFactory, valid_handle, totalBits. intros (Hi & Hv & Ht).
  destruct (Z.ltb_spec 64 (indexBits h + versionBits h)); [lia |].
  destruct (Z.leb_spec (indexBits h) 0); [lia |].
  destruct (Z.leb_spec (versionBits h) 0); [lia |].
  simpl. by destruct h.
Qed.

Lemma lor_shifted_add (a b n : Z) :
  0 <= n -> 0 <= b < 2 ^ n -> Z.lor (a * 2 ^ n) b = a * 2 ^ n + b.
Proof.
  intros Hn Hb.
  assert (Hz : Z.land (a * 2 ^ n) b = 0).
  { apply Z.bits_inj'. intros k Hk. rewrite Z.land_spec, Z.bits_0.
    destruct (Z.lt_ge_cases k n).
    - rewrite Z.mul_pow2_bits_low by lia. reflexivity.
    - rewrite <- (Z.mod_small b (2 ^ n)) by lia.
      rewrite Z.mod_pow2_bits_high by lia. apply andb_false_r. }
  rewrite <- Z.lxor_lor by exact Hz.
  symmetry. by apply Z.add_nocarry_lxor.
Qed.

Lemma field_div_mod (a b n m : Z) :
  0 <= n -> 0 <= b < 2 ^ n -> (a * 2 ^ n + b) / 2 ^ n = a.
Proof.
  intros Hn Hb.
  assert (0 < 2 ^ n) by (apply Z.pow_pos_nonneg; lia).
  rewrite Z.add_comm, Z.div_add by lia.
  rewrite Z.div_small by lia. lia.
Qed.

Section Number32.
Variable h : EntityHandle.
Hypothesis Hv : valid_handle h.
Hypothesis Hty : type h = Number.

Lemma number_bits :
  1 <= indexBits h <= 31 /\ 1 <= versionBits h <= 31 /\
  indexBits h + versionBits h <= 32.
Proof using Hv Hty.
  destruct Hv as (? & ? & ?). unfold type, totalBits in *.
  destruct (Z.ltb_spec 32 (indexBits h + versionBits h)); [discriminate | lia].
Qed.

Lemma shift_count_32 : ToUint32 (versionBits h) mod 32 = versionBits h.
Proof using Hv Hty.
  pose proof number_bits. unfold ToUint32.
  rewrite (Z.mod_small _ (2 ^ 32)) by lia. apply Z.mod_small. lia.
Qed.

Lemma version32_spec n : version32 h n = n mod 2 ^ versionBits h.
Proof using Hv Hty.
  pose proof number_bits. unfold version32, versionMask32.
  apply and32_mask. lia.
Qed.

Lemma index32_spec n :
  index32 h n = (n mod 2 ^ 32 / 2 ^ versionBits h) mod 2 ^ indexBits h.
Proof using Hv Hty.
  pose proof number_bits. unfold index32, indexMask32.
  rewrite and32_mask by lia. unfold ushr32.
  rewrite shift_count_32, Z.shiftr_div_pow2 by lia. reflexivity.
Qed.

Lemma make32_mod i v :
  make32 h i v mod 2 ^ 32 =
  (i mod 2 ^ indexBits h) * 2 ^ versionBits h + v mod 2 ^ versionBits h.
Proof using Hv Hty.
  pose proof number_bits as (Hi & Hvb & Ht).
  unfold make32, indexMask32, versionMask32.
  rewrite !and32_mask by lia.
  set (a := i mod 2 ^ indexBits h). set (b := v mod 2 ^ versionBits h).
  assert (Ha : 0 <= a < 2 ^ indexBits h) by (apply Z.mod_pos_bound, Z.pow_pos_nonneg; lia).
  assert (Hb : 0 <= b < 2 ^ versionBits h) by (apply Z.mod_pos_bound, Z.pow_pos_nonneg; lia).
  assert (Hi31 : 2 ^ indexBits h <= 2 ^ 31) by (apply Z.pow_le_mono_r; lia).
  assert (Hv31 : 2 ^ versionBits h <= 2 ^ 31) by (apply Z.pow_le_mono_r; lia).
  assert (Hab : 0 <= a * 2 ^ versionBits h + b < 2 ^ 32).
  { assert (2 ^ indexBits h * 2 ^ versionBits h <= 2 ^ 32).
    { rewrite <- Z.pow_add_r by lia. apply Z.pow_le_mono_r; lia. }
    nia. }
  unfold or32, shl32. rewrite shift_count_32.
  rewrite (ToInt32_small a), (ToInt32_small b) by lia.
  rewrite Z.shiftl_mul_pow2 by lia.
  rewrite <- Z.land_ones, Z.land_lor_distr_l, !Z.land_ones by lia.
  rewrite !ToInt32_mod.
  rewrite (Z.mod_small b) by lia.
  rewrite (Z.mod_small (a * 2 ^ versionBits h)) by nia.
  apply lor_shifted_add; lia.
Qed.

Lemma index32_make32 i v :
  index32 h (make32 h i v) = i mod 2 ^ indexBits h.
Proof using Hv Hty.
  pose proof number_bits as (Hi & Hvb & Ht).
  rewrite index32_spec, make32_mod.
  rewrite (field_div_mod _ _ _ 0); [| lia | apply Z.mod_pos_bound, Z.pow_pos_nonneg; lia].
  apply Z.mod_mod. apply Z.pow_nonzero; lia.
Qed.

Lemma version32_make32 i v :
  version32 h (make32 h i v) = v mod 2 ^ versionBits h.
Proof using Hv Hty.
  pose proof number_bits as (Hi & Hvb & Ht).
  assert (Hp : 0 < 2 ^ versionBits h) by (apply Z.pow_pos_nonneg; lia).
  assert (Hd : (2 ^ versionBits h | 2 ^ 32)).
  { exists (2 ^ (32 - versionBits h)).
    rewrite <- Z.pow_add_r by lia. f_equal. lia. }
  rewrite version32_spec.
  rewrite <- (Z.mod_mod_divide _ (2 ^ 32)) by exact Hd.
  rewrite make32_mod.
  rewrite Z.add_comm, Z.mod_add by lia. apply Z.mod_mod. lia.
Qed.
End Number32.

Section BigInt64.
Variable h : EntityHandle.
Hypothesis Hv : valid_handle h.

Lemma make64_spec i v :
  make64 h i v =
  (i mod 2 ^ indexBits h) * 2 ^ versionBits h + v mod 2 ^ versionBits h.
Proof using Hv.
  destruct Hv as (Hi & Hvb & Ht).
  unfold make64, indexMask64, versionMask64.
  rewrite !mask64_ones, !Z.land_ones, Z.shiftl_mul_pow2 by lia.
  apply lor_shifted_add; [lia |].
  apply Z.mod_pos_bound, Z.pow_pos_nonneg; lia.
Qed.

Lemma index64_spec n :
  index64 h n = round_double ((n / 2 ^ versionBits h) mod 2 ^ indexBits h).
Proof using Hv.
  destruct Hv as (Hi & Hvb & Ht).
  unfold index64, indexMask64.
  by rewrite mask64_ones, Z.land_ones, Z.shiftr_div_pow2 by lia.
Qed.

Lemma version64_spec n :
  version64 h n = round_double (n mod 2 ^ versionBits h).
Proof using Hv.
  destruct Hv as (Hi & Hvb & Ht).
  unfold version64, versionMask64.
  by rewrite mask64_ones, Z.land_ones by lia.
Qed.

Lemma index64_make64 i v :
  index64 h (make64 h i v) = round_double (i mod 2 ^ indexBits h).
Proof using Hv.
  pose proof Hv as (Hi & Hvb & Ht).
  rewrite index64_spec, make64_spec.
  rewrite (field_div_mod _ _ _ 0); [| lia | apply Z.mod_pos_bound, Z.pow_pos_nonneg; lia].
  f_equal. apply Z.mod_mod. apply Z.pow_nonzero; lia.
Qed.

Lemma version64_make64 i v :
  version64 h (make64 h i v) = round_double (v mod 2 ^ versionBits h).
Proof using Hv.
  pose proof Hv as (Hi & Hvb & Ht).
  assert (Hp : 0 < 2 ^ versionBits h) by (apply Z.pow_pos_nonneg; lia).
  rewrite version64_spec, make64_spec.
  f_equal. rewrite Z.add_comm, Z.mod_add by lia. apply Z.mod_mod. lia.
Qed.
End BigInt64.

(** Decoding what [make] encoded, for both layouts. *)
Lemma index_make h i v :
  valid_handle h ->
  index h (make h i v) = Ok (round_double (i mod 2 ^ indexBits h)).
Proof.
  intros Hv. unfold index, make. destruct (type h) eqn:Hty.
  - rewrite index32_make32 by done.
    pose proof (number_bits h Hv Hty) as (Hi & _ & _).
    assert (0 <= i mod 2 ^ indexBits h < 2 ^ indexBits h)
      by (apply Z.mod_pos_bound, Z.pow_pos_nonneg; lia).
    assert (2 ^ indexBits h <= 2 ^ 31) by (apply Z.pow_le_mono_r; lia).
    rewrite round_double_small; [done | lia].
  - by rewrite index64_make64.
Qed.

Lemma version_make h i v :
  valid_handle h ->
  version h (make h i v) = Ok (round_double (v mod 2 ^ versionBits h)).
Proof.
  intros Hv. unfold version, make. destruct (type h) eqn:Hty.
  - rewrite version32_make32 by done.
    pose proof (number_bits h Hv Hty) as (_ & Hvb & _).
    assert (0 <= v mod 2 ^ versionBits h < 2 ^ versionBits h)
      by (apply Z.mod_pos_bound, Z.pow_pos_nonneg; lia).
    assert (2 ^ versionBits h <= 2 ^ 31) by (apply Z.pow_le_mono_r; lia).
    rewrite round_double_small; [done | lia].
  - by rewrite version64_make64.
Qed.

Lemma make_masks h i v :
  valid_handle h ->
  make h i v = make h (i mod 2 ^ indexBits h) (v mod 2 ^ versionBits h).
Proof.
  intros Hv. unfold make. destruct (type h) eqn:Hty.
  - f_equal. pose proof (number_bits h Hv Hty) as (Hi & Hvb & _).
    unfold make32, indexMask32, versionMask32.
    rewrite !and32_mask by lia.
    by rewrite !Z.mod_mod by (apply Z.pow_nonzero; lia).
  - f_equal. destruct Hv as (Hi & Hvb & _).
    unfold make64, indexMask64, versionMask64.
    rewrite !mask64_ones, !Z.land_ones by lia.
    by rewrite !Z.mod_mod by (apply Z.pow_nonzero; lia).
Qed.


Lemma well_typed_decodes h id :
  well_typed h id -> exists i v, index h id = Ok i /\ version h id = Ok v.
Proof.
  unfold well_typed, index, version.
  destruct (type h), id; try done; eauto.
Qed.
End Codec.

(** ** C9: encode/decode round trip *)


(** ** C1: removal of an entity that is not contained *)

Lemma contains_cell s e idx :
  EntityHandle.index (SparseSet.entityHandler s) e = Ok idx ->
  SparseSet.contains s e = Ok (SparseSet.live_cell s (cell_of s idx)).
Proof.
  intros Hi. unfold SparseSet.contains, SparseSet.pageIndex, SparseSet.pageOffset, cell_of.
  rewrite Hi. simpl. by destruct (SparseSet.sparse s !! _).
Qed.

Lemma index_cell s e idx :
  EntityHandle.index (SparseSet.entityHandler s) e = Ok idx ->
  SparseSet.index s e =
  Ok (match cell_of s idx with
      | Some d => if SparseSet.live_cell s (Some d) then d else SparseSet.FAILED_OPERATION
      | None => SparseSet.FAILED_OPERATION
      end).
Proof.
  intros Hi. unfold SparseSet.index, SparseSet.pageIndex, SparseSet.pageOffset, cell_of.
  rewrite Hi. simpl. destruct (SparseSet.sparse s !! _) as [page |]; [| done].
  simpl. destruct (page !! _) as [d |]; [| done].
  by destruct (negb _ && _).
Qed.

(** When the entity is absent because the store is empty, its page or its
    cell is missing, or its cell holds the tombstone, [remove] fails and
    changes nothing; the remaining case of absence is a stale cell. *)
Lemma remove_absent s e idx :
  EntityHandle.index (SparseSet.entityHandler s) e = Ok idx ->
  SparseSet.contains s e = Ok false ->
  SparseSet.remove s e = (s, Ok SparseSet.FAILED_OPERATION) \/
  (exists d, cell_of s idx = Some d /\ d <> SparseSet.TOMBSTONE /\
             SparseSet.length s <= d /\ SparseSet.length s <> 0).
Proof.
  intros Hi Hc. rewrite (contains_cell _ _ _ Hi) in Hc. injection Hc as Hc.
  unfold SparseSet.remove, SparseSet.pageIndex, SparseSet.pageOffset.
  unfold cell_of in *. rewrite Hi. simpl.
  destruct (Z.eqb_spec (SparseSet.length s) 0) as [| Hn]; [by left |].
  destruct (SparseSet.sparse s !! _) as [page |]; [| by left].
  destruct (page !! _) as [d |]; [| by left].
  destruct (Z.eqb_spec d SparseSet.TOMBSTONE) as [| Hd]; [by left |].
  right. exists d. simpl in Hc.
  destruct (Z.eqb_spec d SparseSet.TOMBSTONE); [done |].
  simpl in Hc. apply Z.ltb_ge in Hc. done.
Qed.

(** ** C5: capacity of a store that cannot grow *)

Lemma create_last_slot_refused st :
  EntityStore.free_slot st = -1 ->
  strict_eq (JNumber (EntityStore.append_index st)) (EntityStore.INVALID_IDX st) = false ->
  EntityStore.append_index st = EntityStore.cap st - 1 ->
  EntityStore.resizable st = false ->
  EntityStore.create st = (st, Throw CapacityExceeded).
Proof.
  intros Hf Hi Ha Hr. unfold EntityStore.create.
  rewrite Hf. change (-1 =? EntityStore.IDX_SENTINEL) with true. cbn [negb].
  rewrite Hi, Hr. rewrite <- Ha, Z.eqb_refl. reflexivity.
Qed.

(** ** C10: membership looks at the index field only *)

Lemma contains_same_index s a b i :
  EntityHandle.index (SparseSet.entityHandler s) a = Ok i ->
  EntityHandle.index (SparseSet.entityHandler s) b = Ok i ->
  SparseSet.contains s a = SparseSet.contains s b /\
  SparseSet.index s a = SparseSet.index s b.
Proof.
  intros Ha Hb.
  rewrite (contains_cell _ _ _ Ha), (contains_cell _ _ _ Hb).
  rewrite (index_cell _ _ _ Ha), (index_cell _ _ _ Hb). done.
Qed.

Lemma tryGet_same_index {C A} (cs : ComponentStore.ComponentStore C A) a b i :
  EntityHandle.index (SparseSet.entityHandler (ComponentStore.set cs)) a = Ok i ->
  EntityHandle.index (SparseSet.entityHandler (ComponentStore.set cs)) b = Ok i ->
  ComponentStore.tryGet cs a = ComponentStore.tryGet cs b.
Proof.
  intros Ha Hb. unfold ComponentStore.tryGet.
  destruct (contains_same_index _ _ _ _ Ha Hb) as [_ ->]. done.
Qed.

(** C10.  Two entity IDs with the same decoded index are indistinguishable
    for [contains] and [index] of a sparse set, whatever their versions.
    [Registry.tryGet] consults the component store only, so for a stale
    handle [a] and the handle [b] that now occupies its slot it gives the
    same answer: when the store holds [b] at dense position [d], the call
    with [a] returns the payload at [d] and not [null]. *)
Theorem membership_ignores_version :
  (forall (s : SparseSet.SparseSet) (a b : jsval) (i : Z),
      EntityHandle.index (SparseSet.entityHandler s) a = Ok i ->
      EntityHandle.index (SparseSet.entityHandler s) b = Ok i ->
      SparseSet.contains s a = SparseSet.contains s b /\
      SparseSet.index s a = SparseSet.index s b) /\
  (forall (C A : Type) (r : Registry.Registry C A)
          (T : Registry.ComponentConstructor C A)
          (cs : ComponentStore.ComponentStore C A) (a b : jsval) (i d : Z),
      Registry.map_get (Registry.components r) (Registry.ctor_id T) = Some cs ->
      ComponentStore.isEmptyComp cs = false ->
      EntityHandle.index (SparseSet.entityHandler (ComponentStore.set cs)) a = Ok i ->
      EntityHandle.index (SparseSet.entityHandler (ComponentStore.set cs)) b = Ok i ->
      ComponentStore.contains cs b = Ok true ->
      SparseSet.index (ComponentStore.set cs) b = Ok d ->
      Registry.tryGet r a T = Registry.tryGet r b T /\
      Registry.tryGet r a T = Ok (arr_get ComponentStore.CUndefined
                                          (ComponentStore.components cs) d) /\
      d <> SparseSet.FAILED_OPERATION).
Proof.
  split; [exact contains_same_index |].
  intros C A r T cs a b i d Hget Hkind Ha Hb Hc Hd.
  assert (Hne : d <> SparseSet.FAILED_OPERATION).
  { unfold ComponentStore.contains in Hc.
    rewrite (contains_cell _ _ _ Hb) in Hc. rewrite (index_cell _ _ _ Hb) in Hd.
    injection Hc as Hc. injection Hd as Hd.
    destruct (cell_of _ i) as [c |]; [| done].
    simpl in Hc. rewrite Hc in Hd. subst c.
    intros ->. by rewrite Z.eqb_refl in Hc. }
  unfold Registry.tryGet. rewrite Hget.
  rewrite (tryGet_same_index cs a b i Ha Hb).
  split; [done |]. split; [| done].
  unfold ComponentStore.tryGet. rewrite Hkind, Hd. simpl.
  destruct (Z.eqb_spec d ComponentStore.FAILED_OPERATION); [done | done].
Qed.

(** ** C8: the tryGet family *)

Lemma contains_false_index s e :
  SparseSet.contains s e = Ok false ->
  SparseSet.index s e = Ok SparseSet.FAILED_OPERATION.
Proof.
  unfold SparseSet.contains, SparseSet.index.
  destruct (SparseSet.pageIndex s e) as [pi |]; [simpl | done].
  destruct (SparseSet.sparse s !! pi) as [page |]; [| done].
  destruct (SparseSet.pageOffset s e) as [po |]; [simpl | done].
  destruct (page !! po) as [d |]; [| done].
  intros [= ->]. done.
Qed.

(** C8 (as amended).  [tryGet] and [tryGetConst] raise "no such component
    registerd" when no store is registered for [T], and raise for an
    empty-kind store; for a registered standard store that does not
    contain [e] they return [null]. *)
Theorem tryGet_family (C A : Type) `{!ComponentStore.Cloneable C}
        (r : Registry.Registry C A) (e : jsval)
        (T : Registry.ComponentConstructor C A) :
  (Registry.map_get (Registry.components r) (Registry.ctor_id T) = None ->
   Registry.tryGet r e T = Throw NoSuchComponent /\
   Registry.tryGetConst r e T = Throw NoSuchComponent) /\
  (forall cs,
      Registry.map_get (Registry.components r) (Registry.ctor_id T) = Some cs ->
      ComponentStore.isEmptyComp cs = true ->
      Registry.tryGet r e T = Throw EmptyComponent /\
      Registry.tryGetConst r e T = Throw EmptyComponent) /\
  (forall cs,
      Registry.map_get (Registry.components r) (Registry.ctor_id T) = Some cs ->
      ComponentStore.isEmptyComp cs = false ->
      ComponentStore.contains cs e = Ok false ->
      Registry.tryGet r e T = Ok ComponentStore.CNull /\
      Registry.tryGetConst r e T = Ok ComponentStore.CNull).
Proof.
  unfold Registry.tryGet, Registry.tryGetConst.
  split; [| split].
  - intros ->. done.
  - intros cs -> Hk. unfold ComponentStore.tryGet, ComponentStore.tryGetConst.
    by rewrite Hk.
  - intros cs -> Hk Hc. unfold ComponentStore.tryGet, ComponentStore.tryGetConst.
    rewrite Hk. unfold ComponentStore.contains in Hc.
    rewrite (contains_false_index _ _ Hc). done.
Qed.

(** ** The sparse-set invariants *)

Lemma elem_of_positions n i : i ∈ positions n <-> 0 <= i < n.
Proof.
  unfold positions. rewrite list_elem_of_fmap. split.
  - intros (k & -> & Hk). apply elem_of_seq in Hk. lia.
  - intros Hi. exists (Z.to_nat i). split; [lia |]. apply elem_of_seq. lia.
Qed.

Section Slots.
Variable s : SparseSet.SparseSet.
Hypothesis Hpage : page_ok s.

Lemma page_pos : 0 < SparseSet.pageSize s.
Proof using Hpage.
  destruct Hpage as [-> _]. apply Z.pow_pos_nonneg; [lia | apply Z.log2_nonneg].
Qed.

Lemma offset_mod idx :
  and32 idx (SparseSet.pageSize s - 1) = idx mod SparseSet.pageSize s.
Proof using Hpage.
  destruct Hpage as [E [Hlo Hhi]]. rewrite E at 1 2.
  set (k := Z.log2 (SparseSet.pageSize s)) in *.
  unfold and32.
  assert (H31 : 0 < 2 ^ k <= 2 ^ 30).
  { split; [apply Z.pow_pos_nonneg; lia | apply Z.pow_le_mono_r; lia]. }
  rewrite (ToInt32_small (2 ^ k - 1)) by lia.
  replace (2 ^ k - 1) with (Z.ones k) by (rewrite Z.ones_equiv; lia).
  rewrite Z.land_ones by lia.
  apply ToInt32_mod_pow2. lia.
Qed.

(** Page index and page offset determine the entity index. *)
Lemma slot_inj i j :
  i / SparseSet.pageSize s = j / SparseSet.pageSize s ->
  and32 i (SparseSet.pageSize s - 1) = and32 j (SparseSet.pageSize s - 1) ->
  i = j.
Proof using Hpage.
  rewrite !offset_mod. intros Hd Hm.
  pose proof page_pos.
  rewrite (Z.div_mod i (SparseSet.pageSize s)) by lia.
  rewrite (Z.div_mod j (SparseSet.pageSize s)) by lia.
  congruence.
Qed.
End Slots.

Lemma lookup2_write_create sp pi po v pi' po' :
  lookup2 (SparseSet.write_cell_create sp pi po v) pi' po' =
  if decide (pi = pi' /\ po = po') then Some v else lookup2 sp pi' po'.
Proof.
  unfold lookup2, SparseSet.write_cell_create.
  destruct (decide (pi = pi')) as [<- | Hne].
  - rewrite lookup_insert_eq.
    destruct (decide (po = po')) as [<- | Hne'].
    + rewrite lookup_insert_eq. by rewrite decide_True.
    + rewrite lookup_insert_ne by done. rewrite decide_False by tauto.
      destruct (sp !! pi); [done | apply lookup_empty].
  - rewrite lookup_insert_ne by done. by rewrite decide_False by tauto.
Qed.

Lemma write_cell_existing sp pi po v d :
  lookup2 sp pi po = Some d ->
  SparseSet.write_cell sp pi po v = Ok (SparseSet.write_cell_create sp pi po v).
Proof.
  unfold lookup2, SparseSet.write_cell, SparseSet.write_cell_create.
  destruct (sp !! pi); [done | discriminate].
Qed.

Lemma cell_of_lookup2 s idx :
  cell_of s idx =
  lookup2 (SparseSet.sparse s) (idx / SparseSet.pageSize s)
          (and32 idx (SparseSet.pageSize s - 1)).
Proof. reflexivity. Qed.

(** The invariants, read at one position or one cell. *)
Lemma wf_dense_at s i :
  wf s -> 0 <= i < SparseSet.length s ->
  exists idx,
    EntityHandle.index (SparseSet.entityHandler s) (SparseSet.dense_read s i) = Ok idx /\
    cell_of s idx = Some i /\ stored s (SparseSet.dense_read s i).
Proof.
  intros (_ & _ & Hd & _) Hi.
  rewrite Forall_forall in Hd. specialize (Hd i).
  destruct Hd as [Hd Hs]; [by apply elem_of_positions |].
  destruct (EntityHandle.index _ _) as [idx |]; [| done]. eauto.
Qed.

Lemma wf_sparse_at s idx d :
  wf s -> cell_of s idx = Some d -> 0 <= d < SparseSet.length s ->
  EntityHandle.index (SparseSet.entityHandler s) (SparseSet.dense_read s d) = Ok idx.
Proof.
  intros (Hp & _ & _ & Hc) Hcell Hd.
  unfold cell_of in Hcell.
  destruct (SparseSet.sparse s !! _) as [page |] eqn:Epage; [| done].
  destruct (Hc _ _ Epage _ _ Hcell) as [_ Hc']. specialize (Hc' Hd).
  clear Hc. rename Hc' into Hc.
  destruct (EntityHandle.index _ _) as [idx' |]; [| done].
  destruct Hc as [H1 H2]. f_equal. by apply (slot_inj s Hp).
Qed.

Lemma wf_cell_lower s idx d : wf s -> cell_of s idx = Some d -> -1 <= d.
Proof.
  intros (_ & _ & _ & Hc) Hcell. unfold cell_of in Hcell.
  destruct (SparseSet.sparse s !! _) as [page |] eqn:Epage; [| done].
  by destruct (Hc _ _ Epage _ _ Hcell) as [? _].
Qed.

(** Two live positions hold entities of different indices. *)
Lemma wf_dense_inj s i j idx :
  wf s -> 0 <= i < SparseSet.length s -> 0 <= j < SparseSet.length s ->
  EntityHandle.index (SparseSet.entityHandler s) (SparseSet.dense_read s i) = Ok idx ->
  EntityHandle.index (SparseSet.entityHandler s) (SparseSet.dense_read s j) = Ok idx ->
  i = j.
Proof.
  intros Hwf Hi Hj Ei Ej.
  destruct (wf_dense_at s i Hwf Hi) as (x & Ex & Cx & _).
  destruct (wf_dense_at s j Hwf Hj) as (y & Ey & Cy & _).
  congruence.
Qed.

(** ** Dense reads and writes *)

Lemma arr_get_lookup {A} (dflt : A) l i x :
  0 <= i -> l !! Z.to_nat i = Some x -> arr_get dflt l i = x.
Proof.
  intros Hi Hl. unfold arr_get.
  destruct (Z.ltb_spec i 0); [lia |]. by rewrite Hl.
Qed.

Lemma arr_get_insert_eq {A} (dflt : A) l i x :
  0 <= i < Z.of_nat (Datatypes.length l) ->
  arr_get dflt (<[Z.to_nat i := x]> l) i = x.
Proof.
  intros Hi. apply arr_get_lookup; [lia |].
  apply list_lookup_insert_eq. lia.
Qed.

Lemma arr_get_insert_ne {A} (dflt : A) l i j x :
  0 <= i -> i <> j ->
  arr_get dflt (<[Z.to_nat i := x]> l) j = arr_get dflt l j.
Proof.
  intros Hi Hne. unfold arr_get.
  destruct (Z.ltb_spec j 0); [done |].
  rewrite list_lookup_insert_ne by lia. done.
Qed.

Lemma arr_set_in_range {A} (hole : A) l i x :
  0 <= i < Z.of_nat (Datatypes.length l) ->
  arr_set hole l i x = <[Z.to_nat i := x]> l.
Proof.
  intros Hi. unfold arr_set.
  destruct (Z.ltb_spec i 0); [lia |].
  destruct (Z.ltb_spec i (Z.of_nat (Datatypes.length l))); [done | lia].
Qed.

Lemma typed_set_in_range {A} (l : list A) i x :
  0 <= i < Z.of_nat (Datatypes.length l) ->
  typed_set l i x = <[Z.to_nat i := x]> l.
Proof.
  intros Hi. unfold typed_set.
  destruct (Z.leb_spec 0 i); [| lia].
  destruct (Z.ltb_spec i (Z.of_nat (Datatypes.length l))); [done | lia].
Qed.

Lemma dense_write_stored s i v :
  stored s v -> 0 <= i < SparseSet.capacity s ->
  SparseSet.dense_write s i v = Ok (<[Z.to_nat i := v]> (SparseSet.dense s)).
Proof.
  intros Hs Hi. unfold SparseSet.dense_write, stored, SparseSet.capacity in *.
  destruct (SparseSet.typedArray s).
  - rewrite Hs by done. simpl. by rewrite typed_set_in_range.
  - by rewrite arr_set_in_range.
Qed.

(** ** SparseSet.remove on a contained entity *)

Lemma remove_contained s e ie i :
  wf s ->
  EntityHandle.index (SparseSet.entityHandler s) e = Ok ie ->
  cell_of s ie = Some i ->
  0 <= i < SparseSet.length s ->
  exists s',
    SparseSet.remove s e = (s', Ok SparseSet.SUCCESS_OPERATION) /\
    SparseSet.length s' = SparseSet.length s - 1 /\
    SparseSet.pageSize s' = SparseSet.pageSize s /\
    SparseSet.typedArray s' = SparseSet.typedArray s /\
    SparseSet.entityHandler s' = SparseSet.entityHandler s /\
    Datatypes.length (SparseSet.dense s') = Datatypes.length (SparseSet.dense s) /\
    (forall j, j <> i -> SparseSet.dense_read s' j = SparseSet.dense_read s j) /\
    (i <> SparseSet.length s - 1 ->
     SparseSet.dense_read s' i = SparseSet.dense_read s (SparseSet.length s - 1)) /\
    (forall idx,
        cell_of s' idx =
        if decide (idx = ie) then Some SparseSet.TOMBSTONE
        else if decide (EntityHandle.index (SparseSet.entityHandler s)
                          (SparseSet.dense_read s (SparseSet.length s - 1)) = Ok idx)
             then Some i
             else cell_of s idx).
Proof.
  intros Hwf Hie Hcell Hi.
  pose proof Hwf as (Hpage & Hlen & _ & _).
  set (last := SparseSet.length s - 1).
  destruct (wf_dense_at s last Hwf) as (il & Hil & Hcl & Hsl); [lia |].
  fold last in Hil, Hcl, Hsl.
  unfold SparseSet.remove.
  destruct (Z.eqb_spec (SparseSet.length s) 0) as [| _]; [lia |].
  unfold SparseSet.pageIndex, SparseSet.pageOffset. rewrite Hie. simpl.
  pose proof Hcell as Hcell'. unfold cell_of in Hcell'.
  destruct (SparseSet.sparse s !! (ie / SparseSet.pageSize s)) as [page |] eqn:Epage;
    [| done].
  rewrite Hcell'.
  destruct (Z.eqb_spec i SparseSet.TOMBSTONE) as [Ht | _];
    [unfold SparseSet.TOMBSTONE in Ht; lia |].
  fold last.
  destruct (Z.eqb_spec i last) as [Elast | Nlast].
  - (* the removed entity is the last one *)
    assert (il = ie) as ->.
    { pose proof (wf_sparse_at s ie i Hwf Hcell Hi) as H. rewrite Elast in H. congruence. }
    eexists. split; [reflexivity |]. simpl.
    repeat split; try done.
    intros idx. rewrite cell_of_lookup2. simpl.
    rewrite lookup2_write_create.
    destruct (decide (idx = ie)) as [-> | Hne].
    + by rewrite decide_True.
    + rewrite decide_False.
      * rewrite decide_False by congruence. done.
      * intros [H1 H2]. apply Hne. symmetry. by apply (slot_inj s Hpage).
  - (* the last entity moves into the hole *)
    assert (Hne : il <> ie).
    { intros ->. apply Nlast. congruence. }
    rewrite dense_write_stored by (done || lia). simpl.
    rewrite Hil. simpl.
    rewrite (write_cell_existing _ _ _ _ last) by (by rewrite <- cell_of_lookup2).
    eexists. split; [reflexivity |]. simpl.
    split; [done |]. split; [done |]. split; [done |]. split; [done |].
    split; [by rewrite length_insert |].
    split; [| split].
    + intros j Hj. unfold SparseSet.dense_read. simpl.
      apply arr_get_insert_ne; lia.
    + intros _. unfold SparseSet.dense_read. simpl.
      apply arr_get_insert_eq. unfold SparseSet.capacity in Hlen. lia.
    + intros idx. rewrite cell_of_lookup2. simpl.
      rewrite !lookup2_write_create.
      destruct (decide (idx = ie)) as [-> | Hne1].
      * by rewrite decide_True.
      * rewrite decide_False.
        2:{ intros [H1 H2]. apply Hne1. symmetry. by apply (slot_inj s Hpage). }
        destruct (decide (Ok il = Ok idx)) as [[= ->] | Hne2].
        -- by rewrite decide_True.
        -- rewrite decide_False; [done |].
           intros [H1 H2]. apply Hne2. f_equal. by apply (slot_inj s Hpage).
Qed.

Lemma index_contained s e ie i :
  wf s ->
  EntityHandle.index (SparseSet.entityHandler s) e = Ok ie ->
  SparseSet.index s e = Ok i -> i <> SparseSet.FAILED_OPERATION ->
  cell_of s ie = Some i /\ 0 <= i < SparseSet.length s.
Proof.
  intros Hwf Hie Hidx Hne. rewrite (index_cell _ _ _ Hie) in Hidx.
  injection Hidx as Hidx.
  destruct (cell_of s ie) as [d |] eqn:Ecell; [| congruence].
  pose proof (wf_cell_lower s ie d Hwf Ecell) as Hlow.
  unfold SparseSet.live_cell, SparseSet.TOMBSTONE, SparseSet.FAILED_OPERATION in *.
  destruct (Z.eqb_spec d (-1)); simpl in Hidx; [congruence |].
  destruct (Z.ltb_spec d (SparseSet.length s)); [| congruence].
  subst d. split; [done | lia].
Qed.

Lemma contains_true_index s e ie :
  EntityHandle.index (SparseSet.entityHandler s) e = Ok ie ->
  SparseSet.contains s e = Ok true ->
  exists i, SparseSet.index s e = Ok i /\ i <> SparseSet.FAILED_OPERATION.
Proof.
  intros Hie Hc. rewrite (contains_cell _ _ _ Hie) in Hc. injection Hc as Hc.
  rewrite (index_cell _ _ _ Hie).
  destruct (cell_of s ie) as [d |]; [| done].
  rewrite Hc. exists d. split; [done |].
  unfold SparseSet.live_cell, SparseSet.TOMBSTONE, SparseSet.FAILED_OPERATION in *.
  destruct (Z.eqb_spec d (-1)); [done | done].
Qed.

(** ** C4: swap-remove in a component store *)

Lemma store_remove_contained {C A} (cs : ComponentStore.ComponentStore C A) e ie i :
  store_wf cs ->
  EntityHandle.index (SparseSet.entityHandler (ComponentStore.set cs)) e = Ok ie ->
  SparseSet.index (ComponentStore.set cs) e = Ok i ->
  i <> SparseSet.FAILED_OPERATION ->
  exists cs',
    ComponentStore.remove cs e = (cs', Ok ComponentStore.SUCCESS_OPERATION) /\
    ComponentStore.len cs' = ComponentStore.len cs - 1 /\
    ComponentStore.contains cs' e = Ok false /\
    ComponentStore.isEmptyComp cs' = ComponentStore.isEmptyComp cs /\
    SparseSet.entityHandler (ComponentStore.set cs') =
      SparseSet.entityHandler (ComponentStore.set cs) /\
    (forall j, 0 <= j < ComponentStore.len cs - 1 ->
        SparseSet.dense_read (ComponentStore.set cs') j =
        SparseSet.dense_read (ComponentStore.set cs)
          (if decide (j = i) then ComponentStore.len cs - 1 else j)) /\
    (ComponentStore.isEmptyComp cs = false ->
     (forall j, 0 <= j < ComponentStore.len cs - 1 ->
        arr_get ComponentStore.CUndefined (ComponentStore.components cs') j =
        arr_get ComponentStore.CUndefined (ComponentStore.components cs)
          (if decide (j = i) then ComponentStore.len cs - 1 else j)) /\
     arr_get ComponentStore.CUndefined (ComponentStore.components cs')
             (ComponentStore.len cs - 1) = ComponentStore.CNull) /\
    (forall x ix,
        EntityHandle.index (SparseSet.entityHandler (ComponentStore.set cs)) x = Ok ix ->
        ix <> ie ->
        SparseSet.index (ComponentStore.set cs') x =
        if decide (SparseSet.index (ComponentStore.set cs) x
                   = Ok (ComponentStore.len cs - 1))
        then Ok i else SparseSet.index (ComponentStore.set cs) x).
Proof.
  intros [Hwf Hcomp] Hie Hidx Hne.
  destruct (index_contained _ _ _ _ Hwf Hie Hidx Hne) as [Hcell Hi].
  destruct (remove_contained _ _ _ _ Hwf Hie Hcell Hi)
    as (s' & Hrem & Hlen & Hps & Hty & Hh & Hdl & Hother & Hmoved & Hcells).
  set (s := ComponentStore.set cs) in *.
  set (last := SparseSet.length s - 1) in *.
  unfold ComponentStore.remove. fold s. rewrite Hidx.
  destruct (Z.eqb_spec i ComponentStore.FAILED_OPERATION) as [| _]; [done |].
  set (cs1 := if negb (ComponentStore.isEmptyComp cs) then _ else cs).
  assert (Hset1 : ComponentStore.set cs1 = s) by (unfold cs1; by destruct (negb _)).
  rewrite Hset1, Hrem.
  eexists. split; [reflexivity |].
  unfold ComponentStore.len, ComponentStore.contains. simpl. fold s.
  unfold SparseSet.len. fold last.
  split; [done |]. split.
  { rewrite (contains_cell s' e ie) by (by rewrite Hh).
    rewrite Hcells, decide_True by done. reflexivity. }
  split; [unfold cs1; by destruct (ComponentStore.isEmptyComp cs) eqn:E |].
  split; [done |]. split; [| split].
  - intros j Hj. destruct (decide (j = i)) as [-> | Hji].
    + apply Hmoved. lia.
    + by apply Hother.
  - intros Hstd. specialize (Hcomp Hstd).
    unfold ComponentStore.comp_length in Hcomp. fold s in Hcomp.
    assert (Hc1 : ComponentStore.components cs1 =
                  <[Z.to_nat last := ComponentStore.CNull]>
                    (if decide (last = i) then ComponentStore.components cs
                     else <[Z.to_nat i :=
                              arr_get ComponentStore.CUndefined
                                      (ComponentStore.components cs) last]>
                            (ComponentStore.components cs))).
    { unfold cs1. rewrite Hstd. simpl. fold s. unfold SparseSet.len. fold last.
      destruct (Z.eqb_spec last i) as [E | N]; simpl.
      - rewrite decide_True by done. apply arr_set_in_range. lia.
      - rewrite decide_False by done.
        rewrite (arr_set_in_range _ _ i) by lia.
        apply arr_set_in_range. rewrite length_insert. lia. }
    rewrite Hc1. split.
    + intros j Hj. rewrite arr_get_insert_ne by lia.
      destruct (decide (last = i)) as [E | N].
      * rewrite decide_False by lia. done.
      * destruct (decide (j = i)) as [-> | Hji].
        -- apply arr_get_insert_eq. lia.
        -- apply arr_get_insert_ne; lia.
    + apply arr_get_insert_eq. destruct (decide (last = i)); [lia |].
      rewrite length_insert. lia.
  - intros x ix Hix Hxe.
    rewrite (index_cell s' x ix) by (by rewrite Hh).
    rewrite (index_cell s x ix) by done.
    rewrite Hcells, decide_False by done.
    destruct (wf_dense_at s last Hwf) as (il & Hil & Hcl & _); [lia |].
    destruct (decide (EntityHandle.index (SparseSet.entityHandler s)
                        (SparseSet.dense_read s last) = Ok ix)) as [E | N].
    + assert (il = ix) as -> by congruence.
      assert (i <> last).
      { intros ->. pose proof (wf_sparse_at s ie last Hwf Hcell Hi). congruence. }
      rewrite Hcl.
      unfold SparseSet.live_cell, SparseSet.TOMBSTONE. rewrite Hlen. fold last.
      destruct (Z.eqb_spec last (-1)); [lia |].
      destruct (Z.ltb_spec last (SparseSet.length s)); [| lia]. simpl.
      rewrite decide_True by done.
      destruct (Z.eqb_spec i (-1)); [lia |].
      destruct (Z.ltb_spec i last); [done | lia].
    + destruct (cell_of s ix) as [d |] eqn:Ecx.
      2:{ rewrite decide_False; [done |].
          unfold SparseSet.FAILED_OPERATION. intros [= ?]. lia. }
      assert (d <> last).
      { intros ->. apply N. apply wf_sparse_at; [done | done | lia]. }
      unfold SparseSet.live_cell, SparseSet.TOMBSTONE, SparseSet.FAILED_OPERATION.
      rewrite Hlen. fold last.
      destruct (Z.eqb_spec d (-1)); simpl.
      * rewrite decide_False; [done |]. intros [= ?]. lia.
      * destruct (Z.ltb_spec d (SparseSet.length s)), (Z.ltb_spec d last);
          try lia.
        -- rewrite decide_False; [done |]. congruence.
        -- rewrite decide_False; [done |]. intros [= ?]. lia.
Qed.

(** The S2 scenario, and the general statement behind it. *)

(** C4.  In the standard store holding [A, B, D] with payloads 1, 2, 3,
    [remove(B)] succeeds and leaves the dense order [A, D] with payloads
    [1, 3], [get(A) = 1], [get(D) = 3] and [B] absent.  In general, in a
    store that satisfies the invariants, removing a contained entity [e]
    at dense position [i] succeeds, makes [e] absent and shortens the
    store by one; every position below the new length keeps its entity
    and payload, except [i], which receives the entity and payload of the
    last position; the vacated payload cell is [null]; and every entity
    other than [e] keeps its dense index, except the last one, whose
    index becomes [i]. *)
Theorem swap_remove_coherence :
  (take 3 (ComponentStore.data Scenario.abd_store)
     = [Scenario.A; Scenario.B; Scenario.D] /\
   take 3 (ComponentStore.components Scenario.abd_store)
     = [ComponentStore.CObj 1; ComponentStore.CObj 2; ComponentStore.CObj 3] /\
   ComponentStore.len Scenario.abd_store = 3 /\
   let '(cs, r) := ComponentStore.remove Scenario.abd_store Scenario.B in
   r = Ok ComponentStore.SUCCESS_OPERATION /\
   ComponentStore.len cs = 2 /\
   take 2 (ComponentStore.data cs) = [Scenario.A; Scenario.D] /\
   take 2 (ComponentStore.components cs)
     = [ComponentStore.CObj 1; ComponentStore.CObj 3] /\
   ComponentStore.get cs Scenario.A = Ok (ComponentStore.CObj 1) /\
   ComponentStore.get cs Scenario.D = Ok (ComponentStore.CObj 3) /\
   ComponentStore.contains cs Scenario.B = Ok false) /\
  (forall (C A : Type) (cs : ComponentStore.ComponentStore C A) (e : jsval) (ie i : Z),
      store_wf cs ->
      ComponentStore.isEmptyComp cs = false ->
      EntityHandle.index (SparseSet.entityHandler (ComponentStore.set cs)) e = Ok ie ->
      SparseSet.index (ComponentStore.set cs) e = Ok i ->
      i <> SparseSet.FAILED_OPERATION ->
      exists cs',
        ComponentStore.remove cs e = (cs', Ok ComponentStore.SUCCESS_OPERATION) /\
        ComponentStore.len cs' = ComponentStore.len cs - 1 /\
        ComponentStore.contains cs' e = Ok false /\
        (forall j, 0 <= j < ComponentStore.len cs - 1 ->
            SparseSet.dense_read (ComponentStore.set cs') j =
            SparseSet.dense_read (ComponentStore.set cs)
              (if decide (j = i) then ComponentStore.len cs - 1 else j) /\
            arr_get ComponentStore.CUndefined (ComponentStore.components cs') j =
            arr_get ComponentStore.CUndefined (ComponentStore.components cs)
              (if decide (j = i) then ComponentStore.len cs - 1 else j)) /\
        arr_get ComponentStore.CUndefined (ComponentStore.components cs')
                (ComponentStore.len cs - 1) = ComponentStore.CNull /\
        (forall x ix,
            EntityHandle.index (SparseSet.entityHandler (ComponentStore.set cs)) x
              = Ok ix ->
            ix <> ie ->
            SparseSet.index (ComponentStore.set cs') x =
            if decide (SparseSet.index (ComponentStore.set cs) x
                       = Ok (ComponentStore.len cs - 1))
            then Ok i else SparseSet.index (ComponentStore.set cs) x)).
Proof.
  split.
  - vm_compute. repeat split; reflexivity.
  - intros C A cs e ie i Hwf Hstd Hie Hidx Hne.
    destruct (store_remove_contained cs e ie i Hwf Hie Hidx Hne)
      as (cs' & Hrem & Hlen & Hc & _ & _ & Hd & Hp & Hx).
    destruct (Hp Hstd) as [Hp1 Hp2].
    exists cs'. repeat split; try done.
    + by apply Hd.
    + by apply Hp1.
Qed.

(** ** SparseSet.swap on two live positions *)

Lemma wf_intro s :
  page_ok s ->
  0 <= SparseSet.length s <= SparseSet.capacity s ->
  (forall i, 0 <= i < SparseSet.length s -> dense_ok s i) ->
  (forall pi po d, lookup2 (SparseSet.sparse s) pi po = Some d -> cell_ok s pi po d) ->
  wf s.
Proof.
  intros Hp Hl Hd Hc. split; [done |]. split; [done |]. split.
  - apply Forall_forall. intros i Hi. apply Hd. by apply elem_of_positions.
  - intros pi page Hpage po d Hcell. apply Hc. unfold lookup2. by rewrite Hpage.
Qed.

Lemma wf_cell_at s pi po d :
  wf s -> lookup2 (SparseSet.sparse s) pi po = Some d -> cell_ok s pi po d.
Proof.
  intros (_ & _ & _ & Hc) Hl. unfold lookup2 in Hl.
  destruct (SparseSet.sparse s !! pi) as [page |] eqn:E; [| done].
  by apply (Hc pi page E po d).
Qed.

Lemma swap_live s d1 d2 :
  wf s ->
  0 <= d1 < SparseSet.length s -> 0 <= d2 < SparseSet.length s -> d1 <> d2 ->
  exists s',
    SparseSet.swap s (SparseSet.dense_read s d1) (SparseSet.dense_read s d2)
      = (s', Ok SparseSet.SUCCESS_OPERATION) /\
    wf s' /\
    SparseSet.length s' = SparseSet.length s /\
    SparseSet.entityHandler s' = SparseSet.entityHandler s /\
    SparseSet.dense_read s' d1 = SparseSet.dense_read s d2 /\
    SparseSet.dense_read s' d2 = SparseSet.dense_read s d1 /\
    (forall k, k <> d1 -> k <> d2 ->
               SparseSet.dense_read s' k = SparseSet.dense_read s k).
Proof.
  intros Hwf H1 H2 Hne.
  pose proof Hwf as (Hpage & Hlen & _ & _).
  destruct (wf_dense_at s d1 Hwf H1) as (i1 & Hi1 & Hc1 & Hs1).
  destruct (wf_dense_at s d2 Hwf H2) as (i2 & Hi2 & Hc2 & Hs2).
  set (a := SparseSet.dense_read s d1) in *.
  set (b := SparseSet.dense_read s d2) in *.
  assert (Hidx : i1 <> i2).
  { intros ->. apply Hne. by apply (wf_dense_inj s d1 d2 i2). }
  assert (Hab : strict_eq a b = false).
  { unfold strict_eq. apply bool_decide_eq_false. intros E. apply Hidx.
    rewrite E in Hi1. congruence. }
  unfold SparseSet.swap.
  destruct (Z.eqb_spec (SparseSet.length s) 0) as [| _]; [lia |].
  rewrite Hab. simpl.
  unfold SparseSet.pageIndex, SparseSet.pageOffset. rewrite Hi1, Hi2. simpl.
  pose proof Hc1 as Hc1'. pose proof Hc2 as Hc2'. unfold cell_of in Hc1', Hc2'.
  destruct (SparseSet.sparse s !! (i1 / SparseSet.pageSize s)) as [page1 |]; [| done].
  destruct (SparseSet.sparse s !! (i2 / SparseSet.pageSize s)) as [page2 |]; [| done].
  rewrite Hc1', Hc2'.
  unfold SparseSet.TOMBSTONE.
  destruct (Z.eqb_spec d1 (-1)); [lia |].
  destruct (Z.eqb_spec d2 (-1)); [lia |].
  destruct (Z.ltb_spec d1 0); [lia |].
  destruct (Z.leb_spec (SparseSet.length s) d1); [lia |].
  destruct (Z.ltb_spec d2 0); [lia |].
  destruct (Z.leb_spec (SparseSet.length s) d2); [lia |]. simpl.
  fold a b.
  rewrite dense_write_stored by (done || lia).
  rewrite dense_write_stored;
    [| done | unfold SparseSet.capacity in *; simpl; rewrite length_insert; lia].
  eexists. split; [reflexivity |]. simpl.
  set (s' := SparseSet.with_sparse _ _).
  assert (Hr1 : SparseSet.dense_read s' d1 = b).
  { unfold SparseSet.dense_read, s'. simpl.
    rewrite arr_get_insert_ne by lia. apply arr_get_insert_eq.
    unfold SparseSet.capacity in Hlen. lia. }
  assert (Hr2 : SparseSet.dense_read s' d2 = a).
  { unfold SparseSet.dense_read, s'. simpl. apply arr_get_insert_eq.
    rewrite length_insert. unfold SparseSet.capacity in Hlen. lia. }
  assert (Hrk : forall k, k <> d1 -> k <> d2 ->
                          SparseSet.dense_read s' k = SparseSet.dense_read s k).
  { intros k Hk1 Hk2. unfold SparseSet.dense_read, s'. simpl.
    rewrite !arr_get_insert_ne by lia. done. }
  assert (Hcells : forall idx,
             cell_of s' idx =
             if decide (idx = i2) then Some d1
             else if decide (idx = i1) then Some d2 else cell_of s idx).
  { intros idx. rewrite cell_of_lookup2. unfold s'. simpl.
    rewrite !lookup2_write_create.
    destruct (decide (idx = i2)) as [-> | N2].
    - by rewrite decide_True.
    - rewrite decide_False.
      2:{ intros [E1 E2]. apply N2. symmetry. by apply (slot_inj s Hpage). }
      destruct (decide (idx = i1)) as [-> | N1].
      + by rewrite decide_True.
      + rewrite decide_False; [done |].
        intros [E1 E2]. apply N1. symmetry. by apply (slot_inj s Hpage). }
  split; [| done].
  apply wf_intro.
  - exact Hpage.
  - unfold SparseSet.capacity, s' in *. simpl. rewrite !length_insert. lia.
  - intros i Hi. change (SparseSet.length s') with (SparseSet.length s) in Hi.
    unfold dense_ok.
    change (SparseSet.entityHandler s') with (SparseSet.entityHandler s).
    destruct (decide (i = d1)) as [-> | Nd1]; [| destruct (decide (i = d2)) as [-> | Nd2]].
    + rewrite Hr1, Hi2, Hcells, decide_True by done. done.
    + rewrite Hr2, Hi1, Hcells, decide_False, decide_True by done. done.
    + rewrite Hrk by done.
      destruct (wf_dense_at s i Hwf Hi) as (ii & Hii & Hci & Hsi).
      rewrite Hii, Hcells.
      rewrite !decide_False; [done | |].
      * intros ->. apply Nd1. by apply (wf_dense_inj s i d1 i1).
      * intros ->. apply Nd2. by apply (wf_dense_inj s i d2 i2).
  - intros pi po d Hl. unfold s' in Hl. simpl in Hl.
    rewrite !lookup2_write_create in Hl.
    unfold cell_ok.
    change (SparseSet.entityHandler s') with (SparseSet.entityHandler s).
    change (SparseSet.length s') with (SparseSet.length s).
    change (SparseSet.pageSize s') with (SparseSet.pageSize s).
    destruct (decide (_ /\ _)) as [[<- <-] | N2] in Hl.
    { injection Hl as <-. split; [lia |]. intros _. by rewrite Hr1, Hi2. }
    destruct (decide (_ /\ _)) as [[<- <-] | N1] in Hl.
    { injection Hl as <-. split; [lia |]. intros _. by rewrite Hr2, Hi1. }
    destruct (wf_cell_at s pi po d Hwf Hl) as [Hlow Hcell].
    split; [done |]. intros Hd. specialize (Hcell Hd).
    rewrite Hrk; [done | |].
    + intros ->. fold a in Hcell. rewrite Hi1 in Hcell. tauto.
    + intros ->. fold b in Hcell. rewrite Hi2 in Hcell. tauto.
Qed.

(** ** Insertion sort on lists *)

Section InsertionSort.
Context {X : Type} (cmp : X -> X -> Z).

Lemma insert_back_length x rl :
  Datatypes.length (insert_back cmp x rl) = S (Datatypes.length rl).
Proof.
  induction rl as [| y rl IH]; simpl; [done |].
  destruct (cmp x y <? 0); simpl; [by rewrite IH | done].
Qed.

Lemma insert_back_perm x rl : insert_back cmp x rl ≡ₚ x :: rl.
Proof.
  induction rl as [| y rl IH]; simpl; [done |].
  destruct (cmp x y <? 0); [| done].
  rewrite IH. apply perm_swap.
Qed.

Lemma insert_all_perm rl rest : insert_all cmp rl rest ≡ₚ reverse rl ++ rest.
Proof.
  revert rl. induction rest as [| x rest IH]; intros rl; simpl.
  - by rewrite app_nil_r.
  - rewrite IH, !reverse_Permutation, insert_back_perm.
    simpl. apply Permutation_middle.
Qed.

Lemma consistent_asym l a b :
  consistent_on cmp l -> a ∈ l -> b ∈ l -> cmp a b < 0 -> 0 <= cmp b a.
Proof.
  unfold consistent_on. rewrite Forall_forall. intros H Ha Hb.
  specialize (H a Ha). rewrite Forall_forall in H. by destruct (H b Hb).
Qed.

Lemma consistent_trans l a b c :
  consistent_on cmp l -> a ∈ l -> b ∈ l -> c ∈ l ->
  0 <= cmp b a -> 0 <= cmp c b -> 0 <= cmp c a.
Proof.
  unfold consistent_on. rewrite Forall_forall. intros H Ha Hb Hc.
  specialize (H a Ha). rewrite Forall_forall in H.
  destruct (H b Hb) as [_ H']. rewrite Forall_forall in H'. by apply H'.
Qed.

Lemma consistent_on_perm l l' :
  l ≡ₚ l' -> consistent_on cmp l -> consistent_on cmp l'.
Proof.
  intros Hp. unfold consistent_on. rewrite !Forall_forall.
  intros H a Ha. rewrite Forall_forall. intros b Hb.
  rewrite <- Hp in Ha, Hb. specialize (H a Ha). rewrite Forall_forall in H.
  destruct (H b Hb) as [H1 H2]. split; [done |].
  rewrite Forall_forall in *. intros c Hc. rewrite <- Hp in Hc. by apply H2.
Qed.

Lemma insert_back_sorted l x rl :
  consistent_on cmp l -> x ∈ l -> (forall z, z ∈ rl -> z ∈ l) ->
  StronglySorted (not_before cmp) (reverse rl) ->
  StronglySorted (not_before cmp) (reverse (insert_back cmp x rl)).
Proof.
  intros Hc Hx. induction rl as [| y rl IH]; intros Hin Hs; simpl.
  - rewrite reverse_singleton. repeat constructor.
  - rewrite reverse_cons in Hs. apply StronglySorted_app in Hs as (Hy & Hs & _).
    assert (Hyl : y ∈ l) by (apply Hin; left).
    assert (Hrl : forall z, z ∈ rl -> z ∈ l) by (intros z Hz; apply Hin; by right).
    destruct (Z.ltb_spec (cmp x y) 0) as [Hlt | Hge].
    + rewrite reverse_cons. apply StronglySorted_app_2.
      * intros z1 z2 H1 H2. apply list_elem_of_singleton in H2 as ->.
        rewrite elem_of_reverse, insert_back_perm in H1.
        apply elem_of_cons in H1 as [-> | H1].
        -- unfold not_before. by apply (consistent_asym l).
        -- apply Hy; [by rewrite elem_of_reverse | apply list_elem_of_singleton; done].
      * by apply IH.
      * repeat constructor.
    + rewrite !reverse_cons. apply StronglySorted_app_2.
      * intros z1 z2 H1 H2. apply list_elem_of_singleton in H2 as ->.
        apply elem_of_app in H1 as [H1 | H1].
        -- unfold not_before.
           assert (Hz1 : z1 ∈ l) by (apply Hrl; by rewrite <- elem_of_reverse).
           apply (consistent_trans l z1 y x); try done.
           apply (Hy z1 y); [done | by apply list_elem_of_singleton].
        -- apply list_elem_of_singleton in H1 as ->. done.
      * apply StronglySorted_app_2; [done | done | repeat constructor].
      * repeat constructor.
Qed.

Lemma insert_all_sorted l rl rest :
  consistent_on cmp l ->
  (forall z, z ∈ rl -> z ∈ l) -> (forall z, z ∈ rest -> z ∈ l) ->
  StronglySorted (not_before cmp) (reverse rl) ->
  StronglySorted (not_before cmp) (insert_all cmp rl rest).
Proof.
  intros Hc. revert rl. induction rest as [| x rest IH]; intros rl Hrl Hrest Hs; simpl.
  - done.
  - apply IH.
    + intros z Hz. rewrite insert_back_perm in Hz.
      apply elem_of_cons in Hz as [-> | Hz]; [apply Hrest; left | by apply Hrl].
    + intros z Hz. apply Hrest. by right.
    + apply (insert_back_sorted l); [done | apply Hrest; left | done | done].
Qed.
End InsertionSort.

Lemma consistent_on_fmap {X Y} (f : X -> Y) (cmp : Y -> Y -> Z) (l : list X) :
  consistent_on cmp (f <$> l) ->
  consistent_on (fun p q => cmp (f p) (f q)) l.
Proof.
  intros H.
  assert (Hin : forall a, a ∈ l -> f a ∈ f <$> l).
  { intros a Ha. apply list_elem_of_fmap. eauto. }
  unfold consistent_on. apply Forall_forall. intros a Ha.
  apply Forall_forall. intros b Hb. split.
  - apply (consistent_asym cmp (f <$> l)); auto.
  - apply Forall_forall. intros c Hc.
    apply (consistent_trans cmp (f <$> l)); auto.
Qed.

(** ** The loops of sortBasedComponent *)

Section SortLoops.
Context {C A : Type}.
Implicit Types cs : ComponentStore.ComponentStore C A.

Lemma pairs_length cs :
  Datatypes.length (pairs cs) = Z.to_nat (ComponentStore.len cs).
Proof. unfold pairs, positions. by rewrite !length_fmap, length_seq. Qed.

Lemma pairs_lookup cs (k : nat) :
  (k < Z.to_nat (ComponentStore.len cs))%nat ->
  pairs cs !! k =
  Some (SparseSet.dense_read (ComponentStore.set cs) (Z.of_nat k),
        arr_get ComponentStore.CUndefined (ComponentStore.components cs) (Z.of_nat k)).
Proof.
  intros Hk. unfold pairs, positions.
  rewrite !list_lookup_fmap, lookup_seq_lt by done. done.
Qed.

Lemma swapped_lookup {X} (l1 l2 : list X) x y (k : nat) :
  (l1 ++ x :: y :: l2) !! k =
  (l1 ++ y :: x :: l2) !!
    (if decide (k = Datatypes.length l1) then S (Datatypes.length l1)
     else if decide (k = S (Datatypes.length l1)) then Datatypes.length l1 else k).
Proof.
  destruct (decide (k = Datatypes.length l1)) as [-> | N1].
  - rewrite list_lookup_middle by done.
    rewrite lookup_app_r by lia.
    replace (S (Datatypes.length l1) - Datatypes.length l1)%nat with 1%nat by lia.
    reflexivity.
  - destruct (decide (k = S (Datatypes.length l1))) as [-> | N2].
    + rewrite (list_lookup_middle l1 (x :: l2) y) by done.
      rewrite lookup_app_r by lia.
      replace (S (Datatypes.length l1) - Datatypes.length l1)%nat with 1%nat by lia.
      reflexivity.
    + destruct (decide (k < Datatypes.length l1)%nat).
      * by rewrite !lookup_app_l by done.
      * rewrite !lookup_app_r by lia.
        destruct (k - Datatypes.length l1)%nat as [| [| m]] eqn:E; [lia | lia | done].
Qed.

Lemma sort_swap_spec cs l1 x y l2 :
  store_wf cs -> ComponentStore.isEmptyComp cs = false ->
  pairs cs = l1 ++ y :: x :: l2 ->
  exists cs',
    ComponentStore.sort_swap cs (Z.of_nat (S (Datatypes.length l1))) = (cs', Ok tt) /\
    store_wf cs' /\ ComponentStore.isEmptyComp cs' = false /\
    ComponentStore.len cs' = ComponentStore.len cs /\
    pairs cs' = l1 ++ x :: y :: l2.
Proof.
  intros [Hwf Hcomp] Hstd Hpairs. specialize (Hcomp Hstd).
  set (s := ComponentStore.set cs) in *.
  set (j := Z.of_nat (S (Datatypes.length l1))).
  assert (Hn : Z.to_nat (ComponentStore.len cs)
               = (Datatypes.length l1 + 2 + Datatypes.length l2)%nat).
  { rewrite <- pairs_length, Hpairs, length_app. simpl. lia. }
  assert (Hj : 1 <= j < SparseSet.length s).
  { unfold ComponentStore.len, SparseSet.len in Hn. fold s in Hn. lia. }
  destruct (swap_live s j (j - 1) Hwf) as (s' & Hswap & Hwf' & Hlen' & Hh' & Hr1 & Hr2 & Hrk);
    [lia | lia | lia |].
  unfold ComponentStore.sort_swap. simpl. fold s j. rewrite Hswap.
  eexists. split; [reflexivity |].
  set (comps := ComponentStore.components cs) in *.
  unfold ComponentStore.comp_length in Hcomp. fold comps in Hcomp.
  rewrite (arr_set_in_range _ comps j) by lia.
  rewrite arr_set_in_range by (rewrite length_insert; lia).
  split; [| split; [done | split; [done |]]].
  { split; [done |]. intros _. simpl.
    unfold ComponentStore.comp_length. simpl. rewrite !length_insert. lia. }
  apply list_eq. intros k.
  rewrite swapped_lookup, <- Hpairs.
  destruct (decide (k < Z.to_nat (ComponentStore.len cs))%nat) as [Hk | Hk].
  2:{ rewrite !lookup_ge_None_2; [done | |].
      - rewrite pairs_length. repeat case_decide; lia.
      - rewrite pairs_length. unfold ComponentStore.len. simpl.
        unfold SparseSet.len. rewrite Hlen'. exact (proj1 (Nat.nlt_ge _ _) Hk). }
  rewrite pairs_lookup
    by (unfold ComponentStore.len; simpl; unfold SparseSet.len; by rewrite Hlen').
  simpl.
  destruct (decide (k = Datatypes.length l1)) as [-> | N1].
  - rewrite pairs_lookup by lia. fold s comps.
    replace (Z.of_nat (Datatypes.length l1)) with (j - 1) by lia.
    replace (Z.of_nat (S (Datatypes.length l1))) with j by lia.
    rewrite Hr2. do 2 f_equal.
    apply arr_get_insert_eq. rewrite length_insert. lia.
  - destruct (decide (k = S (Datatypes.length l1))) as [-> | N2].
    + rewrite pairs_lookup by lia. fold s comps j.
      replace (Z.of_nat (Datatypes.length l1)) with (j - 1) by lia.
      rewrite Hr1. do 2 f_equal.
      rewrite arr_get_insert_ne by lia. apply arr_get_insert_eq. lia.
    + rewrite pairs_lookup by done. fold s comps.
      rewrite Hrk by lia. do 2 f_equal.
      rewrite !arr_get_insert_ne by lia. done.
Qed.

Variable cmp : ComponentStore.cell C -> ComponentStore.cell C -> Z.

Lemma sort_inner_spec rl : forall cs x post,
  store_wf cs -> ComponentStore.isEmptyComp cs = false ->
  pairs cs = reverse rl ++ x :: post ->
  exists cs',
    ComponentStore.sort_inner cmp cs (Datatypes.length rl) = (cs', Ok tt) /\
    store_wf cs' /\ ComponentStore.isEmptyComp cs' = false /\
    ComponentStore.len cs' = ComponentStore.len cs /\
    pairs cs' = reverse (insert_back (cmp_pairs cmp) x rl) ++ post.
Proof.
  induction rl as [| y rl IH]; intros cs x post Hwf Hstd Hpairs.
  - exists cs. split; [done |]. split; [done |]. split; [done |].
    split; [done |]. exact Hpairs.
  - rewrite reverse_cons, <- app_assoc in Hpairs. simpl in Hpairs.
    assert (Hn : Z.to_nat (ComponentStore.len cs)
                 = (Datatypes.length rl + 2 + Datatypes.length post)%nat).
    { rewrite <- pairs_length, Hpairs, length_app, length_reverse. simpl. lia. }
    assert (Hx : pairs cs !! S (Datatypes.length rl) = Some x).
    { rewrite Hpairs, lookup_app_r by (rewrite length_reverse; lia).
      rewrite length_reverse.
      replace (S (Datatypes.length rl) - Datatypes.length rl)%nat with 1%nat by lia.
      reflexivity. }
    assert (Hy : pairs cs !! Datatypes.length rl = Some y).
    { rewrite Hpairs. rewrite <- (length_reverse rl) at 1.
      by rewrite list_lookup_middle. }
    rewrite pairs_lookup in Hx, Hy by lia.
    injection Hx as Hx. injection Hy as Hy.
    assert (E : cmp (arr_get ComponentStore.CUndefined (ComponentStore.components cs)
                             (Z.of_nat (S (Datatypes.length rl))))
                    (arr_get ComponentStore.CUndefined (ComponentStore.components cs)
                             (Z.of_nat (S (Datatypes.length rl)) - 1))
                = (cmp_pairs cmp) x y).
    { unfold cmp_pairs. rewrite <- Hx, <- Hy. simpl. do 3 f_equal. lia. }
    cbn [Datatypes.length ComponentStore.sort_inner insert_back].
    rewrite E.
    destruct (Z.ltb_spec ((cmp_pairs cmp) x y) 0) as [Hlt | Hge].
    + destruct (sort_swap_spec cs (reverse rl) x y post Hwf Hstd Hpairs)
        as (cs1 & Hsw & Hwf1 & Hstd1 & Hlen1 & Hpairs1).
      rewrite length_reverse in Hsw. rewrite Hsw.
      destruct (IH cs1 x (y :: post) Hwf1 Hstd1 Hpairs1)
        as (cs2 & -> & Hwf2 & Hstd2 & Hlen2 & Hpairs2).
      exists cs2. split; [done |]. split; [done |]. split; [done |].
      split; [congruence |].
      by rewrite Hpairs2, reverse_cons, <- app_assoc.
    + exists cs. split; [done |]. split; [done |]. split; [done |].
      split; [done |].
      by rewrite Hpairs, !reverse_cons, <- !app_assoc.
Qed.

Lemma sort_outer_spec fuel : forall cs rl rest,
  store_wf cs -> ComponentStore.isEmptyComp cs = false ->
  pairs cs = reverse rl ++ rest ->
  (Datatypes.length rest <= fuel)%nat ->
  exists cs',
    ComponentStore.sort_outer cmp cs (Datatypes.length rl) fuel = (cs', Ok tt) /\
    store_wf cs' /\ ComponentStore.isEmptyComp cs' = false /\
    ComponentStore.len cs' = ComponentStore.len cs /\
    pairs cs' = insert_all (cmp_pairs cmp) rl rest.
Proof.
  induction fuel as [| fuel IH]; intros cs rl rest Hwf Hstd Hpairs Hfuel.
  - destruct rest; [| simpl in Hfuel; lia].
    exists cs. simpl. by rewrite Hpairs, app_nil_r.
  - assert (Hn : Z.to_nat (ComponentStore.len cs)
                 = (Datatypes.length rl + Datatypes.length rest)%nat).
    { by rewrite <- pairs_length, Hpairs, length_app, length_reverse. }
    cbn [ComponentStore.sort_outer].
    destruct rest as [| x rest].
    + destruct (Z.ltb_spec (Z.of_nat (Datatypes.length rl)) (ComponentStore.len cs));
        [simpl in Hn; lia |].
      exists cs. simpl. by rewrite Hpairs, app_nil_r.
    + destruct (Z.ltb_spec (Z.of_nat (Datatypes.length rl)) (ComponentStore.len cs));
        [| simpl in Hn; lia].
      destruct (sort_inner_spec rl cs x rest Hwf Hstd Hpairs)
        as (cs1 & -> & Hwf1 & Hstd1 & Hlen1 & Hpairs1).
      rewrite <- (insert_back_length (cmp_pairs cmp) x rl).
      destruct (IH cs1 (insert_back (cmp_pairs cmp) x rl) rest Hwf1 Hstd1 Hpairs1)
        as (cs2 & -> & Hwf2 & Hstd2 & Hlen2 & Hpairs2); [simpl in Hfuel; lia |].
      exists cs2. split; [done |]. split; [done |]. split; [done |].
      split; [congruence | done].
Qed.
End SortLoops.

(** ** C6: sort by component *)

Lemma dense_index_self s i :
  wf s -> 0 <= i < SparseSet.length s ->
  SparseSet.index s (SparseSet.dense_read s i) = Ok i.
Proof.
  intros Hwf Hi. destruct (wf_dense_at s i Hwf Hi) as (idx & Hidx & Hcell & _).
  rewrite (index_cell _ _ _ Hidx), Hcell.
  unfold SparseSet.live_cell, SparseSet.TOMBSTONE.
  destruct (Z.eqb_spec i (-1)); [lia |].
  destruct (Z.ltb_spec i (SparseSet.length s)); [done | lia].
Qed.

(** C6 (as amended).  For a standard store and every comparator: with at
    most one entity [sortBasedComponent] returns -1 and changes nothing;
    with more than one entity, in a store that satisfies the invariants,
    it returns 0 and reaches a store of the same length that satisfies the
    invariants, whose (entity, payload) pairs are those of the original
    store, and where the sparse cell of every [dense[i]] is [i].  The
    payloads are sorted by the comparator when the comparator is
    consistent on the stored payloads. *)
Theorem sort_by_component (C A : Type) (cs : ComponentStore.ComponentStore C A)
        (cmp : ComponentStore.cell C -> ComponentStore.cell C -> Z) :
  ComponentStore.isEmptyComp cs = false ->
  (ComponentStore.len cs <= 1 ->
   ComponentStore.sortBasedComponent cs cmp = (cs, Ok ComponentStore.FAILED_OPERATION)) /\
  (1 < ComponentStore.len cs -> store_wf cs ->
   exists cs',
     ComponentStore.sortBasedComponent cs cmp
       = (cs', Ok ComponentStore.SUCCESS_OPERATION) /\
     ComponentStore.len cs' = ComponentStore.len cs /\
     (consistent_on cmp (payloads cs) ->
      StronglySorted (not_before cmp) (payloads cs')) /\
     pairs cs' ≡ₚ pairs cs /\
     store_wf cs' /\
     (forall i, 0 <= i < ComponentStore.len cs' ->
        SparseSet.index (ComponentStore.set cs')
                        (SparseSet.dense_read (ComponentStore.set cs') i) = Ok i)).
Proof.
  intros Hstd. unfold ComponentStore.sortBasedComponent. rewrite Hstd. split.
  - intros Hle. by destruct (Z.leb_spec (ComponentStore.len cs) 1); [| lia].
  - intros Hlen Hwf.
    destruct (Z.leb_spec (ComponentStore.len cs) 1); [lia |].
    pose proof (pairs_length cs) as Hn.
    destruct (pairs cs) as [| p0 rest] eqn:Hpairs; [simpl in Hn; lia |].
    assert (Hp : pairs cs = reverse [p0] ++ rest) by (by rewrite Hpairs).
    destruct (sort_outer_spec cmp (Z.to_nat (ComponentStore.len cs)) cs [p0] rest
                Hwf Hstd Hp) as (cs' & Hrun & Hwf' & _ & Hlen' & Hpairs');
      [simpl in Hn; lia |].
    simpl in Hrun. rewrite Hrun.
    exists cs'. split; [done |]. split; [done |].
    split; [| split; [| split; [done |]]].
    + intros Hcons.
      assert (Hc : consistent_on (cmp_pairs cmp) (p0 :: rest)).
      { rewrite <- Hpairs. exact (consistent_on_fmap snd cmp (pairs cs) Hcons). }
      unfold payloads. rewrite Hpairs'.
      apply StronglySorted_fmap with (R1 := not_before (cmp_pairs cmp));
        [by intros ? ? ? |].
      apply (insert_all_sorted _ (p0 :: rest)); [done | | |].
      * intros z Hz. apply list_elem_of_singleton in Hz as ->. left.
      * intros z Hz. by right.
      * rewrite reverse_singleton. repeat constructor.
    + rewrite Hpairs', insert_all_perm. done.
    + intros i Hi. apply dense_index_self; [apply Hwf' | done].
Qed.

(** ** EntityStore: removal and reuse of a slot *)

Lemma round_double_le (z : Z) : 0 <= z <= 2 ^ 53 -> round_double z = z.
Proof.
  intros H. destruct (Z.eq_dec z (2 ^ 53)) as [-> | Hne]; [reflexivity |].
  apply round_double_small. lia.
Qed.

Lemma arr_get_app_l {X} (dflt : X) l l' k :
  0 <= k < Z.of_nat (Datatypes.length l) ->
  arr_get dflt (l ++ l') k = arr_get dflt l k.
Proof.
  intros Hk. unfold arr_get. destruct (Z.ltb_spec k 0); [done |].
  by rewrite lookup_app_l by lia.
Qed.

Lemma arr_get_take {X} (dflt : X) l n k :
  0 <= k < n -> arr_get dflt (take (Z.to_nat n) l) k = arr_get dflt l k.
Proof.
  intros Hk. unfold arr_get. destruct (Z.ltb_spec k 0); [done |].
  by rewrite lookup_take_lt by lia.
Qed.

Section CodecFacts.
Import EntityHandle.
Variable h : EntityHandle.
Hypothesis Hv : valid_handle h.
Hypothesis Hx : exact_fields h.

Lemma pow_index_le : 0 < 2 ^ indexBits h <= 2 ^ 53.
Proof using Hv Hx.
  destruct Hv as (? & ? & ?), Hx as [? ?].
  split; [apply Z.pow_pos_nonneg; lia | apply Z.pow_le_mono_r; lia].
Qed.

Lemma pow_version_le : 2 <= 2 ^ versionBits h <= 2 ^ 53.
Proof using Hv Hx.
  destruct Hv as (? & ? & ?), Hx as [? ?].
  split; [| apply Z.pow_le_mono_r; lia].
  change 2 with (2 ^ 1) at 1. apply Z.pow_le_mono_r; lia.
Qed.

(** Decoding gives fields within their widths. *)
Lemma index_range id i :
  index h id = Ok i -> 0 <= i < 2 ^ indexBits h.
Proof using Hv Hx.
  pose proof pow_index_le as Hp.
  unfold index. destruct (type h) eqn:Hty, id; try discriminate; intros [= <-].
  all: try (rewrite index32_spec by done; apply Z.mod_pos_bound; lia).
  rewrite index64_spec by done.
  assert (0 <= (n / 2 ^ versionBits h) mod 2 ^ indexBits h < 2 ^ indexBits h)
    by (apply Z.mod_pos_bound; lia).
  rewrite round_double_small; lia.
Qed.

Lemma version_range id v :
  version h id = Ok v -> 0 <= v < 2 ^ versionBits h.
Proof using Hv Hx.
  pose proof pow_version_le as Hp.
  unfold version. destruct (type h) eqn:Hty, id; try discriminate; intros [= <-].
  all: try (rewrite version32_spec by done; apply Z.mod_pos_bound; lia).
  rewrite version64_spec by done.
  assert (0 <= n mod 2 ^ versionBits h < 2 ^ versionBits h)
    by (apply Z.mod_pos_bound; lia).
  rewrite round_double_small; lia.
Qed.

Lemma make64_range i v : 0 <= make64 h i v < 2 ^ 64.
Proof using Hv.
  rewrite make64_spec by done.
  destruct Hv as (Hi & Hvb & Ht). unfold totalBits in Ht.
  assert (0 <= i mod 2 ^ indexBits h < 2 ^ indexBits h)
    by (apply Z.mod_pos_bound, Z.pow_pos_nonneg; lia).
  assert (0 <= v mod 2 ^ versionBits h < 2 ^ versionBits h)
    by (apply Z.mod_pos_bound, Z.pow_pos_nonneg; lia).
  assert (2 ^ indexBits h * 2 ^ versionBits h <= 2 ^ 64).
  { rewrite <- Z.pow_add_r by lia. apply Z.pow_le_mono_r; lia. }
  nia.
Qed.

(** The coercion of a typed array keeps both fields of a handle. *)
Lemma stored_handle_index st i v :
  index h (stored_handle st (make h i v)) = index h (make h i v).
Proof using Hv.
  unfold stored_handle, make, index.
  destruct (EntityStore.isTypedArray st); [| done].
  destruct (type h) eqn:Hty; f_equal.
  - rewrite !index32_spec by done. unfold ToUint32.
    by rewrite Z.mod_mod by lia.
  - f_equal. apply Z.mod_small, make64_range.
Qed.

Lemma stored_handle_version st i v :
  version h (stored_handle st (make h i v)) = version h (make h i v).
Proof using Hv.
  unfold stored_handle, make, version.
  destruct (EntityStore.isTypedArray st); [| done].
  destruct (type h) eqn:Hty; f_equal.
  - rewrite !version32_spec by done. unfold ToUint32.
    pose proof (number_bits h Hv Hty) as (_ & Hvb & _).
    apply Z.mod_mod_divide.
    exists (2 ^ (32 - versionBits h)). rewrite <- Z.pow_add_r by lia. f_equal. lia.
  - f_equal. apply Z.mod_small, make64_range.
Qed.

Lemma stored_handle_typed st i v : well_typed h (stored_handle st (make h i v)).
Proof using Type.
  unfold stored_handle, make, well_typed.
  destruct (EntityStore.isTypedArray st), (type h); done.
Qed.


Lemma bumped_version v :
  0 <= v < 2 ^ versionBits h ->
  round_double ((v + 1) mod 2 ^ versionBits h) = (v + 1) mod 2 ^ versionBits h /\
  (v + 1) mod 2 ^ versionBits h <> v /\
  num_add v 1 = v + 1.
Proof using Hv Hx.
  intros Hr. pose proof pow_version_le as Hp.
  assert (Hm : 0 <= (v + 1) mod 2 ^ versionBits h < 2 ^ versionBits h)
    by (apply Z.mod_pos_bound; lia).
  split; [apply round_double_small; lia |]. split.
  - destruct (Z.eq_dec (v + 1) (2 ^ versionBits h)) as [E | N].
    + rewrite E, Z.mod_same by lia. lia.
    + rewrite Z.mod_small by lia. lia.
  - unfold num_add. apply round_double_le. lia.
Qed.

Lemma make_index_exact i v :
  0 <= i < 2 ^ indexBits h -> index h (make h i v) = Ok i.
Proof using Hv Hx.
  intros Hi. pose proof pow_index_le.
  rewrite index_make by done. rewrite Z.mod_small by lia.
  rewrite round_double_small; [done | lia].
Qed.

Lemma make_version_exact i v :
  0 <= v < 2 ^ versionBits h -> version h (make h i v) = Ok v.
Proof using Hv Hx.
  intros Hr. pose proof pow_version_le.
  rewrite version_make by done. rewrite Z.mod_small by lia.
  rewrite round_double_small; [done | lia].
Qed.

Lemma make_version_mod i v :
  0 <= v < 2 ^ versionBits h ->
  version h (make h i (v + 1)) = Ok ((v + 1) mod 2 ^ versionBits h).
Proof using Hv Hx.
  intros Hr. rewrite version_make by done.
  by destruct (bumped_version v Hr) as [-> _].
Qed.
End CodecFacts.

Section StoreFacts.
Import EntityHandle.
Variable st : EntityStore.EntityStore.
Variable h : EntityHandle.
Hypothesis Hh : EntityStore.entityHandler st = h.
Hypothesis Hv : valid_handle h.
Hypothesis Hx : exact_fields h.

Lemma write_make i a b :
  0 <= i < Z.of_nat (Datatypes.length (EntityStore.entities st)) ->
  EntityStore.write st i (make h a b) =
  Ok (<[Z.to_nat i := stored_handle st (make h a b)]> (EntityStore.entities st)).
Proof using Hh.
  intros Hi. unfold EntityStore.write, stored_handle, make. rewrite Hh.
  destruct (EntityStore.isTypedArray st).
  - destruct (type h); simpl; by rewrite typed_set_in_range.
  - by rewrite arr_set_in_range.
Qed.

(** A write at any position: cells elsewhere are kept. *)
Lemma write_any i a b :
  exists l',
    EntityStore.write st i (make h a b) = Ok l' /\
    (Datatypes.length (EntityStore.entities st) <= Datatypes.length l')%nat /\
    (forall k, 0 <= k < Z.of_nat (Datatypes.length (EntityStore.entities st)) ->
               k <> i ->
               arr_get JUndefined l' k = arr_get JUndefined (EntityStore.entities st) k) /\
    (0 <= i < Z.of_nat (Datatypes.length (EntityStore.entities st)) ->
     arr_get JUndefined l' i = stored_handle st (make h a b)).
Proof using Hh.
  destruct (decide (0 <= i < Z.of_nat (Datatypes.length (EntityStore.entities st))))
    as [Hi | Hi].
  - eexists. split; [exact (write_make i a b Hi) |]. rewrite length_insert.
    split; [done |]. split.
    + intros k Hk Hne. apply arr_get_insert_ne; lia.
    + intros _. apply arr_get_insert_eq. lia.
  - unfold EntityStore.write, make. rewrite Hh.
    destruct (EntityStore.isTypedArray st).
    + exists (EntityStore.entities st).
      split.
      { destruct (type h); simpl; unfold typed_set;
          destruct (Z.leb_spec 0 i), (Z.ltb_spec i
            (Z.of_nat (Datatypes.length (EntityStore.entities st))));
          simpl; done || lia. }
      split; [done |]. split; [done | lia].
    + eexists. split; [reflexivity |].
      unfold arr_set. destruct (Z.ltb_spec i 0).
      { split; [done |]. split; [done | lia]. }
      destruct (Z.ltb_spec i (Z.of_nat (Datatypes.length (EntityStore.entities st))));
        [lia |].
      split; [rewrite length_app; lia |]. split; [| lia].
      intros k Hk _. by apply arr_get_app_l.
Qed.

(** A live, well-typed entity sits in its own cell. *)
Lemma alive_cell e :
  well_typed h e -> EntityStore.isAlive st e = Ok true ->
  exists idx v,
    index h e = Ok idx /\ version h e = Ok v /\
    0 <= idx < EntityStore.append_index st /\
    0 <= idx < 2 ^ indexBits h /\ 0 <= v < 2 ^ versionBits h /\
    EntityStore.entities st !! Z.to_nat idx = Some e.
Proof using Hh Hv Hx.
  intros Hty Ha.
  destruct (well_typed_decodes h e Hty) as (idx & v & Hi & Hver).
  exists idx, v. split; [done |]. split; [done |].
  unfold EntityStore.isAlive in Ha. rewrite Hh, Hi in Ha. simpl in Ha.
  injection Ha as Ha. apply andb_true_iff in Ha as [Hlt Heq].
  apply Z.ltb_lt in Hlt.
  pose proof (index_range h Hv Hx e idx Hi) as Hr.
  pose proof (version_range h Hv Hx e v Hver) as Hvr.
  split; [lia |]. split; [done |]. split; [done |].
  unfold strict_eq in Heq. apply bool_decide_eq_true in Heq.
  unfold EntityStore.read, arr_get in Heq.
  destruct (Z.ltb_spec idx 0); [lia |].
  destruct (EntityStore.entities st !! Z.to_nat idx) as [c |]; simpl in Heq.
  - by subst c.
  - subst e. unfold well_typed in Hty. by destruct (type h).
Qed.

Lemma remove_live e idx v :
  well_typed h e -> EntityStore.isAlive st e = Ok true ->
  index h e = Ok idx -> version h e = Ok v ->
  EntityStore.remove st e =
  (EntityStore.with_free_slot
     (EntityStore.with_entities st
        (<[Z.to_nat idx := stored_handle st (make h (EntityStore.free_slot st) (v + 1))]>
           (EntityStore.entities st)))
     idx,
   Ok tt).
Proof using Hh Hv Hx.
  intros Hty Ha Hi Hver.
  destruct (alive_cell e Hty Ha) as (idx' & v' & Hi' & Hver' & Hr & _ & Hvr & Hcell).
  assert (idx' = idx) as -> by congruence.
  assert (v' = v) as -> by congruence.
  unfold EntityStore.remove. rewrite Ha, Hh, Hi, Hver.
  destruct (bumped_version h Hv Hx v Hvr) as (_ & _ & ->).
  rewrite write_make; [done |].
  apply lookup_lt_Some in Hcell. lia.
Qed.

Lemma create_pops c nxt w :
  EntityStore.free_slot st <> -1 -> 0 <= EntityStore.free_slot st ->
  EntityStore.entities st !! Z.to_nat (EntityStore.free_slot st) = Some c ->
  index h c = Ok nxt -> version h c = Ok w ->
  EntityStore.create st =
  (EntityStore.with_free_slot
     (EntityStore.with_entities st
        (<[Z.to_nat (EntityStore.free_slot st) :=
             stored_handle st (make h (EntityStore.free_slot st) w)]>
           (EntityStore.entities st)))
     nxt,
   Ok (make h (EntityStore.free_slot st) w)).
Proof using Hh.
  intros Hne Hpos Hcell Hi Hver. unfold EntityStore.create.
  unfold EntityStore.IDX_SENTINEL.
  destruct (Z.eqb_spec (EntityStore.free_slot st) (-1)); [done |]. simpl.
  unfold EntityStore.read. rewrite (arr_get_lookup _ _ _ c) by done.
  rewrite Hh, Hver, Hi.
  rewrite write_make; [done |].
  apply lookup_lt_Some in Hcell. lia.
Qed.
End StoreFacts.

(** After [remove(e)] the entity is dead, and the next [create()] hands
    out its slot with the version that the removal stored there. *)
Lemma remove_then_create st e idx v :
  valid_handle (EntityStore.entityHandler st) ->
  exact_fields (EntityStore.entityHandler st) ->
  EntityHandle.well_typed (EntityStore.entityHandler st) e ->
  EntityStore.isAlive st e = Ok true ->
  EntityHandle.index (EntityStore.entityHandler st) e = Ok idx ->
  EntityHandle.version (EntityStore.entityHandler st) e = Ok v ->
  exists st1 st2,
    EntityStore.remove st e = (st1, Ok tt) /\
    EntityStore.isAlive st1 e = Ok false /\
    EntityStore.entityHandler st1 = EntityStore.entityHandler st /\
    EntityStore.create st1 =
      (st2, Ok (EntityHandle.make (EntityStore.entityHandler st) idx (v + 1))) /\
    EntityHandle.index (EntityStore.entityHandler st)
      (EntityHandle.make (EntityStore.entityHandler st) idx (v + 1)) = Ok idx /\
    EntityHandle.version (EntityStore.entityHandler st)
      (EntityHandle.make (EntityStore.entityHandler st) idx (v + 1))
      = Ok ((v + 1) mod 2 ^ EntityHandle.versionBits (EntityStore.entityHandler st)).
Proof.
  intros Hv Hx Hty Ha Hi Hver.
  set (h := EntityStore.entityHandler st) in *.
  destruct (alive_cell st h eq_refl Hv Hx e Hty Ha)
    as (idx' & v' & Hi' & Hver' & Hr & Hir & Hvr & Hcell).
  assert (idx' = idx) as -> by congruence.
  assert (v' = v) as -> by congruence. clear Hi' Hver'.
  destruct (bumped_version h Hv Hx v Hvr) as (Hb1 & Hb2 & _).
  rewrite (remove_live st h eq_refl Hv Hx e idx v Hty Ha Hi Hver).
  set (c := stored_handle st (EntityHandle.make h (EntityStore.free_slot st) (v + 1))).
  set (st1 := EntityStore.with_free_slot _ _).
  assert (Hlen : (Z.to_nat idx < Datatypes.length (EntityStore.entities st))%nat)
    by (by apply lookup_lt_Some in Hcell).
  assert (Hc1 : EntityStore.entities st1 !! Z.to_nat idx = Some c).
  { unfold st1. simpl. by apply list_lookup_insert_eq. }
  assert (Hcv : EntityHandle.version h c
                = Ok ((v + 1) mod 2 ^ EntityHandle.versionBits h)).
  { unfold c. rewrite stored_handle_version by done. by apply make_version_mod. }
  destruct (well_typed_decodes h c (stored_handle_typed h st _ _)) as (nxt & w & Hcn & Hcw).
  assert (w = (v + 1) mod 2 ^ EntityHandle.versionBits h) as -> by congruence.
  exists st1. eexists. split; [reflexivity |]. split; [| split; [done |]].
  { unfold EntityStore.isAlive. change (EntityStore.entityHandler st1) with h.
    rewrite Hi. simpl. f_equal. apply andb_false_iff. right.
    unfold strict_eq. apply bool_decide_eq_false.
    unfold EntityStore.read. rewrite (arr_get_lookup _ _ _ c) by (done || lia).
    intros ->. rewrite Hver in Hcv. congruence. }
  split; [| split; [by apply make_index_exact | by apply make_version_mod]].
  rewrite (create_pops st1 h eq_refl c nxt ((v + 1) mod 2 ^ EntityHandle.versionBits h));
    try done; try (unfold st1; simpl; lia).
  change (EntityStore.free_slot st1) with idx.
  f_equal. f_equal.
  rewrite (make_masks h idx (v + 1)) by done.
  rewrite (make_masks h idx ((v + 1) mod _)) by done.
  destruct Hv as (? & ? & ?). by rewrite Z.mod_mod by (apply Z.pow_nonzero; lia).
Qed.

(** ** C7: destroy *)

Section Destroy.
Context {C A : Type} `{!ComponentStore.Cloneable C}.
Implicit Types r : Registry.Registry C A.

Lemma removeAll_loop_purges (l : list (nat * ComponentStore.ComponentStore C A)) e :
  Forall (fun kcs =>
            store_wf (snd kcs) /\
            exists ie, EntityHandle.index
                         (SparseSet.entityHandler (ComponentStore.set (snd kcs))) e
                       = Ok ie) l ->
  exists l', Registry.removeAll_loop l e = (l', Ok tt) /\ Forall2 (purged e) l l'.
Proof.
  induction l as [| [k cs] l IH]; intros Hl.
  - exists []. split; [done | constructor].
  - apply Forall_cons in Hl as [[Hwf [ie Hie]] Hl]. simpl in Hwf, Hie.
    destruct (IH Hl) as (l' & Hrun & Hp).
    cbn [Registry.removeAll_loop]. unfold ComponentStore.contains at 1.
    rewrite (contains_cell _ _ _ Hie).
    destruct (SparseSet.live_cell _ _) eqn:Hlive.
    + assert (Hc : SparseSet.contains (ComponentStore.set cs) e = Ok true)
        by (by rewrite (contains_cell _ _ _ Hie), Hlive).
      destruct (contains_true_index _ _ _ Hie Hc) as (i & Hidx & Hne).
      destruct (store_remove_contained cs e ie i Hwf Hie Hidx Hne)
        as (cs' & Hrem & Hlen & Hcf & _).
      rewrite Hrem, Hrun. eexists. split; [reflexivity |].
      constructor; [| done].
      unfold purged. simpl. split; [done |]. split; [done |].
      rewrite bool_decide_eq_true_2; [done | exact Hc].
    + rewrite Hrun. eexists. split; [reflexivity |].
      constructor; [| done].
      unfold purged. simpl. split; [done |].
      assert (Hc : ComponentStore.contains cs e = Ok false)
        by (unfold ComponentStore.contains; by rewrite (contains_cell _ _ _ Hie), Hlive).
      split; [done |].
      rewrite bool_decide_eq_false_2; [done |]. by rewrite Hc.
Qed.

Lemma destroy_live r e :
  registry_wf r ->
  EntityHandle.well_typed (EntityStore.entityHandler (Registry.entities r)) e ->
  Registry.valid r e = Ok true ->
  exists r',
    Registry.destroy r e = (r', Ok tt) /\
    Registry.valid r' e = Ok false /\
    Forall2 (purged e) (Registry.components r) (Registry.components r').
Proof.
  intros (Hv & Hx & Hstores) Hty Hlive.
  set (h := EntityStore.entityHandler (Registry.entities r)) in *.
  destruct (well_typed_decodes h e Hty) as (idx & v & Hi & Hver).
  destruct (removeAll_loop_purges (Registry.components r) e) as (l' & Hloop & Hp).
  { eapply Forall_impl; [exact Hstores |]. intros kcs [Hwf Hh].
    split; [done |]. exists idx. by rewrite Hh. }
  destruct (remove_then_create (Registry.entities r) e idx v Hv Hx Hty Hlive Hi Hver)
    as (st1 & _ & Hrem & Hdead & _).
  unfold Registry.destroy, Registry.removeAll. rewrite Hlive.
  unfold Registry.valid in Hlive. rewrite Hlive, Hloop. simpl. rewrite Hrem.
  eexists. split; [reflexivity |]. split; [| done].
  unfold Registry.valid. simpl. exact Hdead.
Qed.

(** On a dead entity every operation that checks liveness raises and
    leaves the registry as it is. *)
Lemma dead_entity_raises r e :
  Registry.valid r e = Ok false ->
  (forall T CType args config,
      Registry.add r e T CType args config = (r, Throw EntityDoesNotExist)) /\
  (forall comps, Registry.addComps r e comps = (r, Throw EntityDoesNotExist)) /\
  (forall T args, Registry.replace r e T args = (r, Throw EntityDoesNotExist)) /\
  (forall T args, Registry.fetchReplace r e T args = (r, Throw EntityDoesNotExist)) /\
  (forall T, Registry.remove r e T = (r, Throw EntityDoesNotExist)) /\
  (forall T, Registry.removeIfExist r e T = (r, Throw EntityDoesNotExist)) /\
  Registry.removeAll r e = (r, Throw EntityDoesNotExist) /\
  (forall T, Registry.has r e T = Throw EntityDoesNotExist) /\
  (forall T, Registry.get r e T = Throw EntityDoesNotExist) /\
  (forall T, Registry.getConst r e T = Throw EntityDoesNotExist).
Proof.
  unfold Registry.valid. intros Hdead.
  unfold Registry.add, Registry.addComps, Registry.replace, Registry.fetchReplace,
    Registry.remove, Registry.removeIfExist, Registry.removeAll, Registry.has,
    Registry.get, Registry.getConst, Registry.checked.
  rewrite Hdead. repeat split.
Qed.
End Destroy.

(** C7 (as amended).  In a registry that satisfies the invariants,
    [destroy(e)] of a live entity removes [e] from every component store
    (each store keeps its key, no longer contains [e], and is shorter by
    one exactly when it contained [e]) and frees the slot, so [valid(e)]
    is false.  [destroy(e)] of a dead entity returns without raising and
    changes nothing.  Every other operation that changes state, and
    [has], [get] and [getConst], raise on a dead entity and change
    nothing; [tryGet] and [tryGetConst] never consult the entity store. *)
Theorem destroy_purges (C A : Type) `{!ComponentStore.Cloneable C}
        (r : Registry.Registry C A) (e : jsval) :
  (registry_wf r ->
   EntityHandle.well_typed (EntityStore.entityHandler (Registry.entities r)) e ->
   Registry.valid r e = Ok true ->
   exists r',
     Registry.destroy r e = (r', Ok tt) /\
     Registry.valid r' e = Ok false /\
     Forall2 (purged e) (Registry.components r) (Registry.components r')) /\
  (Registry.valid r e = Ok false ->
   Registry.destroy r e = (r, Ok tt) /\
   (forall T CType args config,
       Registry.add r e T CType args config = (r, Throw EntityDoesNotExist)) /\
   (forall comps, Registry.addComps r e comps = (r, Throw EntityDoesNotExist)) /\
   (forall T args, Registry.replace r e T args = (r, Throw EntityDoesNotExist)) /\
   (forall T args, Registry.fetchReplace r e T args = (r, Throw EntityDoesNotExist)) /\
   (forall T, Registry.remove r e T = (r, Throw EntityDoesNotExist)) /\
   (forall T, Registry.removeIfExist r e T = (r, Throw EntityDoesNotExist)) /\
   Registry.removeAll r e = (r, Throw EntityDoesNotExist) /\
   (forall T, Registry.has r e T = Throw EntityDoesNotExist) /\
   (forall T, Registry.get r e T = Throw EntityDoesNotExist) /\
   (forall T, Registry.getConst r e T = Throw EntityDoesNotExist)) /\
  (forall T es,
      Registry.tryGet (Registry.with_entities r es) e T = Registry.tryGet r e T /\
      Registry.tryGetConst (Registry.with_entities r es) e T
        = Registry.tryGetConst r e T).
Proof.
  split; [apply destroy_live |]. split.
  - intros Hdead. split; [| by apply dead_entity_raises].
    unfold Registry.destroy. by rewrite Hdead.
  - done.
Qed.

(** ** EntityStore: the versions issued at a slot *)

Section SlotVersions.
Import EntityHandle.
Variable h : EntityHandle.
Hypothesis Hv : valid_handle h.
Hypothesis Hx : exact_fields h.




End SlotVersions.

(** ** EntityStore: recycling a list of entities *)

Lemma create_n_snoc n : forall st st1 es st2 e,
  create_n n st = (st1, Ok es) ->
  EntityStore.create st1 = (st2, Ok e) ->
  create_n (S n) st = (st2, Ok (es ++ [e])).
Proof.
  induction n as [| n IH]; intros st st1 es st2 e Hn Hc.
  - simpl in Hn. injection Hn as <- <-. simpl. by rewrite Hc.
  - cbn [create_n] in Hn.
    destruct (EntityStore.create st) as [sta [ea |]] eqn:Ea; [| done].
    destruct (create_n n sta) as [stb [eb |]] eqn:Eb; [| done].
    injection Hn as <- <-.
    change (create_n (S (S n)) st) with
      (match EntityStore.create st with
       | (st1, Ok e) =>
         match create_n (S n) st1 with
         | (st2, Ok es) => (st2, Ok (e :: es))
         | (st2, Throw err) => (st2, Throw err)
         end
       | (st1, Throw err) => (st1, Throw err)
       end).
    rewrite Ea. by rewrite (IH sta stb eb st2 e Eb Hc).
Qed.

Section Recycling.
Import EntityHandle.
Variable h : EntityHandle.
Hypothesis Hv : valid_handle h.
Hypothesis Hx : exact_fields h.

Lemma recycle_all es : forall st,
  EntityStore.entityHandler st = h ->
  NoDup (index h <$> es) ->
  Forall (fun e => well_typed h e /\ EntityStore.isAlive st e = Ok true) es ->
  exists st1 st2,
    remove_all st es = (st1, Ok tt) /\
    create_n (Datatypes.length es) st1 = (st2, Ok (reverse (next_handle h <$> es))) /\
    EntityStore.entityHandler st2 = h /\
    EntityStore.isTypedArray st2 = EntityStore.isTypedArray st /\
    EntityStore.append_index st2 = EntityStore.append_index st /\
    (es <> [] -> EntityStore.free_slot st2 = link h (EntityStore.free_slot st)) /\
    (forall k : nat, (forall e, e ∈ es -> index h e <> Ok (Z.of_nat k)) ->
                     EntityStore.entities st2 !! k = EntityStore.entities st !! k).
Proof using Hv Hx.
  pose proof (pow_index_le h Hv Hx) as Hp.
  induction es as [| e1 rest IH]; intros st Hh Hnd Hall.
  - exists st, st. simpl. repeat split; done.
  - apply Forall_cons in Hall as [[Hty1 Hlive1] Hall].
    rewrite fmap_cons in Hnd. apply NoDup_cons in Hnd as [Hnotin Hnd].
    destruct (alive_cell st h Hh Hv Hx e1 Hty1 Hlive1)
      as (s1 & v1 & Hi1 & Hver1 & Hr1 & Hir & Hvr & Hcell1).
    pose proof (remove_live st h Hh Hv Hx e1 s1 v1 Hty1 Hlive1 Hi1 Hver1) as Hrem.
    set (c1 := stored_handle st (make h (EntityStore.free_slot st) (v1 + 1))) in *.
    set (sta := EntityStore.with_free_slot _ s1) in Hrem.
    assert (Hlen1 : (Z.to_nat s1 < Datatypes.length (EntityStore.entities st))%nat)
      by (by apply lookup_lt_Some in Hcell1).
    destruct (IH sta) as (stb & stc & Hra & Hcn & Hhc & Htc & Hac & Hfc & Hec).
    { done. }
    { done. }
    { rewrite Forall_forall in Hall |- *. intros e He.
      destruct (Hall e He) as [Hty Hlive]. split; [done |].
      destruct (alive_cell st h Hh Hv Hx e Hty Hlive)
        as (i & v & Hi & _ & Hr & _ & _ & Hcell).
      unfold EntityStore.isAlive. change (EntityStore.entityHandler sta) with
        (EntityStore.entityHandler st). rewrite Hh.
      rewrite Hi. simpl. f_equal. apply andb_true_iff.
      split; [apply Z.ltb_lt; simpl; lia |].
      unfold strict_eq. apply bool_decide_eq_true.
      unfold EntityStore.read. apply arr_get_lookup; [lia |]. simpl.
      rewrite list_lookup_insert_ne; [done |].
      intros E. apply Hnotin. rewrite Hi1.
      replace s1 with i by lia. rewrite <- Hi.
      apply list_elem_of_fmap. eauto. }
    assert (Hfs : EntityStore.free_slot stc = s1).
    { destruct rest as [| e2 rest'].
      - simpl in Hra, Hcn. injection Hra as <-. by injection Hcn as <-.
      - rewrite Hfc by done. unfold link. simpl.
        rewrite Z.mod_small by lia. apply round_double_small. lia. }
    assert (Hcc : EntityStore.entities stc !! Z.to_nat s1 = Some c1).
    { rewrite Hec.
      - simpl. by apply list_lookup_insert_eq.
      - intros e He E. apply Hnotin. rewrite Hi1.
        rewrite Z2Nat.id in E by lia. rewrite <- E.
        apply list_elem_of_fmap. eauto. }
    assert (Hcv : version h c1 = Ok ((v1 + 1) mod 2 ^ versionBits h)).
    { unfold c1. rewrite stored_handle_version by done. by apply make_version_mod. }
    assert (Hci : index h c1 = Ok (link h (EntityStore.free_slot st))).
    { unfold c1. rewrite stored_handle_index by done.
      by rewrite index_make by done. }
    pose proof (create_pops stc h Hhc c1 (link h (EntityStore.free_slot st))
                  ((v1 + 1) mod 2 ^ versionBits h)) as Hpop.
    rewrite Hfs in Hpop.
    specialize (Hpop ltac:(lia) ltac:(lia) Hcc Hci Hcv).
    assert (Hnext : make h s1 ((v1 + 1) mod 2 ^ versionBits h) = next_handle h e1).
    { unfold next_handle. rewrite Hi1, Hver1.
      rewrite (make_masks h s1 (v1 + 1)) by done.
      rewrite (make_masks h s1 ((v1 + 1) mod _)) by done.
      destruct Hv as (? & ? & ?). by rewrite Z.mod_mod by (apply Z.pow_nonzero; lia). }
    rewrite Hnext in Hpop.
    exists stb. eexists. split.
    { cbn [remove_all]. rewrite Hrem. exact Hra. }
    split.
    { cbn [Datatypes.length]. rewrite (create_n_snoc _ _ _ _ _ _ Hcn Hpop).
      by rewrite fmap_cons, reverse_cons. }
    simpl. split; [done |]. split; [by rewrite Htc |]. split; [by rewrite Hac |].
    split; [done |].
    intros k Hk.
    assert (Hks : k <> Z.to_nat s1).
    { intros ->. apply (Hk e1); [left |]. rewrite Hi1. f_equal. lia. }
    rewrite list_lookup_insert_ne by done.
    rewrite Hec by (intros e He; apply Hk; by right).
    simpl. by rewrite list_lookup_insert_ne.
Qed.
End Recycling.

(** ** C3: versions of a recycled slot *)


(** * Further properties of the engine *)

(** ** EntityHandle *)

Lemma fields_unique (a b a' b' n : Z) :
  0 <= n -> 0 <= b < 2 ^ n -> 0 <= b' < 2 ^ n ->
  a * 2 ^ n + b = a' * 2 ^ n + b' -> a = a' /\ b = b'.
Proof.
  intros Hn Hb Hb' E.
  assert (a = a').
  { rewrite <- (field_div_mod a b n 0), <- (field_div_mod a' b' n 0) by done.
    by rewrite E. }
  subst a'. lia.
Qed.

(** X1.  Two handles built by [make] are equal ([equals], [===]) exactly
    when their index arguments agree modulo [2 ^ indexBits] and their
    version arguments agree modulo [2 ^ versionBits]. *)
Theorem handle_equality (h : EntityHandle.EntityHandle) (i v i' v' : Z) :
  valid_handle h ->
  EntityHandle.equals (EntityHandle.make h i v) (EntityHandle.make h i' v') = true <->
  i mod 2 ^ EntityHandle.indexBits h = i' mod 2 ^ EntityHandle.indexBits h /\
  v mod 2 ^ EntityHandle.versionBits h = v' mod 2 ^ EntityHandle.versionBits h.
Proof.
  intros Hv. unfold EntityHandle.equals, strict_eq.
  rewrite bool_decide_eq_true. split.
  - pose proof Hv as (Hi & Hvb & _).
    assert (Hb : forall x, 0 <= x mod 2 ^ EntityHandle.versionBits h
                           < 2 ^ EntityHandle.versionBits h)
      by (intros x; apply Z.mod_pos_bound, Z.pow_pos_nonneg; lia).
    unfold EntityHandle.make. destruct (EntityHandle.type h) eqn:Hty.
    + intros [= E]. apply (f_equal (fun z => z mod 2 ^ 32)) in E.
      rewrite !make32_mod in E by done.
      apply fields_unique in E; [done | lia | apply Hb | apply Hb].
    + intros [= E]. rewrite !make64_spec in E by done.
      apply fields_unique in E; [done | lia | apply Hb | apply Hb].
  - intros [Ei Ev].
    rewrite (make_masks h i v), (make_masks h i' v') by done.
    by rewrite Ei, Ev.
Qed.

(** X2.  For a codec whose fields have at most 53 bits, whatever value is
    decoded, [index] and [version] return numbers inside their field
    widths; and encoding the two decoded fields of a handle built by [make]
    gives the handle back. *)
Theorem decoded_fields_in_range (h : EntityHandle.EntityHandle) (id : jsval) :
  valid_handle h -> exact_fields h ->
  (forall i, EntityHandle.index h id = Ok i -> 0 <= i < 2 ^ EntityHandle.indexBits h) /\
  (forall v, EntityHandle.version h id = Ok v ->
             0 <= v < 2 ^ EntityHandle.versionBits h) /\
  (forall a b i v,
      id = EntityHandle.make h a b ->
      EntityHandle.index h id = Ok i -> EntityHandle.version h id = Ok v ->
      EntityHandle.make h i v = id).
Proof.
  intros Hv Hx. split; [| split].
  - intros i. apply (index_range h Hv Hx).
  - intros v. apply (version_range h Hv Hx).
  - intros a b i v -> Hi Hver.
    pose proof (index_range h Hv Hx _ _ Hi) as Hir.
    pose proof (version_range h Hv Hx _ _ Hver) as Hvr.
    rewrite index_make in Hi by done. rewrite version_make in Hver by done.
    injection Hi as Hi. injection Hver as Hver.
    pose proof Hv as (Hib & Hvb & _).
    pose proof (pow_index_le h Hv Hx). pose proof (pow_version_le h Hv Hx).
    assert (0 <= a mod 2 ^ EntityHandle.indexBits h < 2 ^ EntityHandle.indexBits h)
      by (apply Z.mod_pos_bound; lia).
    assert (0 <= b mod 2 ^ EntityHandle.versionBits h < 2 ^ EntityHandle.versionBits h)
      by (apply Z.mod_pos_bound; lia).
    rewrite round_double_small in Hi by lia.
    rewrite round_double_small in Hver by lia.
    rewrite (make_masks h a b) by done. by rewrite Hi, Hver.
Qed.

(** ** EntityStore *)

Section Number32Value.
Import EntityHandle.
Variable h : EntityHandle.
Hypothesis Hv : valid_handle h.
Hypothesis Hty : type h = Number.

(** The number that [make] returns with the Number layout: the two
    fields side by side, read as a signed 32-bit integer. *)
Lemma make32_value i v :
  make32 h i v =
  ToInt32 ((i mod 2 ^ indexBits h) * 2 ^ versionBits h + v mod 2 ^ versionBits h).
Proof using Hv Hty.
  pose proof (number_bits h Hv Hty) as (Hi & Hvb & Ht).
  unfold make32, indexMask32, versionMask32.
  rewrite !and32_mask by lia.
  set (a := i mod 2 ^ indexBits h). set (b := v mod 2 ^ versionBits h).
  assert (Ha : 0 <= a < 2 ^ indexBits h) by (apply Z.mod_pos_bound, Z.pow_pos_nonneg; lia).
  assert (Hb : 0 <= b < 2 ^ versionBits h) by (apply Z.mod_pos_bound, Z.pow_pos_nonneg; lia).
  assert (Hi31 : 2 ^ indexBits h <= 2 ^ 31) by (apply Z.pow_le_mono_r; lia).
  assert (Hv31 : 2 ^ versionBits h <= 2 ^ 31) by (apply Z.pow_le_mono_r; lia).
  assert (Hpv : 0 < 2 ^ versionBits h) by (apply Z.pow_pos_nonneg; lia).
  assert (Hsplit : 2 ^ 32 = 2 ^ (32 - versionBits h) * 2 ^ versionBits h).
  { rewrite <- Z.pow_add_r by lia. f_equal. lia. }
  assert (Hab : 0 <= a * 2 ^ versionBits h + b < 2 ^ 32).
  { assert (2 ^ indexBits h * 2 ^ versionBits h <= 2 ^ 32).
    { rewrite <- Z.pow_add_r by lia. apply Z.pow_le_mono_r; lia. }
    nia. }
  unfold or32, shl32. rewrite (shift_count_32 h Hv Hty).
  rewrite (ToInt32_small a), (ToInt32_small b) by lia.
  rewrite Z.shiftl_mul_pow2 by lia.
  destruct (Z.lt_ge_cases (a * 2 ^ versionBits h) (2 ^ 31)) as [Hlo | Hhi].
  - rewrite !(ToInt32_small (a * 2 ^ versionBits h)) by lia.
    rewrite lor_shifted_add by lia.
    symmetry. apply ToInt32_small.
    assert (a + 1 <= 2 ^ (31 - versionBits h)).
    { assert (a < 2 ^ (31 - versionBits h)); [| lia].
      apply (Z.mul_lt_mono_pos_r (2 ^ versionBits h)); [lia |].
      rewrite <- Z.pow_add_r by lia.
      replace (31 - versionBits h + versionBits h) with 31 by lia. lia. }
    assert (2 ^ 31 = 2 ^ (31 - versionBits h) * 2 ^ versionBits h).
    { rewrite <- Z.pow_add_r by lia. f_equal. lia. }
    nia.
  - assert (E1 : ToInt32 (a * 2 ^ versionBits h)
                 = (a - 2 ^ (32 - versionBits h)) * 2 ^ versionBits h).
    { unfold ToInt32.
      replace (a * 2 ^ versionBits h + 2 ^ 31)
        with ((a * 2 ^ versionBits h - 2 ^ 31) + 1 * 2 ^ 32) by lia.
      rewrite Z.mod_add by lia. rewrite Z.mod_small by lia. lia. }
    assert (Hr : - 2 ^ 31 <= ToInt32 (a * 2 ^ versionBits h) < 2 ^ 31).
    { unfold ToInt32.
      pose proof (Z.mod_pos_bound (a * 2 ^ versionBits h + 2 ^ 31) (2 ^ 32)). lia. }
    rewrite (ToInt32_small (ToInt32 _)) by exact Hr.
    rewrite E1, lor_shifted_add by lia.
    unfold ToInt32.
    replace (a * 2 ^ versionBits h + b + 2 ^ 31)
      with ((a * 2 ^ versionBits h + b - 2 ^ 31) + 1 * 2 ^ 32) by lia.
    rewrite Z.mod_add by lia. rewrite Z.mod_small by lia. lia.
Qed.

(** With fewer than 32 bits in total a handle is not negative, so a
    [Uint32Array] stores it unchanged. *)
Lemma make32_fits i v : totalBits h < 32 -> ToUint32 (make32 h i v) = make32 h i v.
Proof using Hv Hty.
  intros Hlt. pose proof (number_bits h Hv Hty) as (Hi & Hvb & Ht).
  unfold totalBits in Hlt.
  rewrite make32_value.
  set (a := i mod 2 ^ indexBits h). set (b := v mod 2 ^ versionBits h).
  assert (Ha : 0 <= a < 2 ^ indexBits h) by (apply Z.mod_pos_bound, Z.pow_pos_nonneg; lia).
  assert (Hb : 0 <= b < 2 ^ versionBits h) by (apply Z.mod_pos_bound, Z.pow_pos_nonneg; lia).
  assert (2 ^ indexBits h * 2 ^ versionBits h <= 2 ^ 31).
  { rewrite <- Z.pow_add_r by lia. apply Z.pow_le_mono_r; lia. }
  rewrite ToInt32_small by nia.
  unfold ToUint32. apply Z.mod_small. nia.
Qed.
End Number32Value.

Section StoreExtras.
Import EntityHandle.

Lemma not_alive_below_zero st e :
  valid_handle (EntityStore.entityHandler st) ->
  exact_fields (EntityStore.entityHandler st) ->
  EntityStore.append_index st <= 0 ->
  EntityStore.isAlive st e <> Ok true.
Proof.
  intros Hv Hx Ha. unfold EntityStore.isAlive.
  destruct (index _ e) as [i |] eqn:Hi; [| done]. simpl.
  pose proof (index_range _ Hv Hx _ _ Hi).
  destruct (Z.ltb_spec i (EntityStore.append_index st)); [lia | done].
Qed.

(** X3.  [new EntityStore(config)] raises "Entity Handler missing" without
    a handler.  With a handler, the capacity is the configured one, or 1000
    when that is missing or not positive; the constructor raises a
    RangeError when the capacity exceeds the largest length of the kind of
    array asked for (the engine's limit for a typed array), and otherwise
    returns a store with no slot in use: the backing array has
    that many cells, the free list is empty, an iterator returns [null] at
    once, and (for a valid codec with fields of at most 53 bits) no handle
    is alive. *)
Theorem new_store_is_empty (config : EntityStore.EntityStoreOptions) :
  let capacity :=
    match EntityStore.opt_capacity config with
    | Some c => if c <=? 0 then 1000 else c
    | None => 1000
    end in
  let isTyped := default true (EntityStore.opt_isTyped config) in
  (EntityStore.opt_handler config = None ->
   EntityStore.new config = Throw HandlerMissing) /\
  (forall h, EntityStore.opt_handler config = Some h ->
     (max_length isTyped < capacity -> EntityStore.new config = Throw RangeError) /\
     (capacity <= max_length isTyped ->
      exists st,
        EntityStore.new config = Ok st /\
        EntityStore.entityHandler st = h /\
        EntityStore.append_index st = 0 /\
        EntityStore.free_slot st = -1 /\
        EntityStore.cap st = capacity /\
        Z.of_nat (Datatypes.length (EntityStore.entities st)) = EntityStore.cap st /\
        store_inv st /\
        EntityStore.Iterator.next st 0 = (0, Ok None) /\
        (valid_handle h -> exact_fields h ->
         forall e, EntityStore.isAlive st e <> Ok true))).
Proof.
  intros c ty. split.
  - intros E. unfold EntityStore.new. by rewrite E.
  - intros h E. unfold EntityStore.new. rewrite E. fold c ty.
    assert (Hc : 0 < c).
    { unfold c. destruct (EntityStore.opt_capacity config) as [c0 |]; [| lia].
      destruct (Z.leb_spec c0 0); lia. }
    split; intros Hmax.
    { by rewrite alloc_ok_false. }
    rewrite alloc_ok_true by lia. simpl.
    eexists. split; [reflexivity |]. simpl.
    split; [done |]. split; [done |]. split; [done |]. split; [done |].
    split; [rewrite length_replicate; lia |].
    split.
    { unfold store_inv. simpl. rewrite length_replicate.
      split; [lia |]. split; [lia | by left]. }
    split; [done |].
    intros Hv Hx e. by apply not_alive_below_zero.
Qed.

(** The array that [create()] appends to, after the doubling when
    [append_index] has reached [cap - 1]. *)
Lemma grown_spec st st1 :
  store_inv st ->
  (if EntityStore.append_index st =? EntityStore.cap st - 1
   then if negb (EntityStore.resizable st) then Throw CapacityExceeded
        else EntityStore.grow st
   else Ok st) = Ok st1 ->
  EntityStore.entityHandler st1 = EntityStore.entityHandler st /\
  EntityStore.append_index st1 = EntityStore.append_index st /\
  EntityStore.free_slot st1 = EntityStore.free_slot st /\
  EntityStore.isTypedArray st1 = EntityStore.isTypedArray st /\
  EntityStore.append_index st1 + 1 <= EntityStore.cap st1 - 1 /\
  EntityStore.cap st1 <= Z.of_nat (Datatypes.length (EntityStore.entities st1)) /\
  EntityStore.cap st <= EntityStore.cap st1 /\
  (forall k, 0 <= k < EntityStore.cap st ->
             EntityStore.read st1 k = EntityStore.read st k).
Proof.
  intros (Happ & Hcap & _).
  destruct (Z.eqb_spec (EntityStore.append_index st) (EntityStore.cap st - 1)) as [E | N].
  - destruct (EntityStore.resizable st); simpl; [| done].
    unfold EntityStore.grow.
    destruct (alloc_ok (EntityStore.isTypedArray st) (EntityStore.cap st * 2))
      eqn:Hvl; simpl; [| done].
    apply alloc_ok_nonneg in Hvl.
    destruct (EntityStore.isTypedArray st) eqn:Hty.
    + destruct (Z.ltb_spec (EntityStore.cap st * 2)
                  (Z.of_nat (Datatypes.length (EntityStore.entities st)))); [done |].
      intros [= <-]. simpl.
      split; [done |]. split; [done |]. split; [done |]. split; [done |].
      split; [lia |].
      split; [rewrite length_app, length_replicate; lia |]. split; [lia |].
      intros k Hk. unfold EntityStore.read. simpl. apply arr_get_app_l. lia.
    + intros [= <-]. simpl.
      split; [done |]. split; [done |]. split; [done |]. split; [done |].
      split; [lia |].
      split.
      { unfold arr_resize. rewrite length_app, length_take, length_replicate. lia. }
      split; [lia |].
      intros k Hk. unfold EntityStore.read, arr_resize. simpl.
      rewrite arr_get_app_l by (rewrite length_take; lia).
      apply arr_get_take. lia.
  - intros [= <-]. repeat split; try done; lia.
Qed.

(** The append branch of [create()]. *)
Lemma create_fresh_spec (st : EntityStore.EntityStore) (h : EntityHandle) st' e :
  EntityStore.entityHandler st = h ->
  valid_handle h -> exact_fields h -> store_inv st ->
  EntityStore.free_slot st = -1 ->
  EntityStore.append_index st < 2 ^ indexBits h ->
  EntityStore.create st = (st', Ok e) ->
  e = make h (EntityStore.append_index st) 0 /\
  index h e = Ok (EntityStore.append_index st) /\
  version h e = Ok 0 /\
  EntityStore.append_index st' = EntityStore.append_index st + 1 /\
  EntityStore.free_slot st' = -1 /\
  store_inv st' /\
  EntityStore.isAlive st' e = Ok (bool_decide (stored_handle st e = e)) /\
  (EntityStore.isTypedArray st = false \/ type h = BigInt \/ totalBits h < 32 ->
   EntityStore.isAlive st' e = Ok true) /\
  (forall x, EntityStore.isAlive st x = Ok true ->
             EntityStore.isAlive st' x = Ok true).
Proof.
  intros Hh Hv Hx Hst Hf Hbound.
  pose proof Hst as (Happ & Hcap & _).
  pose proof (pow_index_le h Hv Hx) as Hpi.
  unfold EntityStore.create, EntityStore.IDX_SENTINEL.
  rewrite Hf. simpl.
  destruct (strict_eq _ _); [done |].
  set (grown := if EntityStore.append_index st =? EntityStore.cap st - 1 then _ else _).
  destruct grown as [st1 |] eqn:Hg; [| done].
  destruct (grown_spec st st1 Hst Hg)
    as (Hh1 & Ha1 & Hf1 & Hty1 & Hc1 & Hl1 & Hcc & Hr1).
  rewrite Hh in Hh1. rewrite Hh1.
  destruct (write_any st1 h Hh1 (EntityStore.append_index st1)
              (EntityStore.append_index st1) 0)
    as (l' & -> & Hlen & Hother & Hsame).
  intros [= <- <-]. rewrite Ha1 in *.
  assert (Hidx : index h (make h (EntityStore.append_index st) 0)
                 = Ok (EntityStore.append_index st))
    by (apply make_index_exact; done || lia).
  assert (Halive : EntityStore.isAlive
              (EntityStore.with_append_index (EntityStore.with_entities st1 l')
                 (EntityStore.append_index st + 1))
              (make h (EntityStore.append_index st) 0)
            = Ok (bool_decide (stored_handle st (make h (EntityStore.append_index st) 0)
                               = make h (EntityStore.append_index st) 0))).
  { unfold EntityStore.isAlive. simpl. rewrite Hh1, Hidx. simpl. f_equal.
    destruct (Z.ltb_spec (EntityStore.append_index st)
                (EntityStore.append_index st + 1)); [| lia].
    simpl. unfold strict_eq, EntityStore.read. simpl.
    rewrite Hsame by lia. unfold stored_handle. by rewrite Hty1. }
  split; [done |]. split; [done |].
  split; [apply make_version_exact; done || (pose proof (pow_version_le h Hv Hx); lia) |].
  split; [done |]. split; [simpl; congruence |].
  split.
  { unfold store_inv. simpl. split; [lia |]. split; [lia |]. left. congruence. }
  split; [exact Halive |].
  split.
  { intros Hcase. rewrite Halive. f_equal. apply bool_decide_eq_true.
    unfold stored_handle, make.
    destruct (EntityStore.isTypedArray st) eqn:Hty; [| done].
    destruct (type h) eqn:Hth.
    - f_equal. unfold ToUint32.
      destruct Hcase as [? | [? | Hlt]]; [done | done |].
      pose proof (number_bits h Hv Hth) as (Hib & Hvb & Htot).
      apply make32_fits; done.
    - f_equal. apply Z.mod_small, make64_range. done. }
  intros x Hx'. unfold EntityStore.isAlive in *. simpl.
  rewrite Hh in Hx'. rewrite Hh1.
  destruct (index h x) as [ix |] eqn:Hix; [| done]. simpl in *.
  injection Hx' as Hx'. apply andb_true_iff in Hx' as [Hlt Heq].
  apply Z.ltb_lt in Hlt.
  pose proof (index_range h Hv Hx _ _ Hix) as Hir.
  f_equal. apply andb_true_iff. split; [apply Z.ltb_lt; lia |].
  unfold EntityStore.read in *. simpl.
  rewrite Hother by lia.
  specialize (Hr1 ix ltac:(lia)). unfold EntityStore.read in Hr1. by rewrite Hr1.
Qed.

(** X4.  [create()] on a store whose free list is empty appends: the
    handle returned encodes the slot [append_index] with version 0,
    [append_index] grows by one, and every entity that was alive stays
    alive.  The new handle is alive exactly when the backing array stores
    it unchanged: always for an untyped array, a BigInt codec, or a Number
    codec of fewer than 32 bits.  The call succeeds whenever [append_index]
    is below [cap - 1] and differs from [INVALID_IDX]. *)
Theorem create_appends (st : EntityStore.EntityStore) (h : EntityHandle) :
  EntityStore.entityHandler st = h ->
  valid_handle h -> exact_fields h -> store_inv st ->
  EntityStore.free_slot st = -1 ->
  EntityStore.append_index st < 2 ^ indexBits h ->
  (forall st' e,
      EntityStore.create st = (st', Ok e) ->
      e = make h (EntityStore.append_index st) 0 /\
      index h e = Ok (EntityStore.append_index st) /\
      version h e = Ok 0 /\
      EntityStore.append_index st' = EntityStore.append_index st + 1 /\
      EntityStore.free_slot st' = -1 /\
      store_inv st' /\
      EntityStore.isAlive st' e = Ok (bool_decide (stored_handle st e = e)) /\
      (EntityStore.isTypedArray st = false \/ type h = BigInt \/ totalBits h < 32 ->
       EntityStore.isAlive st' e = Ok true) /\
      (forall x, EntityStore.isAlive st x = Ok true ->
                 EntityStore.isAlive st' x = Ok true)) /\
  (EntityStore.append_index st < EntityStore.cap st - 1 ->
   JNumber (EntityStore.append_index st) <> EntityStore.INVALID_IDX st ->
   exists st' e, EntityStore.create st = (st', Ok e)).
Proof.
  intros Hh Hv Hx Hst Hf Hbound. split.
  - intros st' e Hc. by apply create_fresh_spec.
  - intros Hlt Hne.
    pose proof Hst as (Happ & Hcap & _).
    unfold EntityStore.create, EntityStore.IDX_SENTINEL.
    rewrite Hf. simpl.
    unfold strict_eq. rewrite bool_decide_eq_false_2 by done.
    destruct (Z.eqb_spec (EntityStore.append_index st) (EntityStore.cap st - 1)); [lia |].
    destruct (write_any st h Hh (EntityStore.append_index st)
                (EntityStore.append_index st) 0)
      as (l' & Hw & _).
    rewrite Hh, Hw. eauto.
Qed.

(** X5.  [remove(e)] is guarded by [isAlive]: for a handle that is not
    alive it raises "Invalid Handle to remove" and changes nothing.  For a
    live handle it succeeds, its slot becomes the head of the free list, a
    second [remove(e)] raises, and every other live entity stays alive. *)
Theorem remove_is_guarded (st : EntityStore.EntityStore) (h : EntityHandle) (e : jsval) :
  EntityStore.entityHandler st = h ->
  valid_handle h -> exact_fields h ->
  (EntityStore.isAlive st e = Ok false ->
   EntityStore.remove st e = (st, Throw InvalidHandle)) /\
  (well_typed h e -> EntityStore.isAlive st e = Ok true ->
   exists st1,
     EntityStore.remove st e = (st1, Ok tt) /\
     EntityStore.remove st1 e = (st1, Throw InvalidHandle) /\
     EntityStore.append_index st1 = EntityStore.append_index st /\
     index h e = Ok (EntityStore.free_slot st1) /\
     (forall x, x <> e -> EntityStore.isAlive st x = Ok true ->
                EntityStore.isAlive st1 x = Ok true)).
Proof.
  intros Hh Hv Hx. split.
  - intros Hdead. unfold EntityStore.remove. by rewrite Hdead.
  - intros Hty Ha.
    destruct (alive_cell st h Hh Hv Hx e Hty Ha)
      as (idx & v & Hi & Hver & Hr & Hir & Hvr & Hcell).
    pose proof (remove_live st h Hh Hv Hx e idx v Hty Ha Hi Hver) as Hrem.
    subst h.
    destruct (remove_then_create st e idx v Hv Hx Hty Ha Hi Hver)
      as (st1 & _ & Hrem' & Hdead & _).
    rewrite Hrem in Hrem'. injection Hrem' as Hst1.
    exists st1. split; [by rewrite Hrem, Hst1 |].
    split; [unfold EntityStore.remove; by rewrite Hdead |].
    rewrite <- Hst1. simpl. split; [done |]. split; [done |].
    intros x Hne Hax. unfold EntityStore.isAlive in *. simpl.
    destruct (index (EntityStore.entityHandler st) x) as [ix |] eqn:Hix; [| done].
    simpl in *. injection Hax as Hax. apply andb_true_iff in Hax as [Hlt Heq].
    f_equal. apply andb_true_iff. split; [done |].
    unfold strict_eq in *. apply bool_decide_eq_true in Heq.
    apply bool_decide_eq_true. unfold EntityStore.read in *. simpl.
    pose proof (index_range _ Hv Hx _ _ Hix) as Hxr.
    rewrite arr_get_insert_ne; [done | lia |].
    intros ->. apply Hne. rewrite <- Heq.
    by apply arr_get_lookup; [lia |].
Qed.

(** X6.  The end of the free list is not kept.  When the free list is
    empty, [remove(e)] stores the link -1 masked to the index field, so
    after the next [create()] has reused the slot, [free_slot] is
    [2 ^ indexBits - 1] instead of -1.  With a backing array that does not
    reach that index, the following [create()] does not append: with a
    Number codec it returns the handle of index [2 ^ indexBits - 1] and
    version 0, which is not alive, and leaves [free_slot] at 0; with a
    BigInt codec it raises a TypeError. *)
Theorem free_list_end_is_lost (st : EntityStore.EntityStore) (h : EntityHandle)
        (e : jsval) :
  EntityStore.entityHandler st = h ->
  valid_handle h -> exact_fields h -> store_inv st ->
  well_typed h e -> EntityStore.isAlive st e = Ok true ->
  EntityStore.free_slot st = -1 ->
  Z.of_nat (Datatypes.length (EntityStore.entities st)) < 2 ^ indexBits h ->
  exists st1 st2,
    EntityStore.remove st e = (st1, Ok tt) /\
    EntityStore.create st1 = (st2, Ok (next_handle h e)) /\
    EntityStore.free_slot st2 = 2 ^ indexBits h - 1 /\
    EntityStore.append_index st2 = EntityStore.append_index st /\
    match type h with
    | Number =>
      exists st3,
        EntityStore.create st2 = (st3, Ok (make h (2 ^ indexBits h - 1) 0)) /\
        EntityStore.isAlive st3 (make h (2 ^ indexBits h - 1) 0) = Ok false /\
        EntityStore.append_index st3 = EntityStore.append_index st /\
        EntityStore.free_slot st3 = 0
    | BigInt => EntityStore.create st2 = (st2, Throw TypeError)
    end.
Proof.
  intros Hh Hv Hx Hst Hty Ha Hf Hlen.
  pose proof Hst as (Happ & Hcap & _).
  pose proof (pow_index_le h Hv Hx) as Hpi.
  destruct (alive_cell st h Hh Hv Hx e Hty Ha)
    as (idx & v & Hi & Hver & Hr & Hir & Hvr & Hcell).
  destruct (recycle_all h Hv Hx [e] st Hh) as (st1 & st2 & H1 & H2 & Hh2 & Hty2 & Ha2 & Hf2 & He2).
  { rewrite fmap_cons, fmap_nil. apply NoDup_singleton. }
  { by apply Forall_singleton. }
  cbn [remove_all] in H1.
  destruct (EntityStore.remove st e) as [s1 [[] |]] eqn:Hrem; [| done].
  injection H1 as ->.
  cbn [Datatypes.length create_n] in H2.
  destruct (EntityStore.create st1) as [s2 [e2 |]] eqn:Hcre; [| done].
  rewrite fmap_cons, fmap_nil, reverse_singleton in H2.
  injection H2 as -> ->.
  specialize (Hf2 ltac:(done)). rewrite Hf in Hf2. unfold link in Hf2.
  assert (Hm : (-1) mod 2 ^ indexBits h = 2 ^ indexBits h - 1).
  { replace (-1) with (2 ^ indexBits h - 1 + (-1) * 2 ^ indexBits h) by lia.
    rewrite Z.mod_add by lia. apply Z.mod_small. lia. }
  rewrite Hm, round_double_small in Hf2 by lia.
  exists st1, st2. split; [done |]. split; [done |]. split; [done |]. split; [done |].
  assert (Hread : EntityStore.read st2 (2 ^ indexBits h - 1) = JUndefined).
  { unfold EntityStore.read, arr_get.
    destruct (Z.ltb_spec (2 ^ indexBits h - 1) 0); [done |].
    rewrite He2.
    - rewrite lookup_ge_None_2; [done | lia].
    - intros x Hx'. apply list_elem_of_singleton in Hx' as ->.
      rewrite Hi. intros [= E]. lia. }
  unfold EntityStore.create, EntityStore.IDX_SENTINEL.
  rewrite Hf2.
  destruct (Z.eqb_spec (2 ^ indexBits h - 1) (-1)); [lia |]. simpl.
  rewrite Hread, Hh2.
  unfold version, index. destruct (type h) eqn:Hth; [| done].
  fold (make h (2 ^ indexBits h - 1) (version32 h 0)).
  assert (Hv0 : version32 h 0 = 0) by (rewrite version32_spec by done; apply Zmod_0_l).
  assert (Hi0 : index32 h 0 = 0).
  { rewrite index32_spec by done. destruct Hv as (? & ? & ?).
    change (0 mod 2 ^ 32) with 0.
    rewrite Z.div_0_l by (apply Z.pow_nonzero; lia).
    apply Z.mod_0_l, Z.pow_nonzero; lia. }
  rewrite Hv0, Hi0.
  destruct (write_any st2 h Hh2 (2 ^ indexBits h - 1) (2 ^ indexBits h - 1) 0)
    as (l' & Hw & _).
  unfold make in Hw |- *. rewrite Hth in Hw |- *. rewrite Hw.
  eexists. split; [reflexivity |]. simpl.
  split; [| split; [done | done]].
  unfold EntityStore.isAlive. simpl. rewrite Hh2.
  fold (make h (2 ^ indexBits h - 1) 0) in |- *.
  pose proof (make_index_exact h Hv Hx (2 ^ indexBits h - 1) 0 ltac:(lia)) as Hmi.
  unfold make in Hmi. rewrite Hth in Hmi. rewrite Hmi. simpl.
  rewrite Ha2. destruct (Z.ltb_spec (2 ^ indexBits h - 1) (EntityStore.append_index st));
    [lia | done].
Qed.

(** *** The iterator *)

Lemma next_loop_is_next st i n :
  i + Z.of_nat n = EntityStore.append_index st ->
  EntityStore.Iterator.next_loop st i n = EntityStore.Iterator.next st i.
Proof.
  intros E. unfold EntityStore.Iterator.next.
  destruct (Z.leb_spec (EntityStore.append_index st) i).
  - by replace n with O by lia.
  - f_equal. lia.
Qed.

Lemma drain_from st h (n : nat) : forall i fuel,
  EntityStore.entityHandler st = h ->
  0 <= i -> i + Z.of_nat n = EntityStore.append_index st -> (n <= fuel)%nat ->
  (forall k, 0 <= k < EntityStore.append_index st ->
             well_typed h (EntityStore.read st k)) ->
  drain st i fuel =
  Ok (filter (fun c => EntityStore.isAlive st c = Ok true)
             (EntityStore.read st <$> (Z.of_nat <$> seq (Z.to_nat i) n))).
Proof.
  induction n as [| n IH]; intros i fuel Hh Hi Hn Hfuel Hcells.
  - simpl. destruct fuel as [| f]; [done |]. simpl.
    unfold EntityStore.Iterator.next.
    destruct (Z.leb_spec (EntityStore.append_index st) i); [done | lia].
  - destruct fuel as [| f]; [lia |].
    cbn [seq fmap list_fmap]. rewrite Z2Nat.id by lia.
    assert (Hnext : EntityStore.Iterator.next st i
                    = EntityStore.Iterator.next_loop st i (S n)).
    { symmetry. by apply next_loop_is_next. }
    destruct (well_typed_decodes h (EntityStore.read st i)) as (ci & cv & Hci & _);
      [apply Hcells; lia |].
    assert (Halive : exists b, EntityStore.isAlive st (EntityStore.read st i) = Ok b).
    { unfold EntityStore.isAlive. rewrite Hh, Hci. simpl. eauto. }
    destruct Halive as [b Hb].
    replace (S (Z.to_nat i)) with (Z.to_nat (i + 1)) by lia.
    destruct b.
    + rewrite filter_cons_True by done.
      cbn [drain]. rewrite Hnext. cbn [EntityStore.Iterator.next_loop]. rewrite Hb.
      rewrite (IH (i + 1) f) by (done || lia). done.
    + rewrite filter_cons_False by (rewrite Hb; discriminate).
      rewrite <- (IH (i + 1) (S f)) by (done || lia).
      cbn [drain]. rewrite Hnext. cbn [EntityStore.Iterator.next_loop]. rewrite Hb.
      by rewrite (next_loop_is_next st (i + 1) n) by lia.
Qed.

(** X7.  An iterator started at 0 on a store whose used slots hold values
    of the codec's type returns, call after call, the cells of the slots
    below [append_index] that are alive, in slot order, and then [null];
    an entity of the codec's type is returned exactly when it is alive. *)
Theorem iterator_yields_live (st : EntityStore.EntityStore) (h : EntityHandle)
        (fuel : nat) :
  EntityStore.entityHandler st = h ->
  valid_handle h -> exact_fields h ->
  (forall k, 0 <= k < EntityStore.append_index st ->
             well_typed h (EntityStore.read st k)) ->
  (Z.to_nat (EntityStore.append_index st) <= fuel)%nat ->
  exists l,
    drain st 0 fuel = Ok l /\
    l = filter (fun c => EntityStore.isAlive st c = Ok true)
               (EntityStore.read st <$> positions (EntityStore.append_index st)) /\
    (forall e, well_typed h e -> e ∈ l <-> EntityStore.isAlive st e = Ok true).
Proof.
  intros Hh Hv Hx Hcells Hfuel.
  eexists. split; [| split; [reflexivity |]].
  - destruct (Z.le_gt_cases 0 (EntityStore.append_index st)) as [Hpos | Hneg].
    + rewrite (drain_from st h (Z.to_nat (EntityStore.append_index st)) 0 fuel);
        try done; lia.
    + unfold positions. replace (Z.to_nat (EntityStore.append_index st)) with O by lia.
      simpl. destruct fuel as [| f]; [done |]. simpl.
      unfold EntityStore.Iterator.next.
      destruct (Z.leb_spec (EntityStore.append_index st) 0); [done | lia].
  - intros e Hty. rewrite list_elem_of_filter. split; [tauto |].
    intros Ha. split; [done |].
    destruct (alive_cell st h Hh Hv Hx e Hty Ha)
      as (idx & v & Hi & _ & Hr & _ & _ & Hcell).
    apply list_elem_of_fmap. exists idx. split.
    + unfold EntityStore.read. symmetry. by apply arr_get_lookup; [lia |].
    + apply elem_of_positions. lia.
Qed.

(** X28.  In a store backed by a typed array, with a Number codec of
    exactly 32 bits (such as [EntityHandleMedium]), a handle whose index
    has its top bit set is a negative number, while the [Uint32Array]
    holds it as an unsigned one.  So the handle that [create()] returns
    for a slot at or above [2 ^ (indexBits - 1)] is not alive, and
    [remove] raises "Invalid Handle to remove" for it. *)
Theorem high_slot_handles_are_dead (st st' : EntityStore.EntityStore)
        (h : EntityHandle) (e : jsval) :
  EntityStore.entityHandler st = h ->
  valid_handle h -> type h = Number -> totalBits h = 32 ->
  EntityStore.isTypedArray st = true ->
  store_inv st -> EntityStore.free_slot st = -1 ->
  2 ^ (indexBits h - 1) <= EntityStore.append_index st < 2 ^ indexBits h ->
  EntityStore.create st = (st', Ok e) ->
  index h e = Ok (EntityStore.append_index st) /\
  EntityStore.isAlive st' e = Ok false /\
  EntityStore.remove st' e = (st', Throw InvalidHandle).
Proof.
  intros Hh Hv Hth Htot Hty Hst Hf Hrange Hc.
  pose proof (number_bits h Hv Hth) as (Hib & Hvb & _).
  assert (Hx : exact_fields h) by (unfold exact_fields; lia).
  destruct (create_fresh_spec st h st' e Hh Hv Hx Hst Hf ltac:(lia) Hc)
    as (He & Hidx & _ & _ & _ & _ & Halive & _).
  assert (Hdead : EntityStore.isAlive st' e = Ok false).
  { rewrite Halive. f_equal. apply bool_decide_eq_false.
    rewrite He. unfold stored_handle, make. rewrite Hty, Hth.
    intros [= E]. unfold ToUint32 in E.
    pose proof (Z.mod_pos_bound (make32 h (EntityStore.append_index st) 0) (2 ^ 32)
                  ltac:(lia)) as Hm.
    rewrite (make32_value h Hv Hth) in E, Hm.
    unfold totalBits in Htot.
    set (a := EntityStore.append_index st) in *.
    rewrite (Z.mod_small a) in E, Hm by lia.
    rewrite Zmod_0_l, Z.add_0_r in E, Hm.
    assert (Hsplit : 2 ^ 31 = 2 ^ (indexBits h - 1) * 2 ^ versionBits h).
    { rewrite <- Z.pow_add_r by lia. f_equal. lia. }
    assert (Hfull : 2 ^ 32 = 2 ^ indexBits h * 2 ^ versionBits h).
    { rewrite <- Z.pow_add_r by lia. f_equal. lia. }
    assert (Hpv : 0 < 2 ^ versionBits h) by (apply Z.pow_pos_nonneg; lia).
    assert (HF : 2 ^ 31 <= a * 2 ^ versionBits h < 2 ^ 32) by nia.
    assert (Hneg : ToInt32 (a * 2 ^ versionBits h) = a * 2 ^ versionBits h - 2 ^ 32).
    { unfold ToInt32.
      replace (a * 2 ^ versionBits h + 2 ^ 31)
        with ((a * 2 ^ versionBits h - 2 ^ 31) + 1 * 2 ^ 32) by lia.
      rewrite Z.mod_add by lia. rewrite Z.mod_small by lia. lia. }
    rewrite Hneg in E, Hm. lia. }
  split; [done |]. split; [done |].
  unfold EntityStore.remove. by rewrite Hdead.
Qed.

End StoreExtras.

(** ** SparseSet *)

Section SetExtras.
Import EntityHandle.

Lemma tight_cell s idx d : tight s -> cell_of s idx = Some d -> d < SparseSet.length s.
Proof.
  intros Ht Hcell. unfold cell_of in Hcell.
  destruct (SparseSet.sparse s !! _) as [page |] eqn:Epage; [| done].
  exact (Ht _ _ Epage _ _ Hcell).
Qed.

Lemma tight_intro s :
  (forall pi po d, lookup2 (SparseSet.sparse s) pi po = Some d -> d < SparseSet.length s) ->
  tight s.
Proof.
  intros H pi page Hpage po d Hcell. apply (H pi po). unfold lookup2. by rewrite Hpage.
Qed.

Lemma tight_at s pi po d :
  tight s -> lookup2 (SparseSet.sparse s) pi po = Some d -> d < SparseSet.length s.
Proof.
  intros Ht Hl. unfold lookup2 in Hl.
  destruct (SparseSet.sparse s !! pi) as [page |] eqn:E; [| done].
  exact (Ht pi page E po d Hl).
Qed.

(** In a set without cells left behind, a cell is live exactly when it
    is not a tombstone. *)
Lemma absent_cell s ie :
  wf s -> tight s ->
  SparseSet.live_cell s (cell_of s ie) = false ->
  cell_of s ie = None \/ cell_of s ie = Some SparseSet.TOMBSTONE.
Proof.
  intros Hwf Ht Hl. destruct (cell_of s ie) as [d |] eqn:Hc; [| by left].
  right. f_equal. pose proof (tight_cell s ie d Ht Hc).
  pose proof (wf_cell_lower s ie d Hwf Hc).
  unfold SparseSet.live_cell, SparseSet.TOMBSTONE in *.
  destruct (Z.eqb_spec d (-1)); [done |].
  destruct (Z.ltb_spec d (SparseSet.length s)); [done | lia].
Qed.

(** The state that [add] reaches for an entity that is not contained,
    when the dense buffer has room. *)
Lemma add_fresh s e ie (r : bool) :
  wf s -> tight s ->
  index (SparseSet.entityHandler s) e = Ok ie ->
  stored s e ->
  SparseSet.contains s e = Ok false ->
  SparseSet.length s < SparseSet.capacity s ->
  exists s',
    SparseSet.add s e r = (s', Ok (SparseSet.length s)) /\
    wf s' /\ tight s' /\
    SparseSet.length s' = SparseSet.length s + 1 /\
    SparseSet.pageSize s' = SparseSet.pageSize s /\
    SparseSet.typedArray s' = SparseSet.typedArray s /\
    SparseSet.entityHandler s' = SparseSet.entityHandler s /\
    SparseSet.capacity s' = SparseSet.capacity s /\
    SparseSet.dense_read s' (SparseSet.length s) = e /\
    (forall j, j <> SparseSet.length s ->
               SparseSet.dense_read s' j = SparseSet.dense_read s j) /\
    (forall idx, cell_of s' idx =
                 if decide (idx = ie) then Some (SparseSet.length s) else cell_of s idx).
Proof.
  intros Hwf Ht Hie Hst Hc Hroom.
  pose proof Hwf as (Hpage & Hlen & _ & _).
  rewrite (contains_cell s e ie Hie) in Hc. injection Hc as Hc.
  unfold SparseSet.add. rewrite (contains_cell s e ie Hie), Hc.
  destruct (Z.leb_spec (SparseSet.capacity s) (SparseSet.length s)); [lia |].
  unfold SparseSet.pageIndex, SparseSet.pageOffset. rewrite Hie. simpl.
  set (sp := SparseSet.write_cell_create _ _ _ _).
  assert (Hw : SparseSet.dense_write (SparseSet.with_sparse s sp) (SparseSet.length s) e
               = Ok (<[Z.to_nat (SparseSet.length s) := e]> (SparseSet.dense s))).
  { apply (dense_write_stored (SparseSet.with_sparse s sp)); [done |].
    unfold SparseSet.capacity in *. simpl. lia. }
  rewrite Hw. eexists. split; [reflexivity |].
  set (s' := SparseSet.with_length _ _).
  assert (Hcells : forall idx, cell_of s' idx =
            if decide (idx = ie) then Some (SparseSet.length s) else cell_of s idx).
  { intros idx. rewrite (cell_of_lookup2 s'). unfold s', sp. simpl.
    rewrite lookup2_write_create.
    destruct (decide (idx = ie)) as [-> | Hne].
    - by rewrite decide_True.
    - rewrite decide_False; [done |].
      intros [H1 H2]. apply Hne. symmetry. by apply (slot_inj s Hpage). }
  assert (Hnew : SparseSet.dense_read s' (SparseSet.length s) = e).
  { unfold SparseSet.dense_read, s'. simpl. apply arr_get_insert_eq.
    unfold SparseSet.capacity in *. lia. }
  assert (Hold : forall j, j <> SparseSet.length s ->
                           SparseSet.dense_read s' j = SparseSet.dense_read s j).
  { intros j Hj. unfold SparseSet.dense_read, s'. simpl.
    apply arr_get_insert_ne; lia. }
  assert (Hcap : SparseSet.capacity s' = SparseSet.capacity s).
  { unfold SparseSet.capacity, s'. simpl. by rewrite length_insert. }
  split; [| split; [| repeat split; done]].
  - apply wf_intro.
    + exact Hpage.
    + rewrite Hcap. unfold s'. simpl. lia.
    + intros i Hi. change (SparseSet.length s') with (SparseSet.length s + 1) in Hi.
      unfold dense_ok.
      change (SparseSet.entityHandler s') with (SparseSet.entityHandler s).
      destruct (decide (i = SparseSet.length s)) as [-> | Hne].
      * rewrite Hnew, Hie. split; [| done].
        rewrite Hcells. by rewrite decide_True.
      * rewrite Hold by done.
        destruct (wf_dense_at s i Hwf) as (idx & Hidx & Hcell & Hstored); [lia |].
        rewrite Hidx. split; [| done].
        rewrite Hcells. rewrite decide_False; [done |].
        intros ->. rewrite Hcell in Hc. unfold SparseSet.live_cell in Hc.
        destruct (Z.eqb_spec i SparseSet.TOMBSTONE) as [E | _];
          [unfold SparseSet.TOMBSTONE in E; lia |].
        destruct (Z.ltb_spec i (SparseSet.length s)); [done | lia].
    + intros pi po d Hl. unfold s', sp in Hl. simpl in Hl.
      rewrite lookup2_write_create in Hl.
      unfold cell_ok.
      change (SparseSet.entityHandler s') with (SparseSet.entityHandler s).
      change (SparseSet.length s') with (SparseSet.length s + 1).
      change (SparseSet.pageSize s') with (SparseSet.pageSize s).
      destruct (decide _) as [[<- <-] | Hne].
      * injection Hl as <-. split; [lia |]. intros _. by rewrite Hnew, Hie.
      * pose proof (wf_cell_at s pi po d Hwf Hl) as [Hlo Hback].
        pose proof (tight_at s pi po d Ht Hl) as Hlt.
        split; [done |]. intros Hd. rewrite Hold by lia. apply Hback. lia.
  - apply tight_intro. intros pi po d Hl. unfold s', sp in Hl |- *. simpl in Hl |- *.
    rewrite lookup2_write_create in Hl.
    destruct (decide _) as [_ | _].
    + injection Hl as <-. lia.
    + pose proof (tight_at s pi po d Ht Hl). lia.
Qed.

Lemma live_cell_grown s s' c :
  tight s -> SparseSet.length s <= SparseSet.length s' ->
  (forall d, c = Some d -> d < SparseSet.length s) ->
  SparseSet.live_cell s' c = SparseSet.live_cell s c.
Proof.
  intros _ Hle Hc. destruct c as [d |]; [| done]. simpl.
  specialize (Hc d eq_refl).
  destruct (Z.ltb_spec d (SparseSet.length s)), (Z.ltb_spec d (SparseSet.length s'));
    done || lia.
Qed.

(** What the lookups return after [add_fresh]. *)
Lemma add_fresh_lookup (s : SparseSet.SparseSet) (e : jsval) (ie : Z) (r : bool) :
  wf s -> tight s ->
  index (SparseSet.entityHandler s) e = Ok ie ->
  stored s e ->
  SparseSet.contains s e = Ok false ->
  SparseSet.length s < SparseSet.capacity s ->
  exists s',
    SparseSet.add s e r = (s', Ok (SparseSet.length s)) /\
    wf s' /\ tight s' /\
    SparseSet.len s' = SparseSet.len s + 1 /\
    SparseSet.contains s' e = Ok true /\
    SparseSet.index s' e = Ok (SparseSet.length s) /\
    SparseSet.dense_read s' (SparseSet.length s) = e /\
    (forall x ix,
        index (SparseSet.entityHandler s) x = Ok ix -> ix <> ie ->
        SparseSet.contains s' x = SparseSet.contains s x /\
        SparseSet.index s' x = SparseSet.index s x).
Proof.
  intros Hwf Ht Hie Hst Hc Hroom.
  pose proof Hwf as (_ & Hlen & _ & _).
  destruct (add_fresh s e ie r Hwf Ht Hie Hst Hc Hroom)
    as (s' & Hadd & Hwf' & Ht' & Hl' & Hps & Hty & Hh & Hcap & Hnew & Hold & Hcells).
  assert (Hce : SparseSet.contains s' e = Ok true).
  { rewrite (contains_cell s' e ie) by (by rewrite Hh).
    rewrite Hcells, decide_True by done. simpl. rewrite Hl'.
    unfold SparseSet.TOMBSTONE.
    destruct (Z.eqb_spec (SparseSet.length s) (-1)); [lia |].
    destruct (Z.ltb_spec (SparseSet.length s) (SparseSet.length s + 1)); [done | lia]. }
  assert (Hix : SparseSet.index s' e = Ok (SparseSet.length s)).
  { rewrite (index_cell s' e ie) by (by rewrite Hh).
    rewrite Hcells, decide_True by done. simpl. rewrite Hl'.
    unfold SparseSet.TOMBSTONE.
    destruct (Z.eqb_spec (SparseSet.length s) (-1)); [lia |].
    destruct (Z.ltb_spec (SparseSet.length s) (SparseSet.length s + 1)); [done | lia]. }
  exists s'. split; [done |]. split; [done |]. split; [done |]. split; [done |].
  split; [done |]. split; [done |]. split; [done |].
  intros x ix Hx Hne.
  assert (Hlive : SparseSet.live_cell s' (cell_of s ix)
                  = SparseSet.live_cell s (cell_of s ix)).
  { apply live_cell_grown; [done | lia |]. intros d Hd. by apply (tight_cell s ix). }
  rewrite (contains_cell s' x ix), (contains_cell s x ix) by (done || by rewrite Hh).
  rewrite (index_cell s' x ix), (index_cell s x ix) by (done || by rewrite Hh).
  rewrite Hcells, decide_False by done.
  split; [by rewrite Hlive |].
  destruct (cell_of s ix) as [d |] eqn:Ed; [| done]. by rewrite Hlive.
Qed.

(** X8.  [add] of an entity that is not contained, in a set that
    satisfies the invariants, has no cell left behind by [reset()] and has
    room: the entity is appended at position [length], it is then
    contained with that index, the invariants still hold, membership and
    index of every entity of another slot are unchanged, and adding it
    again returns the same index and changes nothing. *)
Theorem add_then_lookup (s : SparseSet.SparseSet) (e : jsval) (ie : Z) (r : bool) :
  wf s -> tight s ->
  index (SparseSet.entityHandler s) e = Ok ie ->
  stored s e ->
  SparseSet.contains s e = Ok false ->
  SparseSet.length s < SparseSet.capacity s ->
  exists s',
    SparseSet.add s e r = (s', Ok (SparseSet.length s)) /\
    wf s' /\ tight s' /\
    SparseSet.len s' = SparseSet.len s + 1 /\
    SparseSet.contains s' e = Ok true /\
    SparseSet.index s' e = Ok (SparseSet.length s) /\
    SparseSet.dense_read s' (SparseSet.length s) = e /\
    (forall x ix,
        index (SparseSet.entityHandler s) x = Ok ix -> ix <> ie ->
        SparseSet.contains s' x = SparseSet.contains s x /\
        SparseSet.index s' x = SparseSet.index s x) /\
    (forall r', SparseSet.add s' e r' = (s', Ok (SparseSet.length s))).
Proof.
  intros Hwf Ht Hie Hst Hc Hroom.
  destruct (add_fresh_lookup s e ie r Hwf Ht Hie Hst Hc Hroom)
    as (s' & Hadd & Hwf' & Ht' & Hl' & Hce & Hix & Hnew & Hoth).
  exists s'. do 7 (split; [done |]). split; [exact Hoth |].
  intros r'. unfold SparseSet.add. by rewrite Hce, Hix.
Qed.

(** X9.  Adding an entity and removing it again gives back a set of the
    same length in which every entity has the membership, the index and
    the dense position it had before. *)
Theorem add_remove_roundtrip (s : SparseSet.SparseSet) (e : jsval) (ie : Z) (r : bool) :
  wf s -> tight s ->
  index (SparseSet.entityHandler s) e = Ok ie ->
  stored s e ->
  SparseSet.contains s e = Ok false ->
  SparseSet.length s < SparseSet.capacity s ->
  exists s' s'',
    SparseSet.add s e r = (s', Ok (SparseSet.length s)) /\
    SparseSet.remove s' e = (s'', Ok SparseSet.SUCCESS_OPERATION) /\
    SparseSet.len s'' = SparseSet.len s /\
    (forall x ix,
        index (SparseSet.entityHandler s) x = Ok ix ->
        SparseSet.contains s'' x = SparseSet.contains s x /\
        SparseSet.index s'' x = SparseSet.index s x) /\
    (forall j, 0 <= j < SparseSet.length s ->
               SparseSet.dense_read s'' j = SparseSet.dense_read s j).
Proof.
  intros Hwf Ht Hie Hst Hc Hroom.
  pose proof Hwf as (_ & Hlen & _ & _).
  destruct (add_fresh s e ie r Hwf Ht Hie Hst Hc Hroom)
    as (s' & Hadd & Hwf' & Ht' & Hl' & Hps & Hty & Hh & Hcap & Hnew & Hold & Hcells).
  destruct (remove_contained s' e ie (SparseSet.length s))
    as (s'' & Hrem & Hl'' & Hps' & Hty' & Hh' & _ & Hd1 & _ & Hcells');
    [done | by rewrite Hh | by rewrite Hcells, decide_True | lia |].
  exists s', s''. split; [done |]. split; [done |].
  split; [unfold SparseSet.len; lia |].
  assert (Hcell : forall idx,
             cell_of s'' idx = if decide (idx = ie) then Some SparseSet.TOMBSTONE
                               else cell_of s idx).
  { intros idx. rewrite Hcells'.
    destruct (decide (idx = ie)) as [-> | Hne]; [done |].
    rewrite Hl'. replace (SparseSet.length s + 1 - 1) with (SparseSet.length s) by lia.
    rewrite Hnew, Hh, Hie. rewrite decide_False by congruence.
    rewrite Hcells. by rewrite decide_False. }
  assert (Hlive : forall c, SparseSet.live_cell s'' c = SparseSet.live_cell s c).
  { intros [d |]; [| done]. simpl. by replace (SparseSet.length s'') with (SparseSet.length s) by lia. }
  split.
  - intros x ix Hx.
    rewrite (contains_cell s'' x ix), (contains_cell s x ix)
      by (done || by rewrite Hh', Hh).
    rewrite (index_cell s'' x ix), (index_cell s x ix)
      by (done || by rewrite Hh', Hh).
    rewrite Hcell.
    destruct (decide (ix = ie)) as [-> | Hne].
    + rewrite (contains_cell s e ie Hie) in Hc. injection Hc as Hc.
      rewrite Hlive. rewrite Hc.
      split; [done |].
      destruct (cell_of s ie) as [d |]; [| done]. by rewrite Hc.
    + split; [by rewrite Hlive |].
      destruct (cell_of s ix) as [d |]; [| done]. by rewrite Hlive.
  - intros j Hj. rewrite Hd1 by lia. apply Hold. lia.
Qed.

(** [resize] beyond the largest array length. *)
Lemma resize_too_large s c' :
  SparseSet.capacity s < c' -> max_length (SparseSet.typedArray s) < c' ->
  SparseSet.resize s c' = (s, Throw RangeError).
Proof.
  intros Hlt Hmax. unfold SparseSet.resize.
  destruct (Z.leb_spec c' (SparseSet.capacity s)); [lia |].
  by rewrite alloc_ok_false.
Qed.

(** [resize] to a larger capacity keeps the invariants. *)
Lemma resize_grows s c' :
  SparseSet.capacity s < c' -> c' <= max_length (SparseSet.typedArray s) ->
  exists s1,
    SparseSet.resize s c' = (s1, Ok SparseSet.SUCCESS_OPERATION) /\
    SparseSet.capacity s1 = c' /\
    SparseSet.sparse s1 = SparseSet.sparse s /\
    SparseSet.length s1 = SparseSet.length s /\
    SparseSet.pageSize s1 = SparseSet.pageSize s /\
    SparseSet.typedArray s1 = SparseSet.typedArray s /\
    SparseSet.entityHandler s1 = SparseSet.entityHandler s /\
    (forall j, 0 <= j < SparseSet.capacity s ->
               SparseSet.dense_read s1 j = SparseSet.dense_read s j) /\
    (wf s -> wf s1) /\ (tight s -> tight s1).
Proof.
  intros Hlt Hmax. unfold SparseSet.resize.
  destruct (Z.leb_spec c' (SparseSet.capacity s)); [lia |].
  assert (0 <= SparseSet.capacity s) by (unfold SparseSet.capacity; lia).
  rewrite alloc_ok_true by lia. simpl.
  eexists. split; [reflexivity |].
  set (s1 := SparseSet.with_dense s _).
  assert (Hread : forall j, 0 <= j < SparseSet.capacity s ->
                            SparseSet.dense_read s1 j = SparseSet.dense_read s j).
  { intros j Hj. unfold SparseSet.dense_read, s1. simpl. by apply arr_get_app_l. }
  assert (Hcap : SparseSet.capacity s1 = c').
  { unfold SparseSet.capacity, s1 in *. simpl. rewrite length_app, length_replicate. lia. }
  split; [done |]. do 5 (split; [done |]). split; [done |]. split; [| done].
  intros Hwf. pose proof Hwf as (Hp & Hl & _ & _).
  apply wf_intro.
  - exact Hp.
  - rewrite Hcap. change (SparseSet.length s1) with (SparseSet.length s). lia.
  - intros i Hi. change (SparseSet.length s1) with (SparseSet.length s) in Hi.
    destruct (wf_dense_at s i Hwf Hi) as (idx & Hidx & Hcell & Hstored).
    unfold dense_ok. rewrite Hread by lia.
    change (SparseSet.entityHandler s1) with (SparseSet.entityHandler s).
    rewrite Hidx. done.
  - intros pi po d Hl'. pose proof (wf_cell_at s pi po d Hwf Hl') as [Hlo Hback].
    split; [done |]. intros Hd.
    change (SparseSet.length s1) with (SparseSet.length s) in Hd.
    rewrite Hread by lia. by apply Hback.
Qed.

(** X10.  [add] on a full dense buffer.  Without [resize] it returns -1
    and changes nothing.  With [resize] the capacity is doubled and the
    entity appended; but a set of capacity 0 never grows, since doubling 0
    is refused by [resize], and [add] returns -1; and when the doubled
    capacity exceeds the largest length of the dense array (the engine's
    limit for a typed array), [add] raises a RangeError and changes
    nothing. *)
Theorem add_when_full (s : SparseSet.SparseSet) (e : jsval) (ie : Z) :
  index (SparseSet.entityHandler s) e = Ok ie ->
  SparseSet.contains s e = Ok false ->
  SparseSet.capacity s <= SparseSet.length s ->
  SparseSet.add s e false = (s, Ok SparseSet.FAILED_OPERATION) /\
  (SparseSet.length s = 0 ->
   SparseSet.add s e true = (s, Ok SparseSet.FAILED_OPERATION)) /\
  (0 < SparseSet.length s ->
   max_length (SparseSet.typedArray s) < 2 * SparseSet.length s ->
   SparseSet.add s e true = (s, Throw RangeError)) /\
  (wf s -> tight s -> stored s e -> 0 < SparseSet.length s ->
   2 * SparseSet.length s <= max_length (SparseSet.typedArray s) ->
   exists s',
     SparseSet.add s e true = (s', Ok (SparseSet.length s)) /\
     SparseSet.capacity s' = 2 * SparseSet.capacity s /\
     SparseSet.len s' = SparseSet.len s + 1 /\
     wf s' /\ tight s' /\
     SparseSet.contains s' e = Ok true /\
     (forall j, 0 <= j < SparseSet.length s ->
                SparseSet.dense_read s' j = SparseSet.dense_read s j)).
Proof.
  intros Hie Hc Hfull. split; [| split; [| split]].
  - unfold SparseSet.add. rewrite Hc.
    destruct (Z.leb_spec (SparseSet.capacity s) (SparseSet.length s)); [done | lia].
  - intros H0. unfold SparseSet.add. rewrite Hc.
    destruct (Z.leb_spec (SparseSet.capacity s) (SparseSet.length s)); [| lia].
    simpl. unfold SparseSet.resize. rewrite H0. change (0 * 2) with 0.
    destruct (Z.leb_spec 0 (SparseSet.capacity s)); [done |].
    unfold SparseSet.capacity in *. lia.
  - intros Hpos Hmax. unfold SparseSet.add. rewrite Hc.
    destruct (Z.leb_spec (SparseSet.capacity s) (SparseSet.length s)); [| lia].
    simpl. by rewrite resize_too_large by lia.
  - intros Hwf Ht Hst Hpos Hmax.
    pose proof Hwf as (_ & Hlen & _ & _).
    assert (Hcl : SparseSet.capacity s = SparseSet.length s) by lia.
    destruct (resize_grows s (SparseSet.length s * 2))
      as (s1 & Hres & Hcap1 & Hsp1 & Hl1 & Hps1 & Hty1 & Hh1 & Hread1 & Hwf1 & Ht1);
      [lia | lia |].
    assert (Hc1 : SparseSet.contains s1 e = Ok false).
    { rewrite (contains_cell s1 e ie) by (by rewrite Hh1).
      rewrite (contains_cell s e ie) in Hc by done.
      unfold cell_of, SparseSet.live_cell in *. by rewrite Hsp1, Hps1, Hl1. }
    destruct (add_fresh_lookup s1 e ie true)
      as (s' & Hadd & Hwf' & Ht' & Hl' & Hce & _ & _ & _);
      [by apply Hwf1 | by apply Ht1 | by rewrite Hh1
       | by (intros E; apply Hst; rewrite <- Hty1) | done | lia |].
    destruct (add_fresh s1 e ie true)
      as (s'2 & Hadd2 & _ & _ & _ & _ & _ & _ & Hcap' & _ & Hold & _);
      [by apply Hwf1 | by apply Ht1 | by rewrite Hh1
       | by (intros E; apply Hst; rewrite <- Hty1) | done | lia |].
    rewrite Hadd in Hadd2. injection Hadd2 as <-.
    exists s'.
    assert (Heq : SparseSet.add s e true = SparseSet.add s1 e true).
    { unfold SparseSet.add. rewrite Hc, Hc1.
      destruct (Z.leb_spec (SparseSet.capacity s) (SparseSet.length s)); [| lia].
      destruct (Z.leb_spec (SparseSet.capacity s1) (SparseSet.length s1)); [lia |].
      simpl. rewrite Hres. simpl. by rewrite Hl1. }
    rewrite Heq, Hadd, Hl1.
    split; [done |]. split; [rewrite Hcap', Hcap1; lia |].
    split; [unfold SparseSet.len in *; lia |].
    split; [done |]. split; [done |]. split; [done |].
    intros j Hj. rewrite Hold by lia. apply Hread1. lia.
Qed.

(** X11.  [reset()] sets [length] to 0 and keeps the sparse cells.
    Directly after it no entity is contained; but the cells come back to
    life as [length] grows: after the first [add] of an entity [e], the
    entity [x] that was at dense position 0 before the reset is reported
    as contained again, at index 0, where the dense array now holds [e].
    [clear()] drops the cells as well. *)
Theorem reset_keeps_cells (s : SparseSet.SparseSet) :
  wf s ->
  (forall x ix, index (SparseSet.entityHandler s) x = Ok ix ->
                SparseSet.contains (SparseSet.reset s) x = Ok false) /\
  (forall x ix e ie r,
      index (SparseSet.entityHandler s) x = Ok ix ->
      index (SparseSet.entityHandler s) e = Ok ie ->
      ix <> ie ->
      SparseSet.index s x = Ok 0 ->
      stored s e ->
      exists s',
        SparseSet.add (SparseSet.reset s) e r = (s', Ok 0) /\
        SparseSet.len s' = 1 /\
        SparseSet.dense_read s' 0 = e /\
        SparseSet.contains s' x = Ok true /\
        SparseSet.index s' x = Ok 0) /\
  (forall x ix, index (SparseSet.entityHandler s) x = Ok ix ->
                SparseSet.contains (SparseSet.clear s) x = Ok false) /\
  wf (SparseSet.clear s) /\ tight (SparseSet.clear s).
Proof.
  intros Hwf. pose proof Hwf as (Hpage & Hlen & _ & _).
  assert (Hdead : forall idx, SparseSet.live_cell (SparseSet.reset s) (cell_of s idx) = false).
  { intros idx. destruct (cell_of s idx) as [d |] eqn:Hc; [| done].
    pose proof (wf_cell_lower s idx d Hwf Hc). simpl. unfold SparseSet.TOMBSTONE.
    destruct (Z.eqb_spec d (-1)); [done |].
    destruct (Z.ltb_spec d 0); [lia | done]. }
  split; [| split; [| split; [| split]]].
  - intros x ix Hx. rewrite (contains_cell (SparseSet.reset s) x ix) by done.
    f_equal. apply Hdead.
  - intros x ix e ie r Hx He Hne Hx0 Hst.
    rewrite (index_cell s x ix Hx) in Hx0.
    assert (Hcx : cell_of s ix = Some 0 /\ 0 < SparseSet.length s).
    { destruct (cell_of s ix) as [d |]; [| done]. simpl in Hx0.
      unfold SparseSet.TOMBSTONE, SparseSet.FAILED_OPERATION in Hx0.
      destruct (Z.eqb_spec d (-1)); [done |].
      destruct (Z.ltb_spec d (SparseSet.length s)); simpl in Hx0; [| done].
      injection Hx0 as ->. done. }
    destruct Hcx as [Hcx Hpos].
    unfold SparseSet.add.
    rewrite (contains_cell (SparseSet.reset s) e ie) by done.
    change (cell_of (SparseSet.reset s) ie) with (cell_of s ie). rewrite Hdead.
    change (SparseSet.capacity (SparseSet.reset s)) with (SparseSet.capacity s).
    change (SparseSet.length (SparseSet.reset s)) with 0.
    destruct (Z.leb_spec (SparseSet.capacity s) 0); [lia |].
    unfold SparseSet.pageIndex, SparseSet.pageOffset.
    change (SparseSet.entityHandler (SparseSet.reset s)) with (SparseSet.entityHandler s).
    rewrite He. simpl.
    set (sp := SparseSet.write_cell_create _ _ _ _).
    assert (Hw : SparseSet.dense_write (SparseSet.with_sparse (SparseSet.reset s) sp) 0 e
                 = Ok (<[Z.to_nat 0 := e]> (SparseSet.dense s))).
    { apply (dense_write_stored (SparseSet.with_sparse (SparseSet.reset s) sp)); [done |].
      unfold SparseSet.capacity in *. simpl. lia. }
    rewrite Hw. eexists. split; [reflexivity |].
    set (s' := SparseSet.with_length _ _).
    split; [done |]. split.
    { unfold SparseSet.dense_read, s'. simpl. apply arr_get_insert_eq.
      unfold SparseSet.capacity in *. lia. }
    assert (Hcell : cell_of s' ix = Some 0).
    { rewrite (cell_of_lookup2 s'). unfold s', sp. simpl.
      rewrite lookup2_write_create, decide_False.
      - by rewrite <- Hcx.
      - intros [H1 H2]. apply Hne. symmetry. by apply (slot_inj s Hpage). }
    split.
    + rewrite (contains_cell s' x ix) by done. by rewrite Hcell.
    + rewrite (index_cell s' x ix) by done. by rewrite Hcell.
  - intros x ix Hx. unfold SparseSet.contains, SparseSet.pageIndex.
    change (SparseSet.entityHandler (SparseSet.clear s)) with (SparseSet.entityHandler s).
    rewrite Hx. simpl. by rewrite lookup_empty.
  - apply wf_intro.
    + exact Hpage.
    + change (SparseSet.length (SparseSet.clear s)) with 0.
      change (SparseSet.capacity (SparseSet.clear s)) with (SparseSet.capacity s). lia.
    + intros i Hi. change (SparseSet.length (SparseSet.clear s)) with 0 in Hi. lia.
    + intros pi po d Hl. unfold lookup2 in Hl. simpl in Hl.
      by rewrite lookup_empty in Hl.
  - apply tight_intro. intros pi po d Hl. unfold lookup2 in Hl. simpl in Hl.
    by rewrite lookup_empty in Hl.
Qed.

(** X12.  [swap] of the entities at two different live positions
    exchanges the two dense entries and their indices, keeps every other
    entry, the length and the invariants; swapping the same two entities
    again restores the dense array. *)
Theorem swap_exchanges (s : SparseSet.SparseSet) (d1 d2 : Z) :
  wf s ->
  0 <= d1 < SparseSet.length s -> 0 <= d2 < SparseSet.length s -> d1 <> d2 ->
  exists s' s'',
    SparseSet.swap s (SparseSet.dense_read s d1) (SparseSet.dense_read s d2)
      = (s', Ok SparseSet.SUCCESS_OPERATION) /\
    wf s' /\ SparseSet.len s' = SparseSet.len s /\
    SparseSet.index s' (SparseSet.dense_read s d1) = Ok d2 /\
    SparseSet.index s' (SparseSet.dense_read s d2) = Ok d1 /\
    (forall k, 0 <= k < SparseSet.length s -> k <> d1 -> k <> d2 ->
               SparseSet.dense_read s' k = SparseSet.dense_read s k /\
               SparseSet.index s' (SparseSet.dense_read s k) = Ok k) /\
    SparseSet.swap s' (SparseSet.dense_read s d1) (SparseSet.dense_read s d2)
      = (s'', Ok SparseSet.SUCCESS_OPERATION) /\
    (forall k, SparseSet.dense_read s'' k = SparseSet.dense_read s k).
Proof.
  intros Hwf H1 H2 Hne.
  destruct (swap_live s d1 d2 Hwf H1 H2 Hne)
    as (s' & Hswap & Hwf' & Hl' & Hh' & Hr1 & Hr2 & Hrk).
  destruct (swap_live s' d2 d1 Hwf') as (s'' & Hswap' & _ & _ & _ & Hb1 & Hb2 & Hbk);
    [lia | lia | done |].
  rewrite Hr1, Hr2 in Hswap'.
  exists s', s''. split; [done |]. split; [done |]. split; [done |].
  split; [rewrite <- Hr2; apply dense_index_self; [done | lia] |].
  split; [rewrite <- Hr1; apply dense_index_self; [done | lia] |].
  split.
  - intros k Hk Hk1 Hk2. split; [by apply Hrk |].
    rewrite <- (Hrk k) by done. apply dense_index_self; [done | lia].
  - split; [done |]. intros k.
    destruct (decide (k = d1)) as [-> | Hk1]; [by rewrite Hb2 |].
    destruct (decide (k = d2)) as [-> | Hk2]; [by rewrite Hb1 |].
    rewrite Hbk by done. by apply Hrk.
Qed.

(** X13.  [swap] changes nothing and returns -1 when the two arguments
    are the same value, or when one of them is not contained: unlike
    [remove], it tests the dense index found in a cell against [length]. *)
Theorem swap_fails_cleanly (s : SparseSet.SparseSet) (a b : jsval) (ia ib : Z) :
  index (SparseSet.entityHandler s) a = Ok ia ->
  index (SparseSet.entityHandler s) b = Ok ib ->
  a = b \/ SparseSet.contains s a = Ok false \/ SparseSet.contains s b = Ok false ->
  SparseSet.swap s a b = (s, Ok SparseSet.FAILED_OPERATION).
Proof.
  intros Ha Hb Hcase.
  rewrite (contains_cell s a ia Ha), (contains_cell s b ib Hb) in Hcase.
  unfold SparseSet.swap, SparseSet.pageIndex, SparseSet.pageOffset.
  rewrite Ha, Hb. simpl.
  destruct (SparseSet.length s =? 0); [done |]. simpl.
  unfold strict_eq. destruct (bool_decide_reflect (a = b)) as [| Hab]; [done |].
  destruct Hcase as [? | Hcase]; [done |].
  unfold cell_of in Hcase.
  destruct (SparseSet.sparse s !! (ia / SparseSet.pageSize s)) as [p1 |]; [| done].
  destruct (SparseSet.sparse s !! (ib / SparseSet.pageSize s)) as [p2 |]; [| done].
  destruct (p1 !! _) as [c1 |]; [| done].
  destruct (Z.eqb_spec c1 SparseSet.TOMBSTONE) as [| N1]; [done |].
  destruct (p2 !! _) as [c2 |]; [| done].
  destruct (Z.eqb_spec c2 SparseSet.TOMBSTONE) as [| N2]; [done |].
  destruct (Z.ltb_spec c1 0); [done |].
  destruct (Z.leb_spec (SparseSet.length s) c1); [done |].
  destruct (Z.ltb_spec c2 0); [done |].
  destruct (Z.leb_spec (SparseSet.length s) c2); [done |].
  exfalso. simpl in Hcase.
  destruct (Z.eqb_spec c1 SparseSet.TOMBSTONE); [done |].
  destruct (Z.eqb_spec c2 SparseSet.TOMBSTONE); [done |].
  destruct (Z.ltb_spec c1 (SparseSet.length s)); [| lia].
  destruct (Z.ltb_spec c2 (SparseSet.length s)); [| lia].
  simpl in Hcase. by destruct Hcase as [[=] | [=]].
Qed.

(** X14.  The generator [entities()] yields the live prefix of the dense
    array: [length] entities without repetition, each contained, the one
    at position [i] with index [i]; and every contained entity shares its
    index field with the entry that the iteration yields at its index. *)
Theorem entities_are_members (s : SparseSet.SparseSet) :
  wf s ->
  Z.of_nat (Datatypes.length (SparseSet.entities s)) = SparseSet.len s /\
  NoDup (SparseSet.entities s) /\
  (forall (i : nat) x, SparseSet.entities s !! i = Some x ->
     x = SparseSet.dense_read s (Z.of_nat i) /\
     SparseSet.contains s x = Ok true /\
     SparseSet.index s x = Ok (Z.of_nat i)) /\
  (forall e ie, index (SparseSet.entityHandler s) e = Ok ie ->
     SparseSet.contains s e = Ok true ->
     exists (i : nat) x,
       SparseSet.index s e = Ok (Z.of_nat i) /\
       SparseSet.entities s !! i = Some x /\
       index (SparseSet.entityHandler s) x = Ok ie).
Proof.
  intros Hwf. pose proof Hwf as (_ & Hlen & _ & _).
  assert (Hlook : forall (i : nat) x, SparseSet.entities s !! i = Some x ->
            (i < Z.to_nat (SparseSet.length s))%nat /\
            x = SparseSet.dense_read s (Z.of_nat i)).
  { intros i x. unfold SparseSet.entities. rewrite !list_lookup_fmap.
    destruct (seq 0 (Z.to_nat (SparseSet.length s)) !! i) as [k |] eqn:Hk; [| done].
    apply lookup_seq in Hk as [-> Hlt]. simpl. intros [= <-]. done. }
  assert (Hdef : forall (i : nat), (i < Z.to_nat (SparseSet.length s))%nat ->
            SparseSet.entities s !! i = Some (SparseSet.dense_read s (Z.of_nat i))).
  { intros i Hi. unfold SparseSet.entities. rewrite !list_lookup_fmap.
    rewrite lookup_seq_lt by done. done. }
  split; [| split; [| split]].
  - unfold SparseSet.entities, SparseSet.len. rewrite !length_map, length_seq. lia.
  - apply NoDup_alt. intros i j x Hi Hj.
    destruct (Hlook i x Hi) as [Hi' ->]. destruct (Hlook j _ Hj) as [Hj' E].
    pose proof (dense_index_self s (Z.of_nat i) Hwf ltac:(lia)) as H1.
    pose proof (dense_index_self s (Z.of_nat j) Hwf ltac:(lia)) as H2.
    rewrite E in H1. rewrite H1 in H2. injection H2 as H2. lia.
  - intros i x Hi. destruct (Hlook i x Hi) as [Hi' ->]. split; [done |].
    pose proof (dense_index_self s (Z.of_nat i) Hwf ltac:(lia)) as H1.
    split; [| done].
    destruct (wf_dense_at s (Z.of_nat i) Hwf) as (idx & Hidx & Hcell & _); [lia |].
    rewrite (contains_cell s _ idx Hidx), Hcell. simpl.
    unfold SparseSet.TOMBSTONE.
    destruct (Z.eqb_spec (Z.of_nat i) (-1)); [lia |].
    destruct (Z.ltb_spec (Z.of_nat i) (SparseSet.length s)); [done | lia].
  - intros e ie He Hc.
    destruct (contains_true_index s e ie He Hc) as (i & Hi & Hnf).
    destruct (index_contained s e ie i Hwf He Hi Hnf) as [Hcell Hr].
    exists (Z.to_nat i), (SparseSet.dense_read s i).
    rewrite Z2Nat.id by lia. split; [done |].
    split; [rewrite Hdef by lia; by rewrite Z2Nat.id by lia |].
    by apply wf_sparse_at.
Qed.

Lemma and32_pow2_pred k : 0 <= k <= 30 -> and32 (2 ^ k) (2 ^ k - 1) = 0.
Proof.
  intros Hk. unfold and32.
  assert (0 < 2 ^ k <= 2 ^ 30)
    by (split; [apply Z.pow_pos_nonneg; lia | apply Z.pow_le_mono_r; lia]).
  rewrite !ToInt32_small by lia.
  replace (2 ^ k - 1) with (Z.ones k) by (rewrite Z.ones_equiv; lia).
  rewrite Z.land_ones by lia. apply Z.mod_same. lia.
Qed.

(** The set built by the constructor for a page size [2 ^ k]. *)
Lemma new_set_ok (typed : bool) (pool k : Z) (h : EntityHandle) :
  0 <= pool <= max_length typed -> 7 <= k <= 30 ->
  exists s,
    SparseSet.new (SparseSet.mkOptions (Some typed) (Some pool) (Some (2 ^ k)) (Some h))
      = Ok s /\
    wf s /\ tight s /\
    SparseSet.len s = 0 /\ SparseSet.capacity s = pool /\
    SparseSet.entities s = [] /\
    SparseSet.entityHandler s = h /\ SparseSet.typedArray s = typed /\
    (forall e ie, index h e = Ok ie -> SparseSet.contains s e = Ok false).
Proof.
  intros Hpool Hk. unfold SparseSet.new. simpl.
  assert (Hp : 2 ^ 7 <= 2 ^ k) by (apply Z.pow_le_mono_r; lia).
  destruct (Z.eqb_spec (2 ^ k) 0); [lia |].
  rewrite and32_pow2_pred by lia. simpl.
  destruct (Z.ltb_spec (2 ^ k) 128); [lia |].
  rewrite alloc_ok_true by done. simpl.
  eexists. split; [reflexivity |].
  split; [| split].
  - apply wf_intro.
    + unfold page_ok. simpl. rewrite Z.log2_pow2 by lia. done.
    + unfold SparseSet.capacity. simpl. rewrite length_replicate. lia.
    + simpl. lia.
    + intros pi po d Hl. unfold lookup2 in Hl. simpl in Hl.
      by rewrite lookup_empty in Hl.
  - apply tight_intro. intros pi po d Hl. unfold lookup2 in Hl. simpl in Hl.
    by rewrite lookup_empty in Hl.
  - split; [done |].
    split; [unfold SparseSet.capacity; simpl; rewrite length_replicate; lia |].
    split; [done |]. split; [done |]. split; [done |].
    intros e ie He. unfold SparseSet.contains, SparseSet.pageIndex. simpl.
    rewrite He. simpl. by rewrite lookup_empty.
Qed.

(** X15.  [new SparseSet(config)] with a page size [2 ^ k]: for
    [7 <= k <= 30] and a pool size that is a valid length of the dense
    array it returns an empty set of the configured capacity that
    satisfies the invariants and contains no entity, and for a pool size
    that is negative or beyond the largest length of the dense array (the
    engine's limit for a typed array) it raises a RangeError; for [k < 7]
    it raises "pageSize must be at least 128"; a page size of 0 or a
    missing one raises "pageSize must be a power of 2", whatever the pool
    size. *)
Theorem new_set_is_empty (typed : bool) (pool k : Z) (h : EntityHandle) :
  (7 <= k <= 30 -> 0 <= pool <= max_length typed ->
   exists s,
     SparseSet.new (SparseSet.mkOptions (Some typed) (Some pool) (Some (2 ^ k)) (Some h))
       = Ok s /\
     wf s /\ tight s /\
     SparseSet.len s = 0 /\ SparseSet.capacity s = pool /\
     SparseSet.entities s = [] /\
     SparseSet.entityHandler s = h /\ SparseSet.typedArray s = typed /\
     (forall e ie, index h e = Ok ie -> SparseSet.contains s e = Ok false)) /\
  (7 <= k <= 30 -> pool < 0 \/ max_length typed < pool ->
   SparseSet.new (SparseSet.mkOptions (Some typed) (Some pool) (Some (2 ^ k)) (Some h))
     = Throw RangeError) /\
  (0 <= k < 7 ->
   SparseSet.new (SparseSet.mkOptions (Some typed) (Some pool) (Some (2 ^ k)) (Some h))
     = Throw PageSizeTooSmall) /\
  SparseSet.new (SparseSet.mkOptions (Some typed) (Some pool) (Some 0) (Some h))
    = Throw PageSizeNotPowerOfTwo /\
  SparseSet.new (SparseSet.mkOptions (Some typed) (Some pool) None (Some h))
    = Throw PageSizeNotPowerOfTwo.
Proof.
  split; [| split; [| split; [| done]]].
  - intros Hk Hpool. by apply new_set_ok.
  - intros Hk Hpool. unfold SparseSet.new. simpl.
    assert (Hp : 2 ^ 7 <= 2 ^ k) by (apply Z.pow_le_mono_r; lia).
    destruct (Z.eqb_spec (2 ^ k) 0); [lia |].
    rewrite and32_pow2_pred by lia. simpl.
    destruct (Z.ltb_spec (2 ^ k) 128); [lia |].
    assert (Hno : alloc_ok typed pool = false) by (unfold alloc_ok; lia).
    by rewrite Hno.
  - intros Hk. unfold SparseSet.new. simpl.
    assert (0 < 2 ^ k) by (apply Z.pow_pos_nonneg; lia).
    assert (2 ^ k <= 2 ^ 6) by (apply Z.pow_le_mono_r; lia).
    destruct (Z.eqb_spec (2 ^ k) 0); [lia |].
    rewrite and32_pow2_pred by lia. simpl.
    destruct (Z.ltb_spec (2 ^ k) 128); [done | lia].
Qed.

(** X27.  [remove] of a contained entity keeps the invariants: the set
    reached satisfies them again and has no cell beyond its length when
    the set had none, the entity is no longer contained, [length] is one
    less, and the membership of every entity of another slot is
    unchanged. *)
Theorem remove_keeps_invariants (s : SparseSet.SparseSet) (e : jsval) (ie : Z) :
  wf s -> tight s ->
  index (SparseSet.entityHandler s) e = Ok ie ->
  SparseSet.contains s e = Ok true ->
  exists s',
    SparseSet.remove s e = (s', Ok SparseSet.SUCCESS_OPERATION) /\
    wf s' /\ tight s' /\
    SparseSet.len s' = SparseSet.len s - 1 /\
    SparseSet.contains s' e = Ok false /\
    (forall x ix, index (SparseSet.entityHandler s) x = Ok ix -> ix <> ie ->
                  SparseSet.contains s' x = SparseSet.contains s x).
Proof.
  intros Hwf Ht Hie Hc.
  pose proof Hwf as (Hpage & Hlen & _ & _).
  destruct (contains_true_index s e ie Hie Hc) as (i & Hi & Hnf).
  destruct (index_contained s e ie i Hwf Hie Hi Hnf) as [Hcell Hr].
  set (last := SparseSet.length s - 1).
  destruct (wf_dense_at s last Hwf) as (il & Hil & Hcl & Hsl); [lia |].
  fold last in Hil, Hcl, Hsl.
  assert (Hslot : forall pi po d idx,
            lookup2 (SparseSet.sparse s) pi po = Some d ->
            0 <= d < SparseSet.length s ->
            cell_of s idx = Some d ->
            pi = idx / SparseSet.pageSize s /\ po = and32 idx (SparseSet.pageSize s - 1)).
  { intros pi po d idx Hl Hd Hci.
    destruct (wf_cell_at s pi po d Hwf Hl) as [_ Hback]. specialize (Hback Hd).
    rewrite (wf_sparse_at s idx d Hwf Hci Hd) in Hback. by destruct Hback as [<- <-]. }
  unfold SparseSet.remove.
  destruct (Z.eqb_spec (SparseSet.length s) 0) as [| _]; [lia |].
  unfold SparseSet.pageIndex, SparseSet.pageOffset. rewrite Hie. simpl.
  pose proof Hcell as Hcell'. unfold cell_of in Hcell'.
  destruct (SparseSet.sparse s !! (ie / SparseSet.pageSize s)) as [page |] eqn:Epage;
    [| done].
  rewrite Hcell'.
  destruct (Z.eqb_spec i SparseSet.TOMBSTONE) as [E | _];
    [unfold SparseSet.TOMBSTONE in E; lia |].
  fold last.
  assert (Hframe : forall s',
    SparseSet.entityHandler s' = SparseSet.entityHandler s ->
    SparseSet.length s' = SparseSet.length s - 1 ->
    tight s' ->
    (forall idx, idx <> ie -> idx <> il -> cell_of s' idx = cell_of s idx) ->
    cell_of s' ie = Some SparseSet.TOMBSTONE ->
    (il <> ie -> cell_of s' il = Some i) ->
    SparseSet.len s' = SparseSet.len s - 1 /\
    SparseSet.contains s' e = Ok false /\
    (forall x ix, index (SparseSet.entityHandler s) x = Ok ix -> ix <> ie ->
                  SparseSet.contains s' x = SparseSet.contains s x)).
  { intros s' Hh' Hl' Ht' Hother Hie' Hil'.
    split; [done |]. split.
    - rewrite (contains_cell s' e ie) by (by rewrite Hh'). by rewrite Hie'.
    - intros x ix Hx Hne.
      rewrite (contains_cell s' x ix), (contains_cell s x ix) by (done || by rewrite Hh').
      f_equal. destruct (decide (ix = il)) as [-> | Hnl].
      + rewrite Hil' by done. rewrite Hcl. simpl. rewrite Hl'.
        unfold SparseSet.TOMBSTONE, last.
        assert (i <> last).
        { intros ->. apply Hne. symmetry.
          pose proof (wf_sparse_at s ie last Hwf Hcell ltac:(unfold last; lia)). congruence. }
        unfold last in *. lia.
      + rewrite Hother by done.
        destruct (cell_of s ix) as [d |] eqn:Hd; [| done]. simpl.
        pose proof (tight_cell s ix d Ht Hd) as Hdl.
        assert (d <> last).
        { intros ->. apply Hnl.
          pose proof (wf_sparse_at s ix last Hwf Hd ltac:(unfold last; lia)). congruence. }
        rewrite Hl'. unfold last in *. lia. }
  destruct (Z.eqb_spec i last) as [Elast | Nlast].
  - (* the removed entity is the last one *)
    assert (il = ie) as ->.
    { pose proof (wf_sparse_at s ie i Hwf Hcell Hr) as H. rewrite Elast in H. congruence. }
    eexists. split; [reflexivity |].
    set (s' := SparseSet.with_length _ _).
    assert (Hcells : forall pi po,
              lookup2 (SparseSet.sparse s') pi po =
              if decide (ie / SparseSet.pageSize s = pi /\
                         and32 ie (SparseSet.pageSize s - 1) = po)
              then Some SparseSet.TOMBSTONE else lookup2 (SparseSet.sparse s) pi po).
    { intros pi po. unfold s'. simpl. apply lookup2_write_create. }
    assert (Ht' : tight s').
    { apply tight_intro. intros pi po d Hl. rewrite Hcells in Hl.
      change (SparseSet.length s') with (SparseSet.length s - 1).
      destruct (decide _) as [_ | Hn].
      - injection Hl as <-. unfold SparseSet.TOMBSTONE. lia.
      - pose proof (tight_at s pi po d Ht Hl).
        pose proof (wf_cell_at s pi po d Hwf Hl) as [Hlo _].
        destruct (decide (d = last)) as [-> | ?]; [| unfold last in *; lia].
        exfalso. apply Hn. rewrite <- Elast in Hl.
        destruct (Hslot pi po i ie Hl Hr Hcell) as [-> ->]. done. }
    split; [| split; [exact Ht' |]].
    + apply wf_intro.
      * exact Hpage.
      * change (SparseSet.length s') with (SparseSet.length s - 1).
        change (SparseSet.capacity s') with (SparseSet.capacity s). lia.
      * intros j Hj. change (SparseSet.length s') with (SparseSet.length s - 1) in Hj.
        destruct (wf_dense_at s j Hwf) as (idx & Hidx & Hcj & Hstj); [lia |].
        unfold dense_ok.
        change (SparseSet.dense_read s' j) with (SparseSet.dense_read s j).
        change (SparseSet.entityHandler s') with (SparseSet.entityHandler s).
        rewrite Hidx. split; [| done].
        rewrite (cell_of_lookup2 s'). change (SparseSet.pageSize s') with (SparseSet.pageSize s).
        rewrite Hcells, decide_False; [by rewrite <- cell_of_lookup2 |].
        intros [H1 H2]. assert (idx = ie) as -> by (symmetry; by apply (slot_inj s Hpage)).
        rewrite Hcell in Hcj. injection Hcj as ->. unfold last in *. lia.
      * intros pi po d Hl. rewrite Hcells in Hl.
        unfold cell_ok.
        change (SparseSet.length s') with (SparseSet.length s - 1).
        change (SparseSet.dense_read s' d) with (SparseSet.dense_read s d).
        change (SparseSet.entityHandler s') with (SparseSet.entityHandler s).
        change (SparseSet.pageSize s') with (SparseSet.pageSize s).
        destruct (decide _) as [_ | Hn].
        -- injection Hl as <-. unfold SparseSet.TOMBSTONE. split; [lia |]. lia.
        -- destruct (wf_cell_at s pi po d Hwf Hl) as [Hlo Hback].
           split; [done |]. intros Hd. apply Hback. lia.
    + apply Hframe; try done.
      * intros idx Hne _. rewrite (cell_of_lookup2 s').
        change (SparseSet.pageSize s') with (SparseSet.pageSize s).
        rewrite Hcells, decide_False; [done |].
        intros [H1 H2]. apply Hne. symmetry. by apply (slot_inj s Hpage).
      * rewrite (cell_of_lookup2 s').
        change (SparseSet.pageSize s') with (SparseSet.pageSize s).
        by rewrite Hcells, decide_True.
  - (* the last entity moves into the hole *)
    assert (Hne : il <> ie).
    { intros ->. apply Nlast. congruence. }
    rewrite dense_write_stored by (done || lia). simpl.
    rewrite Hil. simpl.
    rewrite (write_cell_existing _ _ _ _ last) by (by rewrite <- cell_of_lookup2).
    eexists. split; [reflexivity |].
    set (s' := SparseSet.with_length _ _).
    assert (Hcells : forall pi po,
              lookup2 (SparseSet.sparse s') pi po =
              if decide (ie / SparseSet.pageSize s = pi /\
                         and32 ie (SparseSet.pageSize s - 1) = po)
              then Some SparseSet.TOMBSTONE
              else if decide (il / SparseSet.pageSize s = pi /\
                              and32 il (SparseSet.pageSize s - 1) = po)
                   then Some i else lookup2 (SparseSet.sparse s) pi po).
    { intros pi po. unfold s'. simpl. by rewrite !lookup2_write_create. }
    assert (Hdi : SparseSet.dense_read s' i = SparseSet.dense_read s last).
    { unfold SparseSet.dense_read, s'. simpl. apply arr_get_insert_eq.
      unfold SparseSet.capacity in Hlen. lia. }
    assert (Hdj : forall j, j <> i -> SparseSet.dense_read s' j = SparseSet.dense_read s j).
    { intros j Hj. unfold SparseSet.dense_read, s'. simpl. apply arr_get_insert_ne; lia. }
    assert (Ht' : tight s').
    { apply tight_intro. intros pi po d Hl. rewrite Hcells in Hl.
      change (SparseSet.length s') with (SparseSet.length s - 1).
      destruct (decide _) as [_ | Hn1].
      - injection Hl as <-. unfold SparseSet.TOMBSTONE. lia.
      - destruct (decide _) as [_ | Hn2].
        + injection Hl as <-. unfold last in *. lia.
        + pose proof (tight_at s pi po d Ht Hl).
          pose proof (wf_cell_at s pi po d Hwf Hl) as [Hlo _].
          destruct (decide (d = last)) as [-> | ?]; [| unfold last in *; lia].
          exfalso. apply Hn2.
          destruct (Hslot pi po last il Hl ltac:(unfold last; lia) Hcl) as [-> ->]. done. }
    split; [| split; [exact Ht' |]].
    + apply wf_intro.
      * exact Hpage.
      * change (SparseSet.length s') with (SparseSet.length s - 1).
        unfold SparseSet.capacity, s' in *. simpl. rewrite length_insert. lia.
      * intros j Hj. change (SparseSet.length s') with (SparseSet.length s - 1) in Hj.
        unfold dense_ok.
        change (SparseSet.entityHandler s') with (SparseSet.entityHandler s).
        destruct (decide (j = i)) as [-> | Hji].
        -- rewrite Hdi, Hil. split; [| done].
           rewrite (cell_of_lookup2 s').
           change (SparseSet.pageSize s') with (SparseSet.pageSize s).
           rewrite Hcells, decide_False, decide_True; [done | done |].
           intros [H1 H2]. apply Hne. by apply (slot_inj s Hpage).
        -- rewrite Hdj by done.
           destruct (wf_dense_at s j Hwf) as (idx & Hidx & Hcj & Hstj); [lia |].
           rewrite Hidx. split; [| done].
           rewrite (cell_of_lookup2 s').
           change (SparseSet.pageSize s') with (SparseSet.pageSize s).
           rewrite Hcells, decide_False, decide_False; [by rewrite <- cell_of_lookup2 | |].
           ++ intros [H1 H2]. assert (idx = il) as -> by (symmetry; by apply (slot_inj s Hpage)).
              rewrite Hcl in Hcj. injection Hcj as <-. unfold last in *. lia.
           ++ intros [H1 H2]. assert (idx = ie) as -> by (symmetry; by apply (slot_inj s Hpage)).
              rewrite Hcell in Hcj. injection Hcj as <-. done.
      * intros pi po d Hl. rewrite Hcells in Hl.
        unfold cell_ok.
        change (SparseSet.length s') with (SparseSet.length s - 1).
        change (SparseSet.entityHandler s') with (SparseSet.entityHandler s).
        change (SparseSet.pageSize s') with (SparseSet.pageSize s).
        destruct (decide _) as [_ | Hn1].
        -- injection Hl as <-. unfold SparseSet.TOMBSTONE. split; [lia |]. lia.
        -- destruct (decide _) as [[<- <-] | Hn2].
           ++ injection Hl as <-. split; [lia |]. intros _. by rewrite Hdi, Hil.
           ++ destruct (wf_cell_at s pi po d Hwf Hl) as [Hlo Hback].
              split; [done |]. intros Hd.
              destruct (decide (d = i)) as [-> | Hdi'].
              ** exfalso. apply Hn1.
                 destruct (Hslot pi po i ie Hl Hr Hcell) as [-> ->]. done.
              ** rewrite Hdj by done. apply Hback. lia.
    + apply Hframe; try done.
      * intros idx Hn1 Hn2. rewrite (cell_of_lookup2 s').
        change (SparseSet.pageSize s') with (SparseSet.pageSize s).
        rewrite Hcells, decide_False, decide_False; [done | |].
        -- intros [H1 H2]. apply Hn2. symmetry. by apply (slot_inj s Hpage).
        -- intros [H1 H2]. apply Hn1. symmetry. by apply (slot_inj s Hpage).
      * rewrite (cell_of_lookup2 s').
        change (SparseSet.pageSize s') with (SparseSet.pageSize s).
        by rewrite Hcells, decide_True.
      * intros _. rewrite (cell_of_lookup2 s').
        change (SparseSet.pageSize s') with (SparseSet.pageSize s).
        rewrite Hcells, decide_False, decide_True; [done | done |].
        intros [H1 H2]. apply Hne. by apply (slot_inj s Hpage).
Qed.

(** X29.  A set whose dense array is a [Uint32Array] cannot hold the
    bigint handles of a codec of more than 32 bits: [add] of such an
    entity raises a TypeError at the write into the dense array, after the
    sparse cell has been written; [length] and the dense array are
    unchanged and the entity is still not contained. *)
Theorem typed_set_rejects_bigint (s : SparseSet.SparseSet) (e : jsval) (ie : Z)
        (r : bool) :
  type (SparseSet.entityHandler s) = BigInt ->
  SparseSet.typedArray s = true ->
  index (SparseSet.entityHandler s) e = Ok ie ->
  SparseSet.contains s e = Ok false ->
  SparseSet.length s < SparseSet.capacity s ->
  exists s',
    SparseSet.add s e r = (s', Throw TypeError) /\
    SparseSet.len s' = SparseSet.len s /\
    SparseSet.data s' = SparseSet.data s /\
    cell_of s' ie = Some (SparseSet.length s) /\
    SparseSet.contains s' e = Ok false.
Proof.
  intros Hth Hty Hie Hc Hroom.
  assert (Hbig : exists n, e = JBigInt n).
  { unfold index in Hie. rewrite Hth in Hie. destruct e; try done. eauto. }
  destruct Hbig as [n ->].
  unfold SparseSet.add. rewrite Hc.
  destruct (Z.leb_spec (SparseSet.capacity s) (SparseSet.length s)); [lia |].
  unfold SparseSet.pageIndex, SparseSet.pageOffset. rewrite Hie. simpl.
  unfold SparseSet.dense_write. simpl. rewrite Hty. simpl.
  eexists. split; [reflexivity |].
  set (s' := SparseSet.with_sparse _ _).
  assert (Hcell : cell_of s' ie = Some (SparseSet.length s)).
  { rewrite (cell_of_lookup2 s'). unfold s'. simpl.
    rewrite lookup2_write_create. by rewrite decide_True. }
  split; [done |]. split; [done |]. split; [done |].
  rewrite (contains_cell s' (JBigInt n) ie) by done.
  rewrite Hcell. simpl. change (SparseSet.length s') with (SparseSet.length s).
  f_equal. lia.
Qed.

End SetExtras.

(** ** ComponentStore *)

Lemma arr_set_length {X} (hole : X) l i v :
  0 <= i ->
  Z.of_nat (Datatypes.length (arr_set hole l i v))
  = Z.max (Z.of_nat (Datatypes.length l)) (i + 1).
Proof.
  intros Hi. unfold arr_set. destruct (Z.ltb_spec i 0); [lia |].
  destruct (Z.ltb_spec i (Z.of_nat (Datatypes.length l))).
  - rewrite length_insert. lia.
  - rewrite !length_app, length_replicate. simpl. lia.
Qed.

Lemma arr_get_arr_set_eq {X} (d hole : X) l i v :
  0 <= i -> arr_get d (arr_set hole l i v) i = v.
Proof.
  intros Hi. unfold arr_set. destruct (Z.ltb_spec i 0); [lia |].
  destruct (Z.ltb_spec i (Z.of_nat (Datatypes.length l))).
  - apply arr_get_insert_eq. lia.
  - unfold arr_get. destruct (Z.ltb_spec i 0); [lia |].
    rewrite lookup_app_r by lia. rewrite lookup_app_r by (rewrite length_replicate; lia).
    rewrite length_replicate.
    by replace (Z.to_nat i - Datatypes.length l
                - (Z.to_nat i - Datatypes.length l))%nat with O by lia.
Qed.

Lemma arr_get_arr_set_ne {X} (d hole : X) l i v k :
  0 <= k < Z.of_nat (Datatypes.length l) -> k <> i ->
  arr_get d (arr_set hole l i v) k = arr_get d l k.
Proof.
  intros Hk Hne. unfold arr_set. destruct (Z.ltb_spec i 0); [done |].
  destruct (Z.ltb_spec i (Z.of_nat (Datatypes.length l))).
  - apply arr_get_insert_ne; lia.
  - by apply arr_get_app_l.
Qed.

Lemma arr_resize_grow {X} (f : X) l n :
  Z.of_nat (Datatypes.length l) <= n ->
  arr_resize f l n = l ++ replicate (Z.to_nat n - Datatypes.length l) f.
Proof. intros Hn. unfold arr_resize. by rewrite take_ge by lia. Qed.

Section StoreAdd.
Context {C A : Type} {Hclone : ComponentStore.Cloneable C}.
Implicit Types cs : ComponentStore.ComponentStore C A.
Import EntityHandle.

Lemma with_set_same cs : ComponentStore.with_set cs (ComponentStore.set cs) = cs.
Proof. by destruct cs. Qed.

(** Payload lookups are decided by the index in the sparse set. *)
Lemma get_by_index cs cs' x :
  ComponentStore.isEmptyComp cs' = ComponentStore.isEmptyComp cs ->
  SparseSet.index (ComponentStore.set cs') x = SparseSet.index (ComponentStore.set cs) x ->
  (forall i, SparseSet.index (ComponentStore.set cs) x = Ok i ->
             i <> SparseSet.FAILED_OPERATION ->
             arr_get ComponentStore.CUndefined (ComponentStore.components cs') i
             = arr_get ComponentStore.CUndefined (ComponentStore.components cs) i) ->
  ComponentStore.get cs' x = ComponentStore.get cs x /\
  ComponentStore.getConst cs' x = ComponentStore.getConst cs x /\
  ComponentStore.tryGet cs' x = ComponentStore.tryGet cs x /\
  ComponentStore.tryGetConst cs' x = ComponentStore.tryGetConst cs x.
Proof.
  intros He Hi Hc.
  unfold ComponentStore.get, ComponentStore.getConst, ComponentStore.tryGet,
    ComponentStore.tryGetConst.
  rewrite He, Hi.
  destruct (ComponentStore.isEmptyComp cs); [done |].
  destruct (SparseSet.index (ComponentStore.set cs) x) as [i |]; [| done]. simpl.
  unfold ComponentStore.FAILED_OPERATION.
  destruct (Z.eqb_spec i (-1)); [done |].
  rewrite (Hc i) by done. done.
Qed.

(** The standard-store case of [add] for an entity that is not
    contained. *)
Lemma store_add_fresh cs (e : jsval) (ie : Z) (args : list A) (replace r : bool) :
  store_wf cs -> tight (ComponentStore.set cs) ->
  index (SparseSet.entityHandler (ComponentStore.set cs)) e = Ok ie ->
  stored (ComponentStore.set cs) e ->
  ComponentStore.contains cs e = Ok false ->
  SparseSet.length (ComponentStore.set cs) < SparseSet.capacity (ComponentStore.set cs) ->
  ComponentStore.isEmptyComp cs = false ->
  ComponentStore.len cs < ComponentStore.comp_length cs \/
    (r = true /\ 2 * ComponentStore.comp_length cs <= MAX_ARRAY_LENGTH) ->
  exists cs',
    ComponentStore.add cs e args replace r = (cs', Ok ComponentStore.SUCCESS_OPERATION) /\
    store_wf cs' /\ tight (ComponentStore.set cs') /\
    ComponentStore.len cs' = ComponentStore.len cs + 1 /\
    ComponentStore.contains cs' e = Ok true /\
    ComponentStore.get cs' e = Ok (ComponentStore.CObj (ComponentStore.compConstructor cs args)) /\
    ComponentStore.tryGet cs' e
      = Ok (ComponentStore.CObj (ComponentStore.compConstructor cs args)) /\
    ComponentStore.getConst cs' e
      = bind (ComponentStore.structuredClone (ComponentStore.compConstructor cs args))
             (fun q => Ok (ComponentStore.CObj q)) /\
    ComponentStore.tryGetConst cs' e
      = bind (ComponentStore.structuredClone (ComponentStore.compConstructor cs args))
             (fun q => Ok (ComponentStore.CObj q)) /\
    (forall x ix,
        index (SparseSet.entityHandler (ComponentStore.set cs)) x = Ok ix -> ix <> ie ->
        ComponentStore.contains cs' x = ComponentStore.contains cs x /\
        ComponentStore.get cs' x = ComponentStore.get cs x /\
        ComponentStore.tryGet cs' x = ComponentStore.tryGet cs x).
Proof.
  intros [Hwf Hcomp] Ht Hie Hst Hc Hroom Hstd Hgrow.
  pose proof Hwf as (_ & Hlen & _ & _).
  unfold ComponentStore.contains in Hc.
  destruct (add_fresh_lookup (ComponentStore.set cs) e ie r Hwf Ht Hie Hst Hc Hroom)
    as (s1 & Hadd & Hwf1 & Ht1 & Hl1 & Hce & Hix & Hnew & Hoth).
  unfold SparseSet.len in Hl1.
  assert (Hnf : (SparseSet.length (ComponentStore.set cs)
                 =? ComponentStore.FAILED_OPERATION) = false).
  { unfold ComponentStore.FAILED_OPERATION. apply Z.eqb_neq. lia. }
  specialize (Hcomp Hstd).
  unfold ComponentStore.add. rewrite Hc, Hadd, Hnf. simpl. rewrite Hstd.
  unfold ComponentStore.comp_length in *. simpl.
  set (n := SparseSet.length (ComponentStore.set cs)) in *.
  set (comps := ComponentStore.components cs) in *.
  set (v := ComponentStore.CObj (ComponentStore.compConstructor cs args)).
  assert (Hex : exists comps',
    (let grown :=
       if Z.of_nat (Datatypes.length comps) <=? n
       then if negb r
            then match SparseSet.remove s1 e with
                 | (s2, Throw e0) =>
                   (ComponentStore.with_set (ComponentStore.with_set cs s1) s2,
                    Some (Throw e0))
                 | (s2, Ok _) =>
                   (ComponentStore.with_set (ComponentStore.with_set cs s1) s2,
                    Some (Ok ComponentStore.FAILED_OPERATION))
                 end
            else match set_length ComponentStore.DEFAULT_COMP_VAL comps
                         (Z.max (Z.of_nat (Datatypes.length comps) * 2) (n + 1)) with
                 | Throw e0 => (ComponentStore.with_set cs s1, Some (Throw e0))
                 | Ok l =>
                   (ComponentStore.with_components (ComponentStore.with_set cs s1) l,
                    None)
                 end
       else (ComponentStore.with_set cs s1, None) in
     grown = (ComponentStore.with_components (ComponentStore.with_set cs s1) comps', None)) /\
    n < Z.of_nat (Datatypes.length comps') /\
    (forall k, 0 <= k < n -> arr_get ComponentStore.CUndefined comps' k
                             = arr_get ComponentStore.CUndefined comps k)).
  { destruct (Z.leb_spec (Z.of_nat (Datatypes.length comps)) n) as [Hfull | Hfree].
    - destruct Hgrow as [Hlt | [-> Hmax]];
        [unfold ComponentStore.len, SparseSet.len in Hlt; lia |].
      simpl. unfold set_length, valid_length.
      destruct (Z.leb_spec 0 (Z.max (Z.of_nat (Datatypes.length comps) * 2) (n + 1)));
        [| lia].
      destruct (Z.leb_spec (Z.max (Z.of_nat (Datatypes.length comps) * 2) (n + 1))
                           MAX_ARRAY_LENGTH); [| unfold MAX_ARRAY_LENGTH in *; lia].
      simpl. eexists. split; [reflexivity |].
      rewrite arr_resize_grow by lia. split.
      + rewrite length_app, length_replicate. lia.
      + intros k Hk. apply arr_get_app_l. lia.
    - exists comps. split; [| done].
      simpl. by destruct cs. }
  destruct Hex as (comps' & Hg & Hlen' & Hkeep).
  cbv zeta in Hg. rewrite Hg. clear Hg.
  eexists. split; [reflexivity |].
  set (cs' := ComponentStore.with_components _ _).
  assert (Hget : arr_get ComponentStore.CUndefined (ComponentStore.components cs') n = v).
  { unfold cs'. simpl. apply arr_get_arr_set_eq. lia. }
  assert (Hk : forall k, 0 <= k < n ->
             arr_get ComponentStore.CUndefined (ComponentStore.components cs') k
             = arr_get ComponentStore.CUndefined comps k).
  { intros k Hk. unfold cs'. simpl.
    rewrite arr_get_arr_set_ne by lia. by apply Hkeep. }
  split.
  { split; [done |]. intros _. unfold ComponentStore.comp_length, cs'. simpl.
    rewrite arr_set_length by lia. fold n in Hl1. lia. }
  split; [done |]. split; [unfold ComponentStore.len, SparseSet.len; simpl; lia |].
  split; [done |].
  assert (Hn1 : (n =? ComponentStore.FAILED_OPERATION) = false) by exact Hnf.
  assert (Hgets : forall f,
    (f = ComponentStore.get \/ f = ComponentStore.tryGet) -> f cs' e = Ok v).
  { intros f Hf.
    destruct Hf as [-> | ->];
      unfold ComponentStore.get, ComponentStore.tryGet;
      change (ComponentStore.isEmptyComp cs') with (ComponentStore.isEmptyComp cs);
      change (ComponentStore.set cs') with s1;
      rewrite Hstd, Hix; unfold bind; rewrite Hn1, Hget; done. }
  assert (Hcopies : forall f,
    (f = ComponentStore.getConst \/ f = ComponentStore.tryGetConst) ->
    f cs' e = ComponentStore.clone v).
  { intros f Hf.
    destruct Hf as [-> | ->];
      unfold ComponentStore.getConst, ComponentStore.tryGetConst;
      change (ComponentStore.isEmptyComp cs') with (ComponentStore.isEmptyComp cs);
      change (ComponentStore.set cs') with s1;
      rewrite Hstd, Hix; unfold bind at 1; rewrite Hn1, Hget; done. }
  split; [apply Hgets; auto |]. split; [apply Hgets; auto |].
  split; [apply (Hcopies ComponentStore.getConst); auto |].
  split; [apply (Hcopies ComponentStore.tryGetConst); auto |].
  intros x ix Hx Hne.
  destruct (Hoth x ix Hx Hne) as [Hcx Hixx].
  split; [done |].
  destruct (get_by_index cs cs' x) as (H1 & _ & H3 & _); [done | done | | done].
  intros i Hi Hif.
  destruct (index_contained (ComponentStore.set cs) x ix i Hwf Hx Hi Hif) as [_ Hr].
  by apply Hk.
Qed.

(** X16.  [add] of an entity that the store does not contain, when the
    dense buffer has room.  In a standard store whose payload array has
    room, or may be resized and its doubled length is a valid array
    length, the call returns 0, the entity is contained, [get] and
    [tryGet] return the payload built from the arguments, [getConst] and
    [tryGetConst] return the copy of that payload or raise what
    [structuredClone] raises on it, the invariants hold, and membership
    and payload of the entities of other slots are unchanged.  When the
    payload array is full and its doubled length is beyond the largest
    array length, the call raises a RangeError after the entity has been
    added to the sparse set: the entity is contained and the payload array
    is unchanged.  In a store of empty kind the entity is contained and no
    payload is stored. *)
Theorem store_add_then_get cs (e : jsval) (ie : Z) (args : list A) (replace r : bool) :
  store_wf cs -> tight (ComponentStore.set cs) ->
  index (SparseSet.entityHandler (ComponentStore.set cs)) e = Ok ie ->
  stored (ComponentStore.set cs) e ->
  ComponentStore.contains cs e = Ok false ->
  SparseSet.length (ComponentStore.set cs) < SparseSet.capacity (ComponentStore.set cs) ->
  (ComponentStore.isEmptyComp cs = false ->
   ComponentStore.len cs < ComponentStore.comp_length cs \/
     (r = true /\ 2 * ComponentStore.comp_length cs <= MAX_ARRAY_LENGTH) ->
   exists cs',
     ComponentStore.add cs e args replace r = (cs', Ok ComponentStore.SUCCESS_OPERATION) /\
     store_wf cs' /\ tight (ComponentStore.set cs') /\
     ComponentStore.len cs' = ComponentStore.len cs + 1 /\
     ComponentStore.contains cs' e = Ok true /\
     ComponentStore.get cs' e = Ok (ComponentStore.CObj (ComponentStore.compConstructor cs args)) /\
     ComponentStore.tryGet cs' e
       = Ok (ComponentStore.CObj (ComponentStore.compConstructor cs args)) /\
     ComponentStore.getConst cs' e
       = bind (ComponentStore.structuredClone (ComponentStore.compConstructor cs args))
              (fun q => Ok (ComponentStore.CObj q)) /\
     ComponentStore.tryGetConst cs' e
       = bind (ComponentStore.structuredClone (ComponentStore.compConstructor cs args))
              (fun q => Ok (ComponentStore.CObj q)) /\
     (forall x ix,
         index (SparseSet.entityHandler (ComponentStore.set cs)) x = Ok ix -> ix <> ie ->
         ComponentStore.contains cs' x = ComponentStore.contains cs x /\
         ComponentStore.get cs' x = ComponentStore.get cs x /\
         ComponentStore.tryGet cs' x = ComponentStore.tryGet cs x)) /\
  (ComponentStore.isEmptyComp cs = false ->
   ComponentStore.comp_length cs <= ComponentStore.len cs ->
   MAX_ARRAY_LENGTH < 2 * ComponentStore.comp_length cs ->
   exists cs',
     ComponentStore.add cs e args replace true = (cs', Throw RangeError) /\
     ComponentStore.len cs' = ComponentStore.len cs + 1 /\
     ComponentStore.contains cs' e = Ok true /\
     ComponentStore.components cs' = ComponentStore.components cs) /\
  (ComponentStore.isEmptyComp cs = true ->
   exists cs',
     ComponentStore.add cs e args replace r = (cs', Ok ComponentStore.SUCCESS_OPERATION) /\
     ComponentStore.len cs' = ComponentStore.len cs + 1 /\
     ComponentStore.contains cs' e = Ok true /\
     ComponentStore.components cs' = ComponentStore.components cs /\
     ComponentStore.get cs' e = Throw EmptyComponent).
Proof.
  intros Hwf Ht Hie Hst Hc Hroom. split; [| split].
  - intros Hstd Hgrow. by apply store_add_fresh.
  - intros Hstd Hfull Hmax. destruct Hwf as [Hwf _].
    pose proof Hwf as (_ & Hlen & _ & _).
    unfold ComponentStore.contains in Hc.
    destruct (add_fresh_lookup (ComponentStore.set cs) e ie true Hwf Ht Hie Hst Hc Hroom)
      as (s1 & Hadd & _ & _ & Hl1 & Hce & _).
    unfold SparseSet.len in Hl1.
    assert (Hnf : (SparseSet.length (ComponentStore.set cs)
                   =? ComponentStore.FAILED_OPERATION) = false).
    { unfold ComponentStore.FAILED_OPERATION. apply Z.eqb_neq. lia. }
    unfold ComponentStore.len, SparseSet.len in Hfull.
    unfold ComponentStore.add. rewrite Hc, Hadd, Hnf. simpl. rewrite Hstd.
    unfold ComponentStore.comp_length in *. simpl.
    destruct (Z.leb_spec (Z.of_nat (Datatypes.length (ComponentStore.components cs)))
                         (SparseSet.length (ComponentStore.set cs))); [| lia].
    simpl. unfold set_length, valid_length.
    destruct (Z.leb_spec
                (Z.max (Z.of_nat (Datatypes.length (ComponentStore.components cs)) * 2)
                       (SparseSet.length (ComponentStore.set cs) + 1))
                MAX_ARRAY_LENGTH); [lia |].
    rewrite andb_false_r. simpl.
    eexists. split; [reflexivity |].
    split; [unfold ComponentStore.len, SparseSet.len; simpl; lia |].
    split; done.
  - intros Hemp. destruct Hwf as [Hwf _].
    pose proof Hwf as (_ & Hlen & _ & _).
    unfold ComponentStore.contains in Hc.
    destruct (add_fresh_lookup (ComponentStore.set cs) e ie r Hwf Ht Hie Hst Hc Hroom)
      as (s1 & Hadd & _ & _ & Hl1 & Hce & _).
    unfold SparseSet.len in Hl1.
    assert (Hnf : (SparseSet.length (ComponentStore.set cs)
                   =? ComponentStore.FAILED_OPERATION) = false).
    { unfold ComponentStore.FAILED_OPERATION. apply Z.eqb_neq. lia. }
    unfold ComponentStore.add. rewrite Hc, Hadd, Hnf. simpl. rewrite Hemp.
    eexists. split; [reflexivity |].
    split; [unfold ComponentStore.len, SparseSet.len; simpl; lia |].
    split; [done |]. split; [done |].
    unfold ComponentStore.get. simpl. by rewrite Hemp.
Qed.
End StoreAdd.

Section StoreOps.
Context {C A : Type} {Hclone : ComponentStore.Cloneable C}.
Implicit Types cs : ComponentStore.ComponentStore C A.
Import EntityHandle.

Lemma index_live_contains (s : SparseSet.SparseSet) e ie i :
  wf s -> index (SparseSet.entityHandler s) e = Ok ie ->
  SparseSet.index s e = Ok i -> i <> SparseSet.FAILED_OPERATION ->
  SparseSet.contains s e = Ok true /\ 0 <= i < SparseSet.length s.
Proof.
  intros Hwf He Hi Hnf.
  destruct (index_contained s e ie i Hwf He Hi Hnf) as [Hcell Hr].
  split; [| done].
  rewrite (contains_cell s e ie He), Hcell. simpl. unfold SparseSet.TOMBSTONE.
  destruct (Z.eqb_spec i (-1)); [lia |].
  destruct (Z.ltb_spec i (SparseSet.length s)); [done | lia].
Qed.

(** [add] with [replace] for an entity that a standard store contains. *)
Lemma store_replace_existing cs (e : jsval) (ie i : Z) (args : list A) (r : bool) :
  store_wf cs -> ComponentStore.isEmptyComp cs = false ->
  index (SparseSet.entityHandler (ComponentStore.set cs)) e = Ok ie ->
  SparseSet.index (ComponentStore.set cs) e = Ok i ->
  i <> SparseSet.FAILED_OPERATION ->
  exists cs',
    ComponentStore.add cs e args true r = (cs', Ok ComponentStore.SUCCESS_OPERATION) /\
    ComponentStore.set cs' = ComponentStore.set cs /\
    store_wf cs' /\
    ComponentStore.get cs' e = Ok (ComponentStore.CObj (ComponentStore.compConstructor cs args)) /\
    (forall k, 0 <= k < ComponentStore.len cs -> k <> i ->
               arr_get ComponentStore.CUndefined (ComponentStore.components cs') k
               = arr_get ComponentStore.CUndefined (ComponentStore.components cs) k).
Proof.
  intros [Hwf Hcomp] Hstd He Hi Hnf. specialize (Hcomp Hstd).
  destruct (index_live_contains _ e ie i Hwf He Hi Hnf) as [Hc Hr].
  assert (Hadd : SparseSet.add (ComponentStore.set cs) e r = (ComponentStore.set cs, Ok i)).
  { unfold SparseSet.add. by rewrite Hc, Hi. }
  assert (Hni : (i =? ComponentStore.FAILED_OPERATION) = false).
  { unfold ComponentStore.FAILED_OPERATION. apply Z.eqb_neq. lia. }
  assert (Hroom : (ComponentStore.comp_length cs <=? i) = false).
  { apply Z.leb_gt. lia. }
  unfold ComponentStore.add. rewrite Hc, Hadd, Hni. rewrite with_set_same.
  rewrite Hstd, Hroom. simpl.
  eexists. split; [reflexivity |]. simpl. split; [done |].
  unfold ComponentStore.comp_length in *.
  split.
  { split; [done |]. intros _. unfold ComponentStore.comp_length. simpl.
    rewrite arr_set_length by lia. lia. }
  split.
  - unfold ComponentStore.get. simpl. rewrite Hstd, Hi. simpl. rewrite Hni.
    f_equal. apply arr_get_arr_set_eq. lia.
  - intros k Hk Hne. unfold ComponentStore.len, SparseSet.len in Hk.
    apply arr_get_arr_set_ne; lia.
Qed.

(** X17.  [add] of an entity that a standard store already contains
    never changes the sparse set.  With [replace] it puts the payload
    built from the arguments in the entity's cell and leaves every other
    cell as it was; without [replace] it changes nothing.  Both return
    0. *)
Theorem store_add_existing cs (e : jsval) (ie i : Z) (args : list A) (r : bool) :
  store_wf cs -> ComponentStore.isEmptyComp cs = false ->
  index (SparseSet.entityHandler (ComponentStore.set cs)) e = Ok ie ->
  SparseSet.index (ComponentStore.set cs) e = Ok i ->
  i <> SparseSet.FAILED_OPERATION ->
  ComponentStore.add cs e args false r = (cs, Ok ComponentStore.SUCCESS_OPERATION) /\
  exists cs',
    ComponentStore.add cs e args true r = (cs', Ok ComponentStore.SUCCESS_OPERATION) /\
    ComponentStore.set cs' = ComponentStore.set cs /\
    store_wf cs' /\
    ComponentStore.get cs' e = Ok (ComponentStore.CObj (ComponentStore.compConstructor cs args)) /\
    (forall k, 0 <= k < ComponentStore.len cs -> k <> i ->
               arr_get ComponentStore.CUndefined (ComponentStore.components cs') k
               = arr_get ComponentStore.CUndefined (ComponentStore.components cs) k).
Proof.
  intros Hwf Hstd He Hi Hnf. split.
  - destruct Hwf as [Hwf Hcomp]. specialize (Hcomp Hstd).
    destruct (index_live_contains _ e ie i Hwf He Hi Hnf) as [Hc Hr].
    unfold ComponentStore.add, SparseSet.add. rewrite Hc, Hi.
    assert (Hni : (i =? ComponentStore.FAILED_OPERATION) = false).
    { unfold ComponentStore.FAILED_OPERATION. apply Z.eqb_neq. lia. }
    assert (Hroom : (ComponentStore.comp_length cs <=? i) = false).
    { apply Z.leb_gt. lia. }
    rewrite Hni, with_set_same, Hstd, Hroom. done.
  - exact (store_replace_existing cs e ie i args r Hwf Hstd He Hi Hnf).
Qed.

(** X18.  For an entity that a store does not contain: [remove] returns
    -1 and changes nothing (it looks the entity up with [index], which
    tests the cell against [length]), and so does [swap] with any other
    entity; in a standard store [get] and [getConst] raise "Component Does
    Not Exist For this Id" and [tryGet] and [tryGetConst] return [null]. *)
Theorem store_absent_entity cs (e : jsval) :
  ComponentStore.contains cs e = Ok false ->
  ComponentStore.remove cs e = (cs, Ok ComponentStore.FAILED_OPERATION) /\
  (forall x ix b,
      index (SparseSet.entityHandler (ComponentStore.set cs)) x = Ok ix ->
      ComponentStore.swap cs e x b = (cs, Ok ComponentStore.FAILED_OPERATION) /\
      ComponentStore.swap cs x e b = (cs, Ok ComponentStore.FAILED_OPERATION)) /\
  (ComponentStore.isEmptyComp cs = false ->
   ComponentStore.get cs e = Throw ComponentDoesNotExist /\
   ComponentStore.getConst cs e = Throw ComponentDoesNotExist /\
   ComponentStore.tryGet cs e = Ok ComponentStore.CNull /\
   ComponentStore.tryGetConst cs e = Ok ComponentStore.CNull).
Proof.
  intros Hc. unfold ComponentStore.contains in Hc.
  pose proof (contains_false_index _ _ Hc) as Hi.
  split; [| split].
  - unfold ComponentStore.remove. by rewrite Hi.
  - intros x ix b Hx.
    assert (Hxi : exists j, SparseSet.index (ComponentStore.set cs) x = Ok j).
    { rewrite (index_cell _ x ix Hx). eauto. }
    destruct Hxi as [j Hj].
    unfold ComponentStore.swap. rewrite Hi, Hj.
    destruct (strict_eq e x), (strict_eq x e); simpl; try done.
    all: by rewrite ?orb_true_r.
  - intros Hstd.
    unfold ComponentStore.get, ComponentStore.getConst, ComponentStore.tryGet,
      ComponentStore.tryGetConst.
    by rewrite Hstd, Hi.
Qed.

End StoreOps.

Section StoreSwap.
Context {C A : Type} {Hclone : ComponentStore.Cloneable C}.
Implicit Types cs : ComponentStore.ComponentStore C A.
Import EntityHandle.

Lemma index_ok_decodes (s : SparseSet.SparseSet) x i :
  SparseSet.index s x = Ok i ->
  exists ix, index (SparseSet.entityHandler s) x = Ok ix.
Proof.
  unfold SparseSet.index, SparseSet.pageIndex.
  destruct (index (SparseSet.entityHandler s) x); [eauto | done].
Qed.

(** X19.  [swap] of the entities at two different live positions of a
    standard store.  By default the two entities exchange their dense
    positions together with their payloads, so each keeps its payload and
    the invariants hold.  With [insatancesOnly] only the payload cells are
    exchanged: the sparse set is unchanged and each of the two entities
    now has the payload of the other. *)
Theorem store_swap_payloads cs (d1 d2 : Z) :
  store_wf cs -> ComponentStore.isEmptyComp cs = false ->
  0 <= d1 < ComponentStore.len cs -> 0 <= d2 < ComponentStore.len cs -> d1 <> d2 ->
  let a := SparseSet.dense_read (ComponentStore.set cs) d1 in
  let b := SparseSet.dense_read (ComponentStore.set cs) d2 in
  (exists cs',
      ComponentStore.swap cs a b false = (cs', Ok ComponentStore.SUCCESS_OPERATION) /\
      store_wf cs' /\ ComponentStore.len cs' = ComponentStore.len cs /\
      SparseSet.index (ComponentStore.set cs') a = Ok d2 /\
      SparseSet.index (ComponentStore.set cs') b = Ok d1 /\
      ComponentStore.get cs' a = ComponentStore.get cs a /\
      ComponentStore.get cs' b = ComponentStore.get cs b) /\
  (exists cs'',
      ComponentStore.swap cs a b true = (cs'', Ok ComponentStore.SUCCESS_OPERATION) /\
      ComponentStore.set cs'' = ComponentStore.set cs /\
      ComponentStore.get cs'' a = ComponentStore.get cs b /\
      ComponentStore.get cs'' b = ComponentStore.get cs a).
Proof.
  intros [Hwf Hcomp] Hstd H1 H2 Hne a b. specialize (Hcomp Hstd).
  unfold ComponentStore.len, SparseSet.len, ComponentStore.comp_length in *.
  set (s := ComponentStore.set cs) in *.
  set (comps := ComponentStore.components cs) in *.
  assert (Ha : SparseSet.index s a = Ok d1) by (by apply dense_index_self).
  assert (Hb : SparseSet.index s b = Ok d2) by (by apply dense_index_self).
  assert (Hab : strict_eq a b = false).
  { unfold strict_eq. apply bool_decide_eq_false. intros E.
    rewrite E in Ha. rewrite Ha in Hb. injection Hb as Hb. lia. }
  assert (Hf : (d1 =? ComponentStore.FAILED_OPERATION)
               || (d2 =? ComponentStore.FAILED_OPERATION) = false).
  { unfold ComponentStore.FAILED_OPERATION.
    destruct (Z.eqb_spec d1 (-1)), (Z.eqb_spec d2 (-1)); done || lia. }
  set (comps' := arr_set ComponentStore.CUndefined
                   (arr_set ComponentStore.CUndefined comps d1
                      (arr_get ComponentStore.CUndefined comps d2))
                   d2 (arr_get ComponentStore.CUndefined comps d1)).
  assert (Hl1 : Z.of_nat (Datatypes.length
                  (arr_set ComponentStore.CUndefined comps d1
                     (arr_get ComponentStore.CUndefined comps d2)))
                = Z.of_nat (Datatypes.length comps))
    by (rewrite arr_set_length by lia; lia).
  assert (Hc1 : arr_get ComponentStore.CUndefined comps' d1
                = arr_get ComponentStore.CUndefined comps d2).
  { unfold comps'. rewrite arr_get_arr_set_ne by lia. apply arr_get_arr_set_eq. lia. }
  assert (Hc2 : arr_get ComponentStore.CUndefined comps' d2
                = arr_get ComponentStore.CUndefined comps d1).
  { unfold comps'. apply arr_get_arr_set_eq. lia. }
  assert (Hlen' : Z.of_nat (Datatypes.length comps') = Z.of_nat (Datatypes.length comps)).
  { unfold comps'. rewrite arr_set_length by lia. lia. }
  assert (Hga : ComponentStore.get cs a = Ok (arr_get ComponentStore.CUndefined comps d1)).
  { unfold ComponentStore.get. fold s. rewrite Hstd, Ha. simpl.
    unfold ComponentStore.FAILED_OPERATION.
    destruct (Z.eqb_spec d1 (-1)); [lia | done]. }
  assert (Hgb : ComponentStore.get cs b = Ok (arr_get ComponentStore.CUndefined comps d2)).
  { unfold ComponentStore.get. fold s. rewrite Hstd, Hb. simpl.
    unfold ComponentStore.FAILED_OPERATION.
    destruct (Z.eqb_spec d2 (-1)); [lia | done]. }
  split.
  - destruct (swap_live s d1 d2 Hwf H1 H2 Hne)
      as (s' & Hswap & Hwf' & Hl' & _ & Hr1 & Hr2 & _).
    assert (Hia : SparseSet.index s' a = Ok d2).
    { unfold a. rewrite <- Hr2. apply dense_index_self; [done | lia]. }
    assert (Hib : SparseSet.index s' b = Ok d1).
    { unfold b. rewrite <- Hr1. apply dense_index_self; [done | lia]. }
    fold a b in Hswap.
    unfold ComponentStore.swap. fold s. rewrite Hab, Ha, Hb, Hf, Hstd. simpl.
    fold s. rewrite Hswap. simpl.
    eexists. split; [reflexivity |]. simpl.
    unfold SparseSet.len in Hl'.
    split.
    { split; [done |]. intros _. unfold ComponentStore.comp_length. simpl.
      fold comps comps'. lia. }
    split; [done |]. split; [done |]. split; [done |].
    rewrite Hga, Hgb.
    unfold ComponentStore.get. simpl. rewrite Hstd, Hia, Hib. simpl.
    unfold ComponentStore.FAILED_OPERATION.
    destruct (Z.eqb_spec d1 (-1)); [lia |].
    destruct (Z.eqb_spec d2 (-1)); [lia |].
    fold comps comps'. by rewrite Hc1, Hc2.
  - unfold ComponentStore.swap. fold s. rewrite Hab, Ha, Hb, Hf, Hstd. simpl.
    eexists. split; [reflexivity |]. simpl. split; [done |].
    rewrite Hga, Hgb.
    unfold ComponentStore.get. simpl. fold s. rewrite Hstd, Ha, Hb. simpl.
    unfold ComponentStore.FAILED_OPERATION.
    destruct (Z.eqb_spec d1 (-1)); [lia |].
    destruct (Z.eqb_spec d2 (-1)); [lia |].
    fold comps comps'. by rewrite Hc1, Hc2.
Qed.

(** X20.  [reserve(capacity)] returns -1 and changes nothing unless the
    capacity exceeds that of the dense buffer.  For a larger capacity that
    is beyond the largest length of the dense array (the engine's limit
    for a typed array) it raises a RangeError and changes nothing; for one
    that the dense array can take but that is beyond the largest length of
    the payload array of a standard store, it raises a RangeError after
    the dense buffer has grown.  Otherwise it returns 0: the dense buffer
    gets that capacity and, in a standard store, the payload array that
    length; the length, the invariants, and the membership and payload of
    every entity are kept. *)
Theorem reserve_keeps_contents cs (capacity : Z) :
  (capacity <= SparseSet.capacity (ComponentStore.set cs) ->
   ComponentStore.reserve cs capacity = (cs, Ok ComponentStore.FAILED_OPERATION)) /\
  (SparseSet.capacity (ComponentStore.set cs) < capacity ->
   max_length (SparseSet.typedArray (ComponentStore.set cs)) < capacity ->
   ComponentStore.reserve cs capacity = (cs, Throw RangeError)) /\
  (SparseSet.capacity (ComponentStore.set cs) < capacity ->
   capacity <= max_length (SparseSet.typedArray (ComponentStore.set cs)) ->
   ComponentStore.isEmptyComp cs = false -> MAX_ARRAY_LENGTH < capacity ->
   exists cs',
     ComponentStore.reserve cs capacity = (cs', Throw RangeError) /\
     SparseSet.capacity (ComponentStore.set cs') = capacity /\
     ComponentStore.components cs' = ComponentStore.components cs /\
     ComponentStore.len cs' = ComponentStore.len cs) /\
  (SparseSet.capacity (ComponentStore.set cs) < capacity ->
   capacity <= max_length (SparseSet.typedArray (ComponentStore.set cs)) ->
   (ComponentStore.isEmptyComp cs = false -> capacity <= MAX_ARRAY_LENGTH) ->
   exists cs',
     ComponentStore.reserve cs capacity = (cs', Ok ComponentStore.SUCCESS_OPERATION) /\
     SparseSet.capacity (ComponentStore.set cs') = capacity /\
     (ComponentStore.isEmptyComp cs = false -> ComponentStore.comp_length cs' = capacity) /\
     ComponentStore.len cs' = ComponentStore.len cs /\
     (store_wf cs ->
      store_wf cs' /\
      forall x, ComponentStore.contains cs' x = ComponentStore.contains cs x /\
                ComponentStore.get cs' x = ComponentStore.get cs x /\
                ComponentStore.tryGet cs' x = ComponentStore.tryGet cs x)).
Proof.
  split; [| split; [| split]].
  - intros Hle. unfold ComponentStore.reserve.
    destruct (Z.leb_spec capacity (SparseSet.capacity (ComponentStore.set cs))); [done | lia].
  - intros Hlt Hmax. unfold ComponentStore.reserve.
    destruct (Z.leb_spec capacity (SparseSet.capacity (ComponentStore.set cs))); [lia |].
    rewrite resize_too_large by done. by destruct cs.
  - intros Hlt Hmax Hstd Hbig. unfold ComponentStore.reserve.
    destruct (Z.leb_spec capacity (SparseSet.capacity (ComponentStore.set cs))); [lia |].
    destruct (resize_grows (ComponentStore.set cs) capacity Hlt Hmax)
      as (s1 & Hres & Hcap1 & _ & Hl1 & _).
    rewrite Hres. simpl. rewrite Hstd. simpl.
    assert (Hvl : valid_length capacity = false) by (unfold valid_length; lia).
    unfold set_length. rewrite Hvl.
    eexists. split; [reflexivity |]. simpl.
    split; [done |]. split; [done |]. unfold ComponentStore.len, SparseSet.len. simpl. lia.
  - intros Hlt Hmax Harr. unfold ComponentStore.reserve.
    destruct (Z.leb_spec capacity (SparseSet.capacity (ComponentStore.set cs))); [lia |].
    destruct (resize_grows (ComponentStore.set cs) capacity Hlt Hmax)
      as (s1 & Hres & Hcap1 & Hsp1 & Hl1 & Hps1 & Hty1 & Hh1 & Hread1 & Hwf1 & _).
    rewrite Hres. simpl.
    assert (Hpos : 0 <= capacity) by (unfold SparseSet.capacity in Hlt; lia).
    assert (Hvl : ComponentStore.isEmptyComp cs = false -> valid_length capacity = true).
    { intros Hs. specialize (Harr Hs). unfold valid_length. lia. }
    assert (Hci : forall x, SparseSet.contains s1 x = SparseSet.contains (ComponentStore.set cs) x
                            /\ SparseSet.index s1 x = SparseSet.index (ComponentStore.set cs) x).
    { intros x. unfold SparseSet.contains, SparseSet.index, SparseSet.pageIndex,
        SparseSet.pageOffset, SparseSet.live_cell.
      by rewrite Hh1, Hps1, Hsp1, Hl1. }
    destruct (ComponentStore.isEmptyComp cs) eqn:Hemp; simpl.
    + eexists. split; [reflexivity |]. simpl.
      split; [done |]. split; [done |].
      split; [unfold ComponentStore.len, SparseSet.len; simpl; lia |].
      intros [Hwf _]. split.
      * split; [by apply Hwf1 |]. simpl. by rewrite Hemp.
      * intros x. destruct (Hci x) as [Hcx Hix].
        split; [done |].
        unfold ComponentStore.get, ComponentStore.tryGet. simpl. by rewrite Hemp.
    + unfold set_length. rewrite (Hvl eq_refl).
      eexists. split; [reflexivity |]. simpl.
      split; [done |].
      split.
      { intros _. unfold ComponentStore.comp_length, arr_resize. simpl.
        rewrite length_app, length_take, length_replicate. lia. }
      split; [unfold ComponentStore.len, SparseSet.len; simpl; lia |].
      intros [Hwf Hcomp]. specialize (Hcomp Hemp).
      pose proof Hwf as (_ & Hlen & _ & _).
      unfold ComponentStore.comp_length in *.
      split.
      * split; [by apply Hwf1 |]. intros _.
        unfold ComponentStore.comp_length, arr_resize. simpl.
        rewrite length_app, length_take, length_replicate. lia.
      * intros x. destruct (Hci x) as [Hcx Hix].
        split; [done |].
        set (cs' := ComponentStore.with_components _ _).
        destruct (get_by_index cs cs' x) as (H1 & _ & H3 & _); [done | done | | done].
        intros i Hi Hif. unfold cs', arr_resize. simpl.
        assert (Hir : 0 <= i < SparseSet.length (ComponentStore.set cs)).
        { destruct (index_ok_decodes _ _ _ Hi) as [ix Hx].
          by destruct (index_contained _ x ix i Hwf Hx Hi Hif). }
        rewrite arr_get_app_l by (rewrite length_take; lia).
        apply arr_get_take. lia.
Qed.
End StoreSwap.

(** ** Registry *)

Section RegistryExtras.
Context {C A : Type} {Hclone : ComponentStore.Cloneable C}.
Implicit Types r : Registry.Registry C A.
Implicit Types T : Registry.ComponentConstructor C A.
Implicit Types cs : ComponentStore.ComponentStore C A.
Import EntityHandle.

Lemma map_get_set (l : list (nat * ComponentStore.ComponentStore C A)) k v k' :
  Registry.map_get (Registry.map_set l k v) k' =
  if Nat.eqb k k' then Some v else Registry.map_get l k'.
Proof.
  induction l as [| [k0 v0] l IH]; simpl.
  - destruct (Nat.eqb_spec k k'); done.
  - destruct (Nat.eqb_spec k0 k) as [-> | Hne]; simpl.
    + destruct (Nat.eqb_spec k k'); done.
    + rewrite IH. destruct (Nat.eqb_spec k0 k') as [-> | Hne'];
        [| done].
      destruct (Nat.eqb_spec k k'); [lia | done].
Qed.

Lemma map_set_same (l : list (nat * ComponentStore.ComponentStore C A)) k v :
  Registry.map_get l k = Some v -> Registry.map_set l k v = l.
Proof.
  induction l as [| [k0 v0] l IH]; simpl; [done |].
  destruct (Nat.eqb_spec k0 k) as [-> | Hne].
  - by intros [= ->].
  - intros H. by rewrite IH.
Qed.

(** X21.  [prepare] registers a component type once: for a registered
    type it returns the existing store and changes nothing, whatever kind
    and configuration are passed; after a first registration the type is
    registered with the store returned, a second [prepare] returns that
    store, and the stores of the other types are untouched. *)
Theorem prepare_registers_once r T (CType : Z) (config : Registry.ComponentOptions) :
  (forall cs, Registry.map_get (Registry.components r) (Registry.ctor_id T) = Some cs ->
              Registry.prepare r T CType config = (r, Ok cs)) /\
  (forall r1 cs,
      Registry.prepare r T CType config = (r1, Ok cs) ->
      Registry.map_get (Registry.components r1) (Registry.ctor_id T) = Some cs /\
      Registry.len r1 T = ComponentStore.len cs /\
      Registry.entities r1 = Registry.entities r /\
      (forall CType' config', Registry.prepare r1 T CType' config' = (r1, Ok cs)) /\
      (forall T', Registry.ctor_id T' <> Registry.ctor_id T ->
                  Registry.map_get (Registry.components r1) (Registry.ctor_id T')
                  = Registry.map_get (Registry.components r) (Registry.ctor_id T'))).
Proof.
  split.
  - intros cs Hcs. unfold Registry.prepare. by rewrite Hcs.
  - intros r1 cs. unfold Registry.prepare.
    destruct (Registry.map_get (Registry.components r) (Registry.ctor_id T))
      as [cs0 |] eqn:Hget.
    + intros [= <- <-]. split; [done |].
      split; [unfold Registry.len; by rewrite Hget |]. split; [done |].
      split; [intros; unfold Registry.prepare; by rewrite Hget | done].
    + destruct (ComponentStore.new _ _ _) as [cs0 |]; [| done].
      intros [= <- <-]. simpl.
      assert (Hnew : Registry.map_get
                (Registry.map_set (Registry.components r) (Registry.ctor_id T) cs0)
                (Registry.ctor_id T) = Some cs0).
      { rewrite map_get_set. by rewrite Nat.eqb_refl. }
      split; [done |].
      split; [unfold Registry.len; simpl; by rewrite Hnew |]. split; [done |].
      split.
      * intros. unfold Registry.prepare. simpl. by rewrite Hnew.
      * intros T' Hne. rewrite map_get_set.
        destruct (Nat.eqb_spec (Registry.ctor_id T) (Registry.ctor_id T')); [lia | done].
Qed.

(** X22.  [add(e, T, CType, args, config)] for a live entity and a type
    that is not registered yet, with a component configuration of a
    power-of-two page size of at least 128 and a positive pool size that
    is a valid length of the payload array and of the dense array: the
    call registers a standard store for [T], returns 0, and then
    [has(e, T)] is true, [get(e, T)] and [tryGet(e, T)] return the payload
    [new T(...args)], [len(T)] is 1 and the entity is still valid. *)
Theorem registry_add_registers r T (e : jsval) (ie : Z) (args : list A)
        (h : EntityHandle) (typed : bool) (pool k : Z) (rp rs : option bool) :
  Registry.valid r e = Ok true ->
  Registry.map_get (Registry.components r) (Registry.ctor_id T) = None ->
  EntityStore.opt_handler (Registry.config_entityOptions r) = Some h ->
  index h e = Ok ie ->
  (typed = true -> to_uint32_cell e = Ok e) ->
  0 < pool <= MAX_ARRAY_LENGTH -> pool <= max_length typed -> 7 <= k <= 30 ->
  exists r',
    Registry.add r e T ComponentStore.ComponentStandard args
      (Registry.mkComponentOptions (Some typed) (Some pool) (Some (2 ^ k)) rp rs)
      = (r', Ok ComponentStore.SUCCESS_OPERATION) /\
    Registry.has r' e T = Ok true /\
    Registry.get r' e T = Ok (ComponentStore.CObj (Registry.ctor_new T args)) /\
    Registry.tryGet r' e T = Ok (ComponentStore.CObj (Registry.ctor_new T args)) /\
    Registry.len r' T = 1 /\
    Registry.valid r' e = Ok true /\
    Registry.entities r' = Registry.entities r.
Proof.
  intros Hvalid Hnone Hh Hie Hst Hpool Hdense Hk.
  unfold Registry.valid in Hvalid.
  destruct (new_set_ok typed pool k h ltac:(lia) Hk)
    as (s & Hs & Hwf & Ht & Hlen & Hcap & _ & Hhs & Htys & Hcont).
  set (cs0 := ComponentStore.mkStore s (replicate (Z.to_nat pool) ComponentStore.CUndefined)
                (Registry.ctor_new T) false).
  assert (Hcs0 : ComponentStore.new (Some (Registry.ctor_new T))
                   ComponentStore.ComponentStandard
                   (Registry.getCompConfig (Registry.config_entityOptions r)
                      (Registry.mkComponentOptions (Some typed) (Some pool)
                                                   (Some (2 ^ k)) rp rs))
                 = Ok cs0).
  { unfold ComponentStore.new, Registry.getCompConfig. simpl. rewrite Hh.
    unfold valid_length.
    destruct (Z.leb_spec 0 pool); [| lia].
    destruct (Z.leb_spec pool MAX_ARRAY_LENGTH); [| lia]. simpl. by rewrite Hs. }
  destruct (store_add_fresh cs0 e ie args (default true rp) (default true rs))
    as (cs' & Hadd & _ & _ & Hl' & Hc' & Hg' & Htg' & _ & _ & _).
  { split; [done |]. intros _. unfold ComponentStore.comp_length. simpl.
    rewrite length_replicate. unfold SparseSet.len in Hlen. lia. }
  { done. }
  { simpl. by rewrite Hhs. }
  { intros E. apply Hst. simpl in E. by rewrite <- Htys. }
  { simpl. by apply (Hcont e ie). }
  { simpl. unfold SparseSet.len in Hlen. lia. }
  { done. }
  { left. unfold ComponentStore.len, ComponentStore.comp_length. simpl.
    rewrite length_replicate. unfold SparseSet.len in *. lia. }
  unfold Registry.add. rewrite Hvalid.
  unfold Registry.prepare. rewrite Hnone, Hcs0. simpl.
  rewrite Hadd. eexists. split; [reflexivity |].
  set (r' := Registry.with_components _ _).
  assert (Hget : Registry.map_get (Registry.components r') (Registry.ctor_id T) = Some cs').
  { unfold r'. simpl. rewrite map_get_set. by rewrite Nat.eqb_refl. }
  assert (Halive : EntityStore.isAlive (Registry.entities r') e = Ok true) by exact Hvalid.
  split; [unfold Registry.has, Registry.checked; by rewrite Halive, Hget |].
  split; [unfold Registry.get, Registry.checked; by rewrite Halive, Hget |].
  split; [unfold Registry.tryGet; by rewrite Hget |].
  split; [unfold Registry.len; rewrite Hget, Hl'; unfold ComponentStore.len; simpl;
          unfold SparseSet.len in *; lia |].
  split; done.
Qed.

Lemma with_components_same r : Registry.with_components r (Registry.components r) = r.
Proof. by destruct r. Qed.

Lemma registry_lookups r r' T cs' (e : jsval) :
  Registry.map_get (Registry.components r') (Registry.ctor_id T) = Some cs' ->
  EntityStore.isAlive (Registry.entities r') e = Ok true ->
  Registry.has r' e T = ComponentStore.contains cs' e /\
  Registry.get r' e T = ComponentStore.get cs' e /\
  Registry.tryGet r' e T = ComponentStore.tryGet cs' e /\
  Registry.len r' T = ComponentStore.len cs'.
Proof.
  intros Hget Halive.
  unfold Registry.has, Registry.get, Registry.tryGet, Registry.len, Registry.checked.
  by rewrite Halive, Hget.
Qed.

(** X23.  [add(e, T, ...)] for a live entity and a registered standard
    type whose store does not contain [e] and has room (the payload array
    has room, or the configuration allows resizing and the doubled length
    of the payload array is a valid array length): the call returns 0,
    [has(e, T)] is true, [get(e, T)] returns the payload built from the
    arguments, [len(T)] grows by one, and the stores of the other types
    and the entity store are untouched. *)
Theorem registry_add_then_get r T cs (e : jsval) (ie : Z) (CType : Z) (args : list A)
        (config : Registry.ComponentOptions) :
  Registry.valid r e = Ok true ->
  Registry.map_get (Registry.components r) (Registry.ctor_id T) = Some cs ->
  ComponentStore.isEmptyComp cs = false ->
  store_wf cs -> tight (ComponentStore.set cs) ->
  index (SparseSet.entityHandler (ComponentStore.set cs)) e = Ok ie ->
  stored (ComponentStore.set cs) e ->
  ComponentStore.contains cs e = Ok false ->
  SparseSet.length (ComponentStore.set cs) < SparseSet.capacity (ComponentStore.set cs) ->
  ComponentStore.len cs < ComponentStore.comp_length cs \/
    (Registry.opt_resize config <> Some false /\
     2 * ComponentStore.comp_length cs <= MAX_ARRAY_LENGTH) ->
  exists r',
    Registry.add r e T CType args config = (r', Ok ComponentStore.SUCCESS_OPERATION) /\
    Registry.has r' e T = Ok true /\
    Registry.get r' e T = Ok (ComponentStore.CObj (ComponentStore.compConstructor cs args)) /\
    Registry.len r' T = Registry.len r T + 1 /\
    Registry.entities r' = Registry.entities r /\
    (forall T', Registry.ctor_id T' <> Registry.ctor_id T ->
                Registry.map_get (Registry.components r') (Registry.ctor_id T')
                = Registry.map_get (Registry.components r) (Registry.ctor_id T')).
Proof.
  intros Hvalid Hget Hstd Hwf Ht Hie Hst Hc Hroom Hgrow.
  unfold Registry.valid in Hvalid.
  destruct (store_add_fresh cs e ie args
              (default true (Registry.opt_replace config))
              (default true (Registry.opt_resize config)) Hwf Ht Hie Hst Hc Hroom Hstd)
    as (cs' & Hadd & _ & _ & Hl' & Hc' & Hg' & _).
  { destruct Hgrow as [? | [Hr Hmax]]; [by left | right].
    split; [| done]. destruct (Registry.opt_resize config) as [[|] |]; done. }
  unfold Registry.add. rewrite Hvalid.
  unfold Registry.prepare. rewrite Hget, Hadd.
  eexists. split; [reflexivity |].
  set (r' := Registry.with_components _ _).
  assert (Hget' : Registry.map_get (Registry.components r') (Registry.ctor_id T) = Some cs').
  { unfold r'. simpl. rewrite map_get_set. by rewrite Nat.eqb_refl. }
  destruct (registry_lookups r r' T cs' e Hget' Hvalid) as (H1 & H2 & _ & H4).
  rewrite H1, H2, H4.
  split; [done |]. split; [done |].
  split; [unfold Registry.len; by rewrite Hget |]. split; [done |].
  intros T' Hne. unfold r'. simpl. rewrite map_get_set.
  destruct (Nat.eqb_spec (Registry.ctor_id T) (Registry.ctor_id T')); [lia | done].
Qed.

(** X24.  [fetchReplace(e, T, args)] and [replace(e, T, args)] for a live
    entity that has a component of the registered standard type [T]: both
    reach the same registry, where [get(e, T)] returns the payload built
    from the arguments and [len(T)] is unchanged; [fetchReplace] returns
    what [get(e, T)] returned before, [replace] returns 0.  For a live
    entity both raise "no such component registerd" when [T] is not
    registered and "No such entity is registerd for comp" when the store
    of [T] does not contain the entity, and change nothing. *)
Theorem fetch_replace_returns_old r T (e : jsval) (args : list A) :
  Registry.valid r e = Ok true ->
  (Registry.map_get (Registry.components r) (Registry.ctor_id T) = None ->
   Registry.replace r e T args = (r, Throw NoSuchComponent) /\
   Registry.fetchReplace r e T args = (r, Throw NoSuchComponent)) /\
  (forall cs,
      Registry.map_get (Registry.components r) (Registry.ctor_id T) = Some cs ->
      ComponentStore.contains cs e = Ok false ->
      Registry.replace r e T args = (r, Throw NoSuchEntityForComp) /\
      Registry.fetchReplace r e T args = (r, Throw NoSuchEntityForComp)) /\
  (forall cs ie i,
      Registry.map_get (Registry.components r) (Registry.ctor_id T) = Some cs ->
      store_wf cs -> ComponentStore.isEmptyComp cs = false ->
      index (SparseSet.entityHandler (ComponentStore.set cs)) e = Ok ie ->
      SparseSet.index (ComponentStore.set cs) e = Ok i ->
      i <> SparseSet.FAILED_OPERATION ->
      exists r',
        Registry.fetchReplace r e T args = (r', Registry.get r e T) /\
        Registry.replace r e T args = (r', Ok ComponentStore.SUCCESS_OPERATION) /\
        Registry.get r' e T
          = Ok (ComponentStore.CObj (ComponentStore.compConstructor cs args)) /\
        Registry.len r' T = Registry.len r T /\
        Registry.has r' e T = Ok true).
Proof.
  intros Hvalid. unfold Registry.valid in Hvalid.
  split; [| split].
  - intros Hnone. unfold Registry.replace, Registry.fetchReplace, Registry.checked.
    by rewrite Hvalid, Hnone.
  - intros cs Hget Hc. unfold Registry.replace, Registry.fetchReplace, Registry.checked.
    by rewrite Hvalid, Hget, Hc.
  - intros cs ie i Hget Hwf Hstd Hie Hi Hnf.
    destruct (store_replace_existing cs e ie i args true Hwf Hstd Hie Hi Hnf)
      as (cs' & Hadd & Hset & _ & Hg' & _).
    destruct Hwf as [Hwfs _].
    destruct (index_live_contains _ e ie i Hwfs Hie Hi Hnf) as [Hc Hr].
    assert (Hold : exists old, ComponentStore.get cs e = Ok old).
    { unfold ComponentStore.get. rewrite Hstd, Hi. simpl.
      unfold ComponentStore.FAILED_OPERATION, SparseSet.FAILED_OPERATION in *.
      destruct (Z.eqb_spec i (-1)); [done | eauto]. }
    destruct Hold as [old Hold].
    unfold Registry.replace, Registry.fetchReplace, Registry.checked, Registry.update.
    unfold ComponentStore.contains in *.
    rewrite Hvalid, Hget, Hc, Hold, Hadd. simpl.
    eexists. split.
    { f_equal. unfold Registry.get, Registry.checked. by rewrite Hvalid, Hget. }
    split; [done |].
    set (r' := Registry.with_components _ _).
    assert (Hget' : Registry.map_get (Registry.components r') (Registry.ctor_id T)
                    = Some cs').
    { unfold r'. simpl. rewrite map_get_set. by rewrite Nat.eqb_refl. }
    destruct (registry_lookups r r' T cs' e Hget' Hvalid) as (H1 & H2 & _ & H4).
    rewrite H1, H2, H4.
    split; [done |].
    split; [unfold Registry.len, ComponentStore.len; by rewrite Hget, Hset |].
    unfold ComponentStore.contains. by rewrite Hset.
Qed.

(** X25.  [remove(e, T)] and [removeIfExist(e, T)] for a live entity.
    When [T] is not registered, [remove] raises "no such component
    registerd" and [removeIfExist] returns -1.  When the store of [T] does
    not contain the entity, both return -1 and the registry is unchanged.
    When it does, both return 0 and reach the same registry, where
    [has(e, T)] is false and [len(T)] is one less. *)
Theorem registry_remove_variants r T (e : jsval) :
  Registry.valid r e = Ok true ->
  (Registry.map_get (Registry.components r) (Registry.ctor_id T) = None ->
   Registry.remove r e T = (r, Throw NoSuchComponent) /\
   Registry.removeIfExist r e T = (r, Ok Registry.SENTINEL)) /\
  (forall cs,
      Registry.map_get (Registry.components r) (Registry.ctor_id T) = Some cs ->
      ComponentStore.contains cs e = Ok false ->
      Registry.remove r e T = (r, Ok ComponentStore.FAILED_OPERATION) /\
      Registry.removeIfExist r e T = (r, Ok Registry.SENTINEL)) /\
  (forall cs ie i,
      Registry.map_get (Registry.components r) (Registry.ctor_id T) = Some cs ->
      store_wf cs ->
      index (SparseSet.entityHandler (ComponentStore.set cs)) e = Ok ie ->
      SparseSet.index (ComponentStore.set cs) e = Ok i ->
      i <> SparseSet.FAILED_OPERATION ->
      exists r',
        Registry.remove r e T = (r', Ok ComponentStore.SUCCESS_OPERATION) /\
        Registry.removeIfExist r e T = (r', Ok ComponentStore.SUCCESS_OPERATION) /\
        Registry.has r' e T = Ok false /\
        Registry.len r' T = Registry.len r T - 1 /\
        Registry.valid r' e = Ok true).
Proof.
  intros Hvalid. unfold Registry.valid in Hvalid.
  split; [| split].
  - intros Hnone. unfold Registry.remove, Registry.removeIfExist, Registry.checked.
    by rewrite Hvalid, Hnone.
  - intros cs Hget Hc.
    assert (Hrem : ComponentStore.remove cs e
                   = (cs, Ok ComponentStore.FAILED_OPERATION)).
    { unfold ComponentStore.remove.
      by rewrite (contains_false_index _ _ Hc). }
    unfold Registry.remove, Registry.removeIfExist, Registry.checked, Registry.update.
    rewrite Hvalid, Hget, Hc, Hrem. simpl.
    by rewrite (map_set_same _ _ _ Hget), with_components_same.
  - intros cs ie i Hget Hwf Hie Hi Hnf.
    destruct (store_remove_contained cs e ie i Hwf Hie Hi Hnf)
      as (cs' & Hrem & Hl' & Hc' & _).
    destruct Hwf as [Hwfs _].
    destruct (index_live_contains _ e ie i Hwfs Hie Hi Hnf) as [Hc Hr].
    unfold Registry.remove, Registry.removeIfExist, Registry.checked, Registry.update.
    unfold ComponentStore.contains in Hc.
    unfold ComponentStore.contains at 1.
    rewrite Hvalid, Hget, Hc, Hrem. simpl.
    eexists. split; [reflexivity |]. split; [reflexivity |].
    set (r' := Registry.with_components _ _).
    assert (Hget' : Registry.map_get (Registry.components r') (Registry.ctor_id T)
                    = Some cs').
    { unfold r'. simpl. rewrite map_get_set. by rewrite Nat.eqb_refl. }
    destruct (registry_lookups r r' T cs' e Hget' Hvalid) as (H1 & _ & _ & H4).
    rewrite H1, H4. split; [done |].
    split; [unfold Registry.len; by rewrite Hget |]. done.
Qed.

Lemma addComps_loop_app (e : jsval) pre : forall r rest,
  Registry.addComps_loop r e (pre ++ rest) =
  match Registry.addComps_loop r e pre with
  | (r1, Ok _) => Registry.addComps_loop r1 e rest
  | (r1, Throw err) => (r1, Throw err)
  end.
Proof.
  induction pre as [| [[[[T CType] args] config] |] pre IH]; intros r rest; simpl.
  - done.
  - destruct (Registry.add r e T _ _ _) as [r1 [? |]]; [apply IH | done].
  - done.
Qed.

(** X26.  [addComps] is not atomic.  When the entries before an item that
    is not an array have been added, the call raises "Invalid component
    entry" and the registry keeps the components added so far. *)
Theorem addComps_keeps_prefix r (e : jsval) (pre post : list Registry.comp_entry) r1 :
  Registry.addComps r e pre = (r1, Ok tt) ->
  Registry.addComps r e (pre ++ None :: post) = (r1, Throw InvalidComponentEntry).
Proof.
  unfold Registry.addComps.
  destruct (EntityStore.isAlive (Registry.entities r) e) as [[|] |]; [| done | done].
  intros H. rewrite addComps_loop_app, H. done.
Qed.
End RegistryExtras.

(** ** SparseSet: sorting a full dense buffer *)

Section SortFull.
Import EntityHandle.







End SortFull.

End WithEngine.
(** * Examples

    The properties above at concrete stores, and the concrete runs that
    settle the remaining statements. *)

Import EntityHandle.

#[local] Existing Instance Scenario.engine.



(** C1 (the code departs from the claim).  In the set obtained by
    [add(A); add(B); reset(); add(D)], the entity [B] is not contained (its
    cell holds the stale dense index 1 while [length] is 1); yet
    [remove(B)] returns 0, decrements [length], overwrites a dense entry
    and a sparse cell, and leaves the set without [D]. *)
Theorem remove_stale_cell_succeeds :
  SparseSet.contains Scenario.stale_set Scenario.B = Ok false /\
  SparseSet.contains Scenario.stale_set Scenario.D = Ok true /\
  SparseSet.len Scenario.stale_set = 1 /\
  snd (SparseSet.remove Scenario.stale_set Scenario.B) = Ok SparseSet.SUCCESS_OPERATION /\
  SparseSet.len (fst (SparseSet.remove Scenario.stale_set Scenario.B)) = 0 /\
  SparseSet.dense (fst (SparseSet.remove Scenario.stale_set Scenario.B))
    <> SparseSet.dense Scenario.stale_set /\
  SparseSet.sparse (fst (SparseSet.remove Scenario.stale_set Scenario.B))
    <> SparseSet.sparse Scenario.stale_set /\
  SparseSet.contains (fst (SparseSet.remove Scenario.stale_set Scenario.B)) Scenario.D
    = Ok false.
Proof. vm_compute. repeat split; try reflexivity; discriminate. Qed.

(** C2 (the code departs from the claim).  With a dense buffer of capacity
    4 holding [D, B] ([length] 2), [sort((a, b) => a - b)] sorts the whole
    buffer: the two unused zero cells move into the live prefix, the
    contained entities become [0, 0], and the cell of [dense[0]] holds 1.
    When page 0 was never allocated the same call raises a TypeError. *)
Theorem sort_includes_slack :
  SparseSet.entities Scenario.slack_set = [Scenario.D; Scenario.B] /\
  SparseSet.capacity Scenario.slack_set = 4 /\
  snd (SparseSet.sort Scenario.slack_set Scenario.ascending)
    = Ok SparseSet.SUCCESS_OPERATION /\
  SparseSet.entities (fst (SparseSet.sort Scenario.slack_set Scenario.ascending))
    = [JNumber 0; JNumber 0] /\
  SparseSet.index (fst (SparseSet.sort Scenario.slack_set Scenario.ascending))
                  (JNumber 0) = Ok 1 /\
  snd (SparseSet.sort Scenario.far_set Scenario.ascending) = Throw TypeError.
Proof. vm_compute. repeat split; reflexivity. Qed.

(** C5 (the code departs from the claim).  A store of capacity 3 that is
    not resizable serves two calls of [create()], filling slots 0 and 1;
    the third call raises "Limit reached Cant Resize" although
    [append_index] is 2 and slot 2 is unused. *)
Theorem create_fails_one_early :
  let '(st1, r1) := EntityStore.create Scenario.fixed_store in
  let '(st2, r2) := EntityStore.create st1 in
  let '(st3, r3) := EntityStore.create st2 in
  EntityStore.cap Scenario.fixed_store = 3 /\
  EntityStore.free_slot Scenario.fixed_store = -1 /\
  r1 = Ok (EntityHandle.make EntityHandle.EntityHandleMedium 0 0) /\
  r2 = Ok (EntityHandle.make EntityHandle.EntityHandleMedium 1 0) /\
  r3 = Throw CapacityExceeded /\
  EntityStore.append_index st2 = 2 /\
  Z.of_nat (Datatypes.length (EntityStore.entities st2)) = 3.
Proof. vm_compute. repeat split; reflexivity. Qed.

(** The store of [C] in the registry where [e2] reuses the slot of [e1]. *)
Lemma membership_ignores_version_witness :
  let '(r, e1, e2) := Scenario.registry_recycled in
  Registry.valid r e1 = Ok false /\
  Registry.tryGet r e1 Scenario.C = Registry.tryGet r e2 Scenario.C /\
  Registry.tryGet r e1 Scenario.C =
    Ok (arr_get ComponentStore.CUndefined
          (ComponentStore.components
             (default Scenario.empty_comp_store
                (Registry.map_get (Registry.components r) 0%nat))) 0).
Proof.
  destruct Scenario.registry_recycled as [[r e1] e2] eqn:E.
  destruct membership_ignores_version as [_ H].
  assert (Er : r = fst (fst Scenario.registry_recycled)) by (by rewrite E).
  assert (E1 : e1 = snd (fst Scenario.registry_recycled)) by (by rewrite E).
  assert (E2 : e2 = snd Scenario.registry_recycled) by (by rewrite E).
  clear E. subst r e1 e2.
  split; [vm_compute; reflexivity |].
  edestruct (H Z Z (fst (fst Scenario.registry_recycled)) Scenario.C
               (default Scenario.empty_comp_store
                  (Registry.map_get
                     (Registry.components (fst (fst Scenario.registry_recycled))) 0%nat))
               (snd (fst Scenario.registry_recycled))
               (snd Scenario.registry_recycled) 0 0) as (H1 & H2 & _);
    [vm_compute; reflexivity .. |].
  split; [exact H1 | exact H2].
Defined.

Lemma tryGet_family_witness :
  Registry.tryGet (fst (fst Scenario.registry_recycled))
                  (snd (fst Scenario.registry_recycled)) Scenario.C2
    = Ok ComponentStore.CNull /\
  Registry.tryGetConst (fst (fst Scenario.registry_recycled))
                       (snd (fst Scenario.registry_recycled)) Scenario.C2
    = Ok ComponentStore.CNull.
Proof.
  destruct (tryGet_family Z Z (fst (fst Scenario.registry_recycled))
              (snd (fst Scenario.registry_recycled)) Scenario.C2) as (_ & _ & H).
  apply (H (default Scenario.empty_comp_store
              (Registry.map_get
                 (Registry.components (fst (fst Scenario.registry_recycled))) 1%nat)));
    vm_compute; reflexivity.
Defined.

(** The claim as worded fails: in a fresh registry no store is registered
    for [C], so the entity has no component of that type and no store of
    empty kind is involved; both calls raise. *)
Lemma tryGet_unregistered_raises :
  Registry.map_get (Registry.components Scenario.fresh_registry)
                   (Registry.ctor_id Scenario.C) = None /\
  Registry.tryGet Scenario.fresh_registry Scenario.A Scenario.C = Throw NoSuchComponent /\
  Registry.tryGetConst Scenario.fresh_registry Scenario.A Scenario.C
    = Throw NoSuchComponent.
Proof. vm_compute. repeat split; reflexivity. Qed.

Lemma swap_remove_coherence_witness :
  exists cs',
    ComponentStore.remove Scenario.abd_store Scenario.B
      = (cs', Ok ComponentStore.SUCCESS_OPERATION) /\
    ComponentStore.len cs' = 2 /\
    SparseSet.index (ComponentStore.set cs') Scenario.D = Ok 1.
Proof.
  destruct swap_remove_coherence as [_ H].
  destruct (H Z Z Scenario.abd_store Scenario.B 1 1) as (cs' & H1 & H2 & _ & _ & _ & H3).
  - apply (bool_decide_unpack _). vm_compute. exact I.
  - reflexivity.
  - vm_compute. reflexivity.
  - vm_compute. reflexivity.
  - discriminate.
  - exists cs'. split; [exact H1 |]. split; [exact H2 |].
    rewrite (H3 Scenario.D 2); [vm_compute; reflexivity | vm_compute; reflexivity | lia].
Defined.

Lemma sort_by_component_witness :
  ComponentStore.data Scenario.s5_store !! 0%nat = Some Scenario.A /\
  exists cs',
    ComponentStore.sortBasedComponent Scenario.s5_store Scenario.by_key
      = (cs', Ok ComponentStore.SUCCESS_OPERATION) /\
    StronglySorted (not_before Scenario.by_key) (payloads cs') /\
    pairs cs' ≡ₚ pairs Scenario.s5_store.
Proof.
  split; [reflexivity |].
  destruct (sort_by_component Z Z Scenario.s5_store Scenario.by_key eq_refl) as [_ H].
  destruct H as (cs' & H1 & _ & H2 & H3 & _).
  - vm_compute. reflexivity.
  - apply (bool_decide_unpack _). vm_compute. exact I.
  - exists cs'. split; [exact H1 |]. split; [| exact H3].
    apply H2. apply (bool_decide_unpack _). vm_compute. exact I.
Defined.

(** The claim as worded fails for a comparator that is not consistent:
    with [(a, b) => -1] the sort of S5 succeeds and keeps the pairs, but
    leaves the payloads 2, 1, 3, where every payload sorts before the one
    that precedes it. *)
Lemma sort_inconsistent_comparator :
  let cmp := fun _ _ : ComponentStore.cell Z => -1 in
  let '(cs, r) := ComponentStore.sortBasedComponent Scenario.s5_store cmp in
  r = Ok ComponentStore.SUCCESS_OPERATION /\
  payloads cs
    = [ComponentStore.CObj 2; ComponentStore.CObj 1; ComponentStore.CObj 3] /\
  take 3 (ComponentStore.data cs) = [Scenario.D; Scenario.B; Scenario.A] /\
  ~ StronglySorted (not_before cmp) (payloads cs).
Proof.
  vm_compute. repeat split; try reflexivity.
  intros Hs. inversion Hs as [| a l _ Hall]; subst.
  apply Forall_cons in Hall as [Hle _]. by apply Hle.
Qed.

(** S5: the sort of three entities by their key. *)
Example sort_scenario :
  let '(cs, r) := ComponentStore.sortBasedComponent Scenario.s5_store Scenario.by_key in
  r = Ok ComponentStore.SUCCESS_OPERATION /\
  take 3 (ComponentStore.data cs) = [Scenario.B; Scenario.D; Scenario.A] /\
  take 3 (ComponentStore.components cs)
    = [ComponentStore.CObj 1; ComponentStore.CObj 2; ComponentStore.CObj 3] /\
  SparseSet.index (ComponentStore.set cs) Scenario.B = Ok 0 /\
  SparseSet.index (ComponentStore.set cs) Scenario.D = Ok 1 /\
  SparseSet.index (ComponentStore.set cs) Scenario.A = Ok 2.
Proof. vm_compute. repeat split; reflexivity. Qed.

Lemma destroy_purges_witness :
  let '(r, e1) := Scenario.registry_one in
  Registry.len r Scenario.C = 1 /\ Registry.len r Scenario.C2 = 1 /\
  (exists r',
      Registry.destroy r e1 = (r', Ok tt) /\
      Registry.valid r' e1 = Ok false /\
      Forall2 (purged e1) (Registry.components r) (Registry.components r')) /\
  Registry.destroy (fst (Registry.destroy r e1)) e1
    = (fst (Registry.destroy r e1), Ok tt).
Proof.
  destruct Scenario.registry_one as [r e1] eqn:E.
  assert (Er : r = fst Scenario.registry_one) by (by rewrite E).
  assert (Ee : e1 = snd Scenario.registry_one) by (by rewrite E).
  clear E. subst r e1.
  split; [reflexivity |]. split; [reflexivity |]. split.
  - destruct (destroy_purges Z Z (fst Scenario.registry_one)
                (snd Scenario.registry_one)) as [H _].
    apply H.
    + apply (bool_decide_unpack _). vm_compute. exact I.
    + vm_compute. exact I.
    + vm_compute. reflexivity.
  - destruct (destroy_purges Z Z (fst (Registry.destroy (fst Scenario.registry_one)
                                         (snd Scenario.registry_one)))
                (snd Scenario.registry_one)) as (_ & H & _).
    destruct H as [H _]; [vm_compute; reflexivity | exact H].
Defined.

(** The claim as worded fails on its last clause: in the registry where
    [e1] was destroyed and its slot reused, [tryGet] and [tryGetConst]
    accept the dead handle [e1] without raising. *)
Lemma tryGet_accepts_dead_entity :
  let '(r, e1, e2) := Scenario.registry_recycled in
  Registry.valid r e1 = Ok false /\
  Registry.tryGet r e1 Scenario.C2 = Ok ComponentStore.CNull /\
  Registry.tryGetConst r e1 Scenario.C2 = Ok ComponentStore.CNull /\
  Registry.tryGet r e1 Scenario.C = Ok (ComponentStore.CObj 9).
Proof. vm_compute. repeat split; reflexivity. Qed.



Lemma handle_equality_witness :
  EntityHandle.equals
    (EntityHandle.make EntityHandle.EntityHandleMedium 5 3)
    (EntityHandle.make EntityHandle.EntityHandleMedium (5 + 2 ^ 20) (3 - 2 ^ 12)) = true.
Proof.
  apply (handle_equality EntityHandle.EntityHandleMedium).
  - unfold valid_handle. vm_compute. repeat split; discriminate.
  - split; reflexivity.
Defined.

Lemma decoded_fields_in_range_witness :
  EntityHandle.index EntityHandle.EntityHandleSmall (JNumber (-1)) = Ok 4095 /\
  0 <= 4095 < 2 ^ 12.
Proof.
  split; [reflexivity |].
  apply (decoded_fields_in_range EntityHandle.EntityHandleSmall (JNumber (-1))).
  - unfold valid_handle. vm_compute. repeat split; discriminate.
  - unfold exact_fields. vm_compute. split; discriminate.
  - reflexivity.
Defined.

Lemma new_store_is_empty_witness :
  exists st,
    EntityStore.new (EntityStore.mkOptions (Some EntityHandleSmall) (Some (-3)) None None)
      = Ok st /\
    EntityStore.cap st = 1000 /\
    EntityStore.isAlive st (make EntityHandleSmall 0 0) <> Ok true.
Proof.
  destruct (new_store_is_empty
              (EntityStore.mkOptions (Some EntityHandleSmall) (Some (-3)) None None))
    as [_ H].
  destruct (H EntityHandleSmall eq_refl) as [_ H'].
  destruct H' as (st & H1 & _ & _ & _ & H2 & _ & _ & _ & H3);
    [vm_compute; discriminate |].
  exists st. split; [exact H1 |]. split; [exact H2 |].
  apply H3.
  - unfold valid_handle. vm_compute. repeat split; discriminate.
  - unfold exact_fields. vm_compute. split; discriminate.
Defined.

Lemma create_appends_witness :
  EntityStore.isAlive (fst (EntityStore.create Scenario.small_store))
                      (make EntityHandleSmall 0 0) = Ok true.
Proof.
  destruct (create_appends Scenario.small_store EntityHandleSmall) as [H _].
  - reflexivity.
  - unfold valid_handle. vm_compute. repeat split; discriminate.
  - unfold exact_fields. vm_compute. split; discriminate.
  - unfold store_inv. vm_compute. repeat split; try discriminate. by left.
  - reflexivity.
  - vm_compute. reflexivity.
  - destruct (H (fst (EntityStore.create Scenario.small_store))
                (make EntityHandleSmall 0 0))
      as (_ & _ & _ & _ & _ & _ & _ & Hal & _).
    + vm_compute. reflexivity.
    + apply Hal. right. right. vm_compute. reflexivity.
Defined.

Lemma remove_is_guarded_witness :
  exists st1,
    EntityStore.remove (fst (EntityStore.create Scenario.small_store))
                       (make EntityHandleSmall 0 0) = (st1, Ok tt) /\
    EntityStore.remove st1 (make EntityHandleSmall 0 0) = (st1, Throw InvalidHandle).
Proof.
  destruct (remove_is_guarded (fst (EntityStore.create Scenario.small_store))
              EntityHandleSmall (make EntityHandleSmall 0 0)) as [_ H].
  - reflexivity.
  - unfold valid_handle. vm_compute. repeat split; discriminate.
  - unfold exact_fields. vm_compute. split; discriminate.
  - destruct H as (st1 & H1 & H2 & _).
    + vm_compute. exact I.
    + vm_compute. reflexivity.
    + by exists st1.
Defined.

Lemma free_list_end_is_lost_witness :
  exists st1 st2,
    EntityStore.remove (fst (EntityStore.create Scenario.small_store))
                       (make EntityHandleSmall 0 0) = (st1, Ok tt) /\
    EntityStore.create st1 = (st2, Ok (make EntityHandleSmall 0 1)) /\
    EntityStore.free_slot st2 = 4095 /\
    exists st3,
      EntityStore.create st2 = (st3, Ok (make EntityHandleSmall 4095 0)) /\
      EntityStore.isAlive st3 (make EntityHandleSmall 4095 0) = Ok false.
Proof.
  destruct (free_list_end_is_lost (fst (EntityStore.create Scenario.small_store))
              EntityHandleSmall (make EntityHandleSmall 0 0))
    as (st1 & st2 & H1 & H2 & H3 & _ & H4).
  - reflexivity.
  - unfold valid_handle. vm_compute. repeat split; discriminate.
  - unfold exact_fields. vm_compute. split; discriminate.
  - unfold store_inv. vm_compute. repeat split; try discriminate. by left.
  - vm_compute. exact I.
  - vm_compute. reflexivity.
  - reflexivity.
  - vm_compute. reflexivity.
  - exists st1, st2. split; [exact H1 |]. split; [exact H2 |]. split; [exact H3 |].
    destruct H4 as (st3 & H5 & H6 & _). by exists st3.
Defined.

Lemma iterator_yields_live_witness :
  exists l,
    drain (fst (EntityStore.create Scenario.small_store)) 0 1 = Ok l /\
    (make EntityHandleSmall 0 0 ∈ l <->
     EntityStore.isAlive (fst (EntityStore.create Scenario.small_store))
                         (make EntityHandleSmall 0 0) = Ok true).
Proof.
  destruct (iterator_yields_live (fst (EntityStore.create Scenario.small_store))
              EntityHandleSmall 1) as (l & H1 & _ & H2).
  - reflexivity.
  - unfold valid_handle. vm_compute. repeat split; discriminate.
  - unfold exact_fields. vm_compute. split; discriminate.
  - intros k Hk. change (EntityStore.append_index _) with 1 in Hk.
    replace k with 0 by lia. vm_compute. exact I.
  - vm_compute. lia.
  - exists l. split; [exact H1 |]. apply H2. vm_compute. exact I.
Defined.

Lemma high_slot_handles_are_dead_witness :
  EntityStore.isAlive
    (fst (EntityStore.create
            (fst (EntityStore.create
                    (fst (EntityStore.create
                            (Scenario.or_else Scenario.empty_store
                               (EntityStore.new
                                  (EntityStore.mkOptions (Some (mkHandle 2 30)) (Some 8)
                                                         None None)))))))))
    (make (mkHandle 2 30) 2 0) = Ok false.
Proof.
  destruct (high_slot_handles_are_dead
              (fst (EntityStore.create
                      (fst (EntityStore.create
                              (Scenario.or_else Scenario.empty_store
                                 (EntityStore.new
                                    (EntityStore.mkOptions (Some (mkHandle 2 30)) (Some 8)
                                                           None None)))))))
              (fst (EntityStore.create
                      (fst (EntityStore.create
                              (fst (EntityStore.create
                                      (Scenario.or_else Scenario.empty_store
                                         (EntityStore.new
                                            (EntityStore.mkOptions (Some (mkHandle 2 30))
                                                                   (Some 8) None None)))))))))
              (mkHandle 2 30) (make (mkHandle 2 30) 2 0)) as (_ & H & _).
  - reflexivity.
  - unfold valid_handle. vm_compute. repeat split; discriminate.
  - reflexivity.
  - reflexivity.
  - reflexivity.
  - unfold store_inv. vm_compute. repeat split; try discriminate. by left.
  - reflexivity.
  - vm_compute. split; [discriminate | reflexivity].
  - vm_compute. reflexivity.
  - exact H.
Defined.

Lemma add_then_lookup_witness :
  exists s',
    SparseSet.add Scenario.small_typed_set Scenario.A false = (s', Ok 0) /\
    SparseSet.contains s' Scenario.A = Ok true /\
    SparseSet.index s' Scenario.A = Ok 0.
Proof.
  destruct (add_then_lookup Scenario.small_typed_set Scenario.A 0 false)
    as (s' & H1 & _ & _ & _ & H2 & H3 & _).
  - apply (bool_decide_unpack _). vm_compute. exact I.
  - apply (bool_decide_unpack _). vm_compute. exact I.
  - reflexivity.
  - intros _. reflexivity.
  - reflexivity.
  - vm_compute. reflexivity.
  - by exists s'.
Defined.

Lemma add_remove_roundtrip_witness :
  exists s' s'',
    SparseSet.add Scenario.small_typed_set Scenario.A false = (s', Ok 0) /\
    SparseSet.remove s' Scenario.A = (s'', Ok 0) /\
    SparseSet.len s'' = 0.
Proof.
  destruct (add_remove_roundtrip Scenario.small_typed_set Scenario.A 0 false)
    as (s' & s'' & H1 & H2 & H3 & _).
  - apply (bool_decide_unpack _). vm_compute. exact I.
  - apply (bool_decide_unpack _). vm_compute. exact I.
  - reflexivity.
  - intros _. reflexivity.
  - reflexivity.
  - vm_compute. reflexivity.
  - by exists s', s''.
Defined.

Lemma add_when_full_witness :
  SparseSet.add
    (Scenario.or_else Scenario.empty_set
       (SparseSet.new (SparseSet.mkOptions (Some true) (Some 0) (Some 128)
                                           (Some EntityHandleMedium))))
    Scenario.A true
  = (Scenario.or_else Scenario.empty_set
       (SparseSet.new (SparseSet.mkOptions (Some true) (Some 0) (Some 128)
                                           (Some EntityHandleMedium))),
     Ok SparseSet.FAILED_OPERATION).
Proof.
  destruct (add_when_full
              (Scenario.or_else Scenario.empty_set
                 (SparseSet.new (SparseSet.mkOptions (Some true) (Some 0) (Some 128)
                                                     (Some EntityHandleMedium))))
              Scenario.A 0) as (_ & H & _).
  - reflexivity.
  - reflexivity.
  - vm_compute. discriminate.
  - apply H. reflexivity.
Defined.

Lemma reset_keeps_cells_witness :
  exists s',
    SparseSet.add (SparseSet.reset Scenario.slack_set) Scenario.A false = (s', Ok 0) /\
    SparseSet.entities s' = [Scenario.A] /\
    SparseSet.contains s' Scenario.D = Ok true.
Proof.
  destruct (reset_keeps_cells Scenario.slack_set) as (_ & H & _).
  - apply (bool_decide_unpack _). vm_compute. exact I.
  - destruct (H Scenario.D 2 Scenario.A 0 false) as (s' & H1 & _ & _ & H2 & _).
    + reflexivity.
    + reflexivity.
    + lia.
    + reflexivity.
    + intros _. reflexivity.
    + exists s'. split; [exact H1 |]. split; [| exact H2].
      vm_compute in H1. injection H1 as <-. reflexivity.
Defined.

Lemma swap_exchanges_witness :
  exists s',
    SparseSet.swap Scenario.slack_set
      (SparseSet.dense_read Scenario.slack_set 0)
      (SparseSet.dense_read Scenario.slack_set 1)
      = (s', Ok SparseSet.SUCCESS_OPERATION) /\
    SparseSet.index s' (SparseSet.dense_read Scenario.slack_set 0) = Ok 1 /\
    SparseSet.index s' (SparseSet.dense_read Scenario.slack_set 1) = Ok 0.
Proof.
  destruct (swap_exchanges Scenario.slack_set 0 1) as (s' & _ & H1 & _ & _ & H2 & H3 & _).
  - apply (bool_decide_unpack _). vm_compute. exact I.
  - vm_compute. split; [discriminate | reflexivity].
  - vm_compute. split; [discriminate | reflexivity].
  - lia.
  - exists s'. split; [exact H1 |]. split; [exact H2 | exact H3].
Defined.

Lemma swap_fails_cleanly_witness :
  SparseSet.swap Scenario.stale_set Scenario.D Scenario.B
  = (Scenario.stale_set, Ok SparseSet.FAILED_OPERATION).
Proof.
  apply (swap_fails_cleanly Scenario.stale_set Scenario.D Scenario.B 2 1).
  - reflexivity.
  - reflexivity.
  - right. right. reflexivity.
Defined.

Lemma entities_are_members_witness :
  NoDup (SparseSet.entities Scenario.slack_set) /\
  Z.of_nat (Datatypes.length (SparseSet.entities Scenario.slack_set)) = 2.
Proof.
  destruct (entities_are_members Scenario.slack_set) as (H1 & H2 & _).
  - apply (bool_decide_unpack _). vm_compute. exact I.
  - split; [exact H2 | exact H1].
Defined.

Lemma new_set_is_empty_witness :
  exists s,
    SparseSet.new (SparseSet.mkOptions (Some true) (Some 4) (Some (2 ^ 7))
                                       (Some EntityHandleMedium)) = Ok s /\
    SparseSet.capacity s = 4 /\ SparseSet.contains s Scenario.A = Ok false.
Proof.
  destruct (new_set_is_empty true 4 7 EntityHandleMedium) as [H _].
  destruct H as (s & H1 & _ & _ & _ & H2 & _ & _ & _ & H3);
    [lia | vm_compute; split; discriminate |].
  exists s. split; [exact H1 |]. split; [exact H2 |].
  apply (H3 Scenario.A 0). reflexivity.
Defined.

Lemma remove_keeps_invariants_witness :
  exists s',
    SparseSet.remove Scenario.slack_set Scenario.D = (s', Ok SparseSet.SUCCESS_OPERATION) /\
    SparseSet.contains s' Scenario.D = Ok false /\
    SparseSet.contains s' Scenario.B = SparseSet.contains Scenario.slack_set Scenario.B.
Proof.
  destruct (remove_keeps_invariants Scenario.slack_set Scenario.D 2)
    as (s' & H1 & _ & _ & _ & H2 & H3).
  - apply (bool_decide_unpack _). vm_compute. exact I.
  - apply (bool_decide_unpack _). vm_compute. exact I.
  - reflexivity.
  - reflexivity.
  - exists s'. split; [exact H1 |]. split; [exact H2 |].
    apply (H3 Scenario.B 1); [reflexivity | lia].
Defined.

Lemma typed_set_rejects_bigint_witness :
  snd (SparseSet.add
         (Scenario.or_else Scenario.empty_set
            (SparseSet.new (SparseSet.mkOptions (Some true) (Some 4) (Some 128)
                                                (Some EntityHandleLarge))))
         (make EntityHandleLarge 0 0) true) = Throw TypeError.
Proof.
  destruct (typed_set_rejects_bigint
              (Scenario.or_else Scenario.empty_set
                 (SparseSet.new (SparseSet.mkOptions (Some true) (Some 4) (Some 128)
                                                     (Some EntityHandleLarge))))
              (make EntityHandleLarge 0 0) 0 true) as (s' & H & _).
  - reflexivity.
  - reflexivity.
  - reflexivity.
  - reflexivity.
  - vm_compute. reflexivity.
  - by rewrite H.
Defined.

Lemma store_add_then_get_witness :
  exists cs',
    ComponentStore.add Scenario.listener_store Scenario.A [5] true true
      = (cs', Ok ComponentStore.SUCCESS_OPERATION) /\
    ComponentStore.get cs' Scenario.A
      = Ok (ComponentStore.CObj (Scenario.Listener 5)) /\
    ComponentStore.getConst cs' Scenario.A = Throw DataCloneError.
Proof.
  destruct (store_add_then_get Scenario.listener_store Scenario.A 0 [5] true true)
    as [H _].
  - apply (bool_decide_unpack _). vm_compute. exact I.
  - apply (bool_decide_unpack _). vm_compute. exact I.
  - reflexivity.
  - intros _. reflexivity.
  - reflexivity.
  - vm_compute. reflexivity.
  - destruct H as (cs' & H1 & _ & _ & _ & _ & H2 & _ & H3 & _).
    + reflexivity.
    + right. split; [reflexivity | vm_compute; discriminate].
    + exists cs'. split; [exact H1 |]. split; [exact H2 | exact H3].
Defined.

Lemma store_add_existing_witness :
  exists cs',
    ComponentStore.add Scenario.abd_store Scenario.B [9] true true
      = (cs', Ok ComponentStore.SUCCESS_OPERATION) /\
    ComponentStore.get cs' Scenario.B = Ok (ComponentStore.CObj 9).
Proof.
  destruct (store_add_existing Scenario.abd_store Scenario.B 1 1 [9] true)
    as (_ & cs' & H1 & _ & _ & H2 & _).
  - apply (bool_decide_unpack _). vm_compute. exact I.
  - reflexivity.
  - reflexivity.
  - reflexivity.
  - discriminate.
  - exists cs'. split; [exact H1 | exact H2].
Defined.

Lemma store_absent_entity_witness :
  ComponentStore.remove Scenario.standard_store Scenario.A
    = (Scenario.standard_store, Ok ComponentStore.FAILED_OPERATION) /\
  ComponentStore.tryGet Scenario.standard_store Scenario.A = Ok ComponentStore.CNull.
Proof.
  destruct (store_absent_entity Scenario.standard_store Scenario.A) as (H1 & _ & H2).
  - reflexivity.
  - split; [exact H1 |]. by destruct H2 as (_ & _ & H & _).
Defined.

Lemma store_swap_payloads_witness :
  exists cs'',
    ComponentStore.swap Scenario.abd_store
      (SparseSet.dense_read (ComponentStore.set Scenario.abd_store) 0)
      (SparseSet.dense_read (ComponentStore.set Scenario.abd_store) 2) true
      = (cs'', Ok ComponentStore.SUCCESS_OPERATION) /\
    ComponentStore.get cs'' (SparseSet.dense_read (ComponentStore.set Scenario.abd_store) 0)
      = ComponentStore.get Scenario.abd_store
          (SparseSet.dense_read (ComponentStore.set Scenario.abd_store) 2).
Proof.
  destruct (store_swap_payloads Scenario.abd_store 0 2) as [_ (cs'' & H1 & _ & H2 & _)].
  - apply (bool_decide_unpack _). vm_compute. exact I.
  - reflexivity.
  - vm_compute. split; [discriminate | reflexivity].
  - vm_compute. split; [discriminate | reflexivity].
  - lia.
  - exists cs''. split; [exact H1 | exact H2].
Defined.

Lemma reserve_keeps_contents_witness :
  exists cs',
    ComponentStore.reserve Scenario.abd_store 2048
      = (cs', Ok ComponentStore.SUCCESS_OPERATION) /\
    SparseSet.capacity (ComponentStore.set cs') = 2048 /\
    ComponentStore.len cs' = ComponentStore.len Scenario.abd_store.
Proof.
  destruct (reserve_keeps_contents Scenario.abd_store 2048) as (_ & _ & _ & H).
  destruct H as (cs' & H1 & H2 & _ & H3 & _).
  - vm_compute. reflexivity.
  - vm_compute. discriminate.
  - intros _. vm_compute. discriminate.
  - exists cs'. split; [exact H1 |]. split; [exact H2 | exact H3].
Defined.

Lemma prepare_registers_once_witness :
  Registry.prepare (fst Scenario.registry_one) Scenario.C ComponentStore.ComponentEmpty
                   Registry.DefaultComponentOptions
  = (fst Scenario.registry_one,
     Ok (Scenario.store_of (fst Scenario.registry_one) Scenario.C)).
Proof.
  destruct (prepare_registers_once (fst Scenario.registry_one) Scenario.C
              ComponentStore.ComponentEmpty Registry.DefaultComponentOptions) as [H _].
  apply H. vm_compute. reflexivity.
Defined.

Lemma registry_add_registers_witness :
  exists r',
    Registry.add (fst (Registry.create Scenario.fresh_registry)) Scenario.A Scenario.C
      ComponentStore.ComponentStandard [7]
      (Registry.mkComponentOptions (Some true) (Some 1024) (Some (2 ^ 12))
                                   (Some true) (Some true))
      = (r', Ok ComponentStore.SUCCESS_OPERATION) /\
    Registry.get r' Scenario.A Scenario.C = Ok (ComponentStore.CObj 7).
Proof.
  destruct (registry_add_registers (fst (Registry.create Scenario.fresh_registry))
              Scenario.C Scenario.A 0 [7] EntityHandle.EntityHandleMedium true 1024 12
              (Some true) (Some true))
    as (r' & H1 & _ & H2 & _).
  - vm_compute. reflexivity.
  - reflexivity.
  - reflexivity.
  - reflexivity.
  - intros _. reflexivity.
  - unfold MAX_ARRAY_LENGTH. lia.
  - vm_compute. discriminate.
  - lia.
  - exists r'. split; [exact H1 | exact H2].
Defined.

Lemma registry_add_then_get_witness :
  exists r',
    Registry.add (fst (fst Scenario.registry_two)) (snd Scenario.registry_two) Scenario.C
      ComponentStore.ComponentStandard [4] Registry.DefaultComponentOptions
      = (r', Ok ComponentStore.SUCCESS_OPERATION) /\
    Registry.has r' (snd Scenario.registry_two) Scenario.C = Ok true.
Proof.
  destruct (registry_add_then_get (fst (fst Scenario.registry_two)) Scenario.C
              (Scenario.store_of (fst (fst Scenario.registry_two)) Scenario.C)
              (snd Scenario.registry_two) 1 ComponentStore.ComponentStandard [4]
              Registry.DefaultComponentOptions)
    as (r' & H1 & H2 & _).
  - vm_compute. reflexivity.
  - vm_compute. reflexivity.
  - reflexivity.
  - apply (bool_decide_unpack _). vm_compute. exact I.
  - apply (bool_decide_unpack _). vm_compute. exact I.
  - reflexivity.
  - intros _. reflexivity.
  - reflexivity.
  - vm_compute. reflexivity.
  - left. vm_compute. reflexivity.
  - exists r'. split; [exact H1 | exact H2].
Defined.

Lemma fetch_replace_returns_old_witness :
  exists r',
    Registry.fetchReplace (fst Scenario.registry_one) (snd Scenario.registry_one)
                          Scenario.C [5]
      = (r', Registry.get (fst Scenario.registry_one) (snd Scenario.registry_one)
                          Scenario.C) /\
    Registry.has r' (snd Scenario.registry_one) Scenario.C = Ok true.
Proof.
  destruct (fetch_replace_returns_old (fst Scenario.registry_one) Scenario.C
              (snd Scenario.registry_one) [5]) as (_ & _ & H).
  - vm_compute. reflexivity.
  - destruct (H (Scenario.store_of (fst Scenario.registry_one) Scenario.C) 0 0)
      as (r' & H1 & _ & _ & _ & H2).
    + vm_compute. reflexivity.
    + apply (bool_decide_unpack _). vm_compute. exact I.
    + reflexivity.
    + reflexivity.
    + reflexivity.
    + discriminate.
    + exists r'. split; [exact H1 | exact H2].
Defined.

Lemma registry_remove_variants_witness :
  exists r',
    Registry.remove (fst Scenario.registry_one) (snd Scenario.registry_one) Scenario.C
      = (r', Ok ComponentStore.SUCCESS_OPERATION) /\
    Registry.has r' (snd Scenario.registry_one) Scenario.C = Ok false.
Proof.
  destruct (registry_remove_variants (fst Scenario.registry_one) Scenario.C
              (snd Scenario.registry_one)) as (_ & _ & H).
  - vm_compute. reflexivity.
  - destruct (H (Scenario.store_of (fst Scenario.registry_one) Scenario.C) 0 0)
      as (r' & H1 & _ & H2 & _).
    + vm_compute. reflexivity.
    + apply (bool_decide_unpack _). vm_compute. exact I.
    + reflexivity.
    + reflexivity.
    + discriminate.
    + exists r'. split; [exact H1 | exact H2].
Defined.

Lemma addComps_keeps_prefix_witness :
  Registry.addComps (fst (Registry.create Scenario.fresh_registry)) Scenario.A
    ([Some (Scenario.C, None, Some [7], None)] ++ [None])
  = (fst (Registry.addComps (fst (Registry.create Scenario.fresh_registry)) Scenario.A
            [Some (Scenario.C, None, Some [7], None)]),
     Throw InvalidComponentEntry).
Proof.
  apply (addComps_keeps_prefix (fst (Registry.create Scenario.fresh_registry)) Scenario.A
           [Some (Scenario.C, None, Some [7], None)] []).
  vm_compute. reflexivity.
Defined.

